(** * M2Y backend: message access control, lifecycle and envelope codec

    A shallow embedding of the request handlers of
    [src/controllers/message.controller.js],
    [src/controllers/media.controller.js],
    [src/controllers/group.controller.js] and
    [src/controllers/auth.controller.js], and of [src/utils/otp.util.js] and
    [src/utils/encryption.util.js], over the models of
    [prisma/schema.prisma].

    Conventions.
    - A database collection is a list of documents, in natural (insertion)
      order; [findMany] is a filter, [findFirst]/[findUnique] a search,
      [updateMany]/[update] a map.
    - A [Date] is the integer number of milliseconds since the epoch; the
      value of [new Date()] read by a handler is its argument [now].
    - A nullable or optional string field is an [option string]; a handler
      is a function from the store (and the file system, where it touches
      it) to a response and the new store.
    - An object-id is a [string]; the identifiers handlers receive are taken
      to be well-formed object ids.
    - The [include] of a query is checked against the relation fields of
      the schema, and a query that fails the check throws.
    - A string of ASCII text (an id, base64 text, a file name) is a
      [string]; a string that holds any text is the list of its UTF-16 code
      units. *)

From Stdlib Require Import String Ascii List Bool ZArith Lia Arith.
Import ListNotations.
Local Open Scope string_scope.
Local Open Scope list_scope.

Set Implicit Arguments.

(** ** JavaScript values used by the handlers *)

Definition Date := Z.
Bind Scope Z_scope with Date.

(** Truthiness of an optional string: [undefined], [null] and the empty
    string are falsy. *)
Definition truthy (v : option string) : bool :=
  match v with
  | Some s => negb (String.eqb s "")
  | None => false
  end.

(** [v || null] on an optional string. *)
Definition or_null (v : option string) : option string :=
  if truthy v then v else None.

(** Truthiness of an optional number: [undefined], [null] and [0] are falsy. *)
Definition truthy_num (v : option Z) : bool :=
  match v with
  | Some n => negb (Z.eqb n 0)
  | None => false
  end.


(** Truthiness of a [DateTime] column read from the database: a [Date]
    object is truthy, [null] is not. *)
Definition is_date (v : option Date) : bool :=
  match v with
  | Some _ => true
  | None => false
  end.

(** [new Date(t)] on a number is a date when [t] lies within 8.64e15
    milliseconds of the epoch, and an Invalid Date otherwise. *)
Definition valid_time (t : Z) : bool := Z.leb (Z.abs t) 8640000000000000.

(** The result of a call that can throw. *)
Inductive Outcome (A : Type) : Type :=
| Returns (a : A)
| Throws.

Arguments Returns {A} a.
Arguments Throws {A}.

(** [Array.prototype.includes] on an array of ids. *)
Definition includes (ids : list string) (x : string) : bool :=
  existsb (String.eqb x) ids.

(** [a === b] where [a] is a nullable id and [b] an id. *)
Definition eq_id (a : option string) (b : string) : bool :=
  match a with
  | Some s => String.eqb s b
  | None => false
  end.

(** Substring test, the meaning of Prisma's [contains] string filter. *)
Fixpoint contains (needle hay : string) : bool :=
  String.prefix needle hay ||
  match hay with
  | EmptyString => false
  | String _ hay' => contains needle hay'
  end.

(** ** Documents (prisma/schema.prisma) *)

Record User := mkUser {
  u_id : string;
  u_phoneNumber : string;
  u_username : option string;
  u_profilePic : option string;
  u_isOnline : bool;
  u_lastSeen : Date
}.

Record OtpData := mkOtpData {
  o_userId : string;
  o_otp : string;
  o_expiresAt : Date
}.

Record Reaction := mkReaction {
  r_id : string;
  r_messageId : string;
  r_userId : string;
  r_emoji : string
}.

Record Message := mkMessage {
  m_id : string;
  m_senderId : string;
  m_receiverId : option string;
  m_groupId : option string;
  m_content : string;
  m_encryptedKey : string;
  m_mediaUrl : option string;
  m_mediaType : option string;
  m_isRead : bool;
  m_isDelivered : bool;
  m_isAnonymous : bool;
  m_expiresAt : option Date;
  m_deleted : bool;
  m_createdAt : Date
}.

Record MemberNickname := mkNickname {
  n_userId : string;
  n_groupId : string;
  n_nickname : string;
  n_isVisible : bool
}.

Record Group := mkGroup {
  g_id : string;
  g_name : string;
  g_isPrivate : bool;
  g_adminId : string;
  g_memberIds : list string;
  g_messageExpiry : option Z;
  g_allowAnonymous : bool
}.

Record GroupInvite := mkInvite {
  i_groupId : string;
  i_inviteCode : string;
  i_expiresAt : Date
}.

Record Store := mkStore {
  users : list User;
  otps : list OtpData;
  messages : list Message;
  reactions : list Reaction;
  groups : list Group;
  groupInvites : list GroupInvite;
  nicknames : list MemberNickname
}.

Definition set_messages (st : Store) (ms : list Message) : Store :=
  mkStore (users st) (otps st) ms (reactions st) (groups st) (groupInvites st)
    (nicknames st).

Definition set_otps (st : Store) (os : list OtpData) : Store :=
  mkStore (users st) os (messages st) (reactions st) (groups st) (groupInvites st)
    (nicknames st).

(** ** Relations (prisma/schema.prisma)

    The relation fields that each model of the schema declares, with the
    model they lead to. Prisma Client checks the [include] argument of a
    query against them before any document is read: a name that is no
    relation field of the model makes the call throw. *)

Inductive Model : Type :=
| MUser | MOtpData | MMessage | MReaction | MGroup | MGroupInvite | MMemberNickname.

Definition relation_fields (model : Model) : list (string * Model) :=
  match model with
  | MUser =>
      [ ("otpData", MOtpData); ("sentMessages", MMessage); ("recvMessages", MMessage);
        ("groups", MGroup); ("adminGroups", MGroup) ]
  | MOtpData => [ ("user", MUser) ]
  | MMessage =>
      [ ("sender", MUser); ("receiver", MUser); ("group", MGroup);
        ("reactions", MReaction) ]
  | MReaction => [ ("message", MMessage) ]
  | MGroup =>
      [ ("admin", MUser); ("members", MUser); ("messages", MMessage);
        ("groupInvites", MGroupInvite); ("memberNicknames", MMemberNickname) ]
  | MGroupInvite => [ ("group", MGroup) ]
  | MMemberNickname => [ ("group", MGroup) ]
  end.

Definition relation_target (model : Model) (name : string) : option Model :=
  option_map snd (find (fun r => String.eqb (fst r) name) (relation_fields model)).

(** An [include] object: the relation fields it names, each with the
    [include] nested in it ([Inc []] for [true] and for a [select] of
    columns). *)
#[warnings="-register-all"]
Inductive Include : Type :=
| Inc (fields : list (string * Include)).

Fixpoint valid_include (model : Model) (i : Include) {struct i} : bool :=
  match i with
  | Inc fields =>
      (fix every (fs : list (string * Include)) : bool :=
         match fs with
         | [] => true
         | (name, nested) :: fs' =>
             match relation_target model name with
             | Some target => valid_include target nested && every fs'
             | None => false
             end
         end) fields
  end.

(** ** Responses *)

Inductive Response (A : Type) : Type :=
| Json (status : nat) (data : A)          (* res.status(s).json({success: true, data}) *)
| Fail (status : nat) (message : string)  (* res.status(s).json({success: false, message}) *)
| SendFile (file : string).               (* res.sendFile(path) *)

Arguments Json {A} status data.
Arguments Fail {A} status message.
Arguments SendFile {A} file.

(** ** Prisma [where] clauses

    A [where] argument is a JavaScript object literal. Its keys are listed
    here in source order, and [object_literal] evaluates the literal the way
    JavaScript does: a key written twice keeps its first position and its
    last value. *)

Inductive FieldValue : Type :=
| VStr (v : option string)
| VBool (b : bool)
| VDate (d : option Date).

#[warnings="-register-all"]
Inductive Cond : Type :=
| Equals (v : FieldValue)                  (* field: v *)
| Gt (d : Date)                            (* field: { gt: d } *)
| Lt (d : Date)                            (* field: { lt: d } *)
| NotNull                                  (* field: { not: null } *)
| Contains (s : string)                    (* field: { contains: s } *)
| AnyOf (alts : list (list (string * Cond))). (* OR: [ {...}, ... ] *)

Definition Where := list (string * Cond).

Fixpoint assign (k : string) (c : Cond) (o : Where) : Where :=
  match o with
  | [] => [(k, c)]
  | (k', c') :: o' =>
      if String.eqb k k' then (k', c) :: o' else (k', c') :: assign k c o'
  end.

Definition object_literal (props : list (string * Cond)) : Where :=
  fold_left (fun o kc => assign (fst kc) (snd kc) o) props [].

Definition message_field (m : Message) (k : string) : option FieldValue :=
  if String.eqb k "id" then Some (VStr (Some (m_id m)))
  else if String.eqb k "senderId" then Some (VStr (Some (m_senderId m)))
  else if String.eqb k "receiverId" then Some (VStr (m_receiverId m))
  else if String.eqb k "groupId" then Some (VStr (m_groupId m))
  else if String.eqb k "mediaUrl" then Some (VStr (m_mediaUrl m))
  else if String.eqb k "isRead" then Some (VBool (m_isRead m))
  else if String.eqb k "isDelivered" then Some (VBool (m_isDelivered m))
  else if String.eqb k "isAnonymous" then Some (VBool (m_isAnonymous m))
  else if String.eqb k "deleted" then Some (VBool (m_deleted m))
  else if String.eqb k "expiresAt" then Some (VDate (m_expiresAt m))
  else None.

Definition option_eqb {A} (eqb : A -> A -> bool) (a b : option A) : bool :=
  match a, b with
  | Some x, Some y => eqb x y
  | None, None => true
  | _, _ => false
  end.

Definition value_eqb (a b : FieldValue) : bool :=
  match a, b with
  | VStr x, VStr y => option_eqb String.eqb x y
  | VBool x, VBool y => Bool.eqb x y
  | VDate x, VDate y => option_eqb Z.eqb x y
  | _, _ => false
  end.

(** A comparison or string filter on a [null] field never matches. *)
Fixpoint holds (m : Message) (k : string) (c : Cond) {struct c} : bool :=
  match c with
  | AnyOf alts =>
      existsb (fun w => forallb (fun kc => let '(k', c') := kc in holds m k' c') w) alts
  | Equals v =>
      match message_field m k with
      | Some f => value_eqb f v
      | None => false
      end
  | Gt d =>
      match message_field m k with
      | Some (VDate (Some x)) => Z.ltb d x
      | _ => false
      end
  | Lt d =>
      match message_field m k with
      | Some (VDate (Some x)) => Z.ltb x d
      | _ => false
      end
  | NotNull =>
      match message_field m k with
      | Some (VStr (Some _)) | Some (VDate (Some _)) | Some (VBool _) => true
      | _ => false
      end
  | Contains s =>
      match message_field m k with
      | Some (VStr (Some x)) => contains s x
      | _ => false
      end
  end.

(** All keys of a [where] object must hold. *)
Definition matches (w : Where) (m : Message) : bool :=
  forallb (fun kc => holds m (fst kc) (snd kc)) w.

Definition findMany (w : Where) (ms : list Message) : list Message :=
  filter (matches w) ms.

Definition findFirst (w : Where) (ms : list Message) : option Message :=
  find (matches w) ms.

Definition updateMany (w : Where) (upd : Message -> Message) (ms : list Message)
  : list Message :=
  map (fun m => if matches w m then upd m else m) ms.

(** [prisma.message.update({ where: { id }, data })]. *)
Definition update_by_id (id : string) (upd : Message -> Message) (ms : list Message)
  : list Message :=
  map (fun m => if String.eqb (m_id m) id then upd m else m) ms.

Definition findUnique_message (id : string) (ms : list Message) : option Message :=
  find (fun m => String.eqb (m_id m) id) ms.

Definition findUnique_group (id : string) (gs : list Group) : option Group :=
  find (fun g => String.eqb (g_id g) id) gs.

Definition set_isDelivered (m : Message) : Message :=
  mkMessage (m_id m) (m_senderId m) (m_receiverId m) (m_groupId m) (m_content m)
    (m_encryptedKey m) (m_mediaUrl m) (m_mediaType m) (m_isRead m) true
    (m_isAnonymous m) (m_expiresAt m) (m_deleted m) (m_createdAt m).

Definition set_isRead_isDelivered (m : Message) : Message :=
  mkMessage (m_id m) (m_senderId m) (m_receiverId m) (m_groupId m) (m_content m)
    (m_encryptedKey m) (m_mediaUrl m) (m_mediaType m) true true
    (m_isAnonymous m) (m_expiresAt m) (m_deleted m) (m_createdAt m).

(** [orderBy: { createdAt: 'asc' }], a stable insertion sort. *)
Fixpoint insert_by_createdAt (m : Message) (ms : list Message) : list Message :=
  match ms with
  | [] => [m]
  | x :: ms' =>
      if Z.ltb (m_createdAt m) (m_createdAt x) then m :: x :: ms'
      else x :: insert_by_createdAt m ms'
  end.

Definition orderBy_createdAt (ms : list Message) : list Message :=
  fold_left (fun acc m => insert_by_createdAt m acc) ms [].

(** ** message.controller.js *)

(** *** sendMessage *)

Record SendMessageBody := mkBody {
  b_receiverId : option string;
  b_groupId : option string;
  b_content : option string;
  b_encryptedKey : option string;
  b_mediaUrl : option string;
  b_mediaType : option string;
  b_isAnonymous : bool;
  b_expiresAt : option Z      (* a number of milliseconds, when present *)
}.

(** [expiresAt ? new Date(expiresAt) : null] on the number of the request:
    [0] is falsy and gives [null]; a number out of the range of dates gives
    an Invalid Date, which [prisma.message.create] refuses by throwing. *)
Definition expiresAt_data (expiresAt : option Z) : Outcome (option Date) :=
  if truthy_num expiresAt then
    match expiresAt with
    | Some t => if valid_time t then Returns (Some t) else Throws
    | None => Returns None
    end
  else Returns None.

(** The group branch of [sendMessage]: [Some] is the response of an early
    return. The assignment [expiresAt = expiryTime] targets a [const]
    binding, so reaching it throws and the handler's [catch] answers 500. *)
Definition sendMessage_group_checks (st : Store) (senderId : string)
    (body : SendMessageBody) : option (Response Message) :=
  match (if truthy (b_groupId body) then b_groupId body else None) with
  | None => None
  | Some groupId =>
      match findUnique_group groupId (groups st) with
      | None => Some (Fail 404 "Group not found")
      | Some group =>
          if negb (includes (g_memberIds group) senderId) then
            Some (Fail 403 "You are not a member of this group")
          else if b_isAnonymous body && negb (g_allowAnonymous group) then
            Some (Fail 403 "Anonymous messaging is not allowed in this group")
          else if negb (truthy_num (b_expiresAt body))
                  && truthy_num (g_messageExpiry group) then
            Some (Fail 500 "Server error sending message")
          else None
      end
  end.

(** [newId] is the object id the database generates for the new document;
    [content] and [encryptedKey] are required columns, so [create] throws
    when one of them is missing, as it does on an Invalid Date. *)
Definition sendMessage (st : Store) (now : Date) (newId : string)
    (senderId : string) (body : SendMessageBody) : Response Message * Store :=
  if negb (truthy (b_receiverId body)) && negb (truthy (b_groupId body)) then
    (Fail 400 "Please provide either a receiver ID or group ID", st)
  else
    match sendMessage_group_checks st senderId body with
    | Some early => (early, st)
    | None =>
        match b_content body, b_encryptedKey body,
              expiresAt_data (b_expiresAt body) with
        | Some content, Some encryptedKey, Returns expiresAt =>
            let message :=
              {| m_id := newId;
                 m_senderId := senderId;
                 m_receiverId := or_null (b_receiverId body);
                 m_groupId := or_null (b_groupId body);
                 m_content := content;
                 m_encryptedKey := encryptedKey;
                 m_mediaUrl := or_null (b_mediaUrl body);
                 m_mediaType := or_null (b_mediaType body);
                 m_isRead := false;
                 m_isDelivered := false;
                 m_isAnonymous := b_isAnonymous body;
                 m_expiresAt := expiresAt;
                 m_deleted := false;
                 m_createdAt := now |} in
            (Json 201 message, set_messages st (messages st ++ [message]))
        | _, _, _ => (Fail 500 "Server error sending message", st)
        end
    end.

(** *** getMessagesByUser *)

Record MessageWithReactions := mkMWR {
  mwr_message : Message;
  mwr_reactions : list Reaction
}.

Definition include_reactions (st : Store) (m : Message) : MessageWithReactions :=
  {| mwr_message := m;
     mwr_reactions :=
       filter (fun r => String.eqb (r_messageId r) (m_id m)) (reactions st) |}.

Definition not_expired_filter (now : Date) : Cond :=
  AnyOf [ object_literal [("expiresAt", Equals (VDate None))];
          object_literal [("expiresAt", Gt now)] ].

(** The [where] literal of [getMessagesByUser], its properties in source
    order: [OR] (the two directions of the conversation), [deleted], and
    [OR] again (the expiry filter). *)
Definition getMessagesByUser_where (currentUserId otherUserId : string)
    (now : Date) : Where :=
  object_literal
    [ ("OR", AnyOf
         [ object_literal [ ("senderId", Equals (VStr (Some currentUserId)));
                            ("receiverId", Equals (VStr (Some otherUserId))) ];
           object_literal [ ("senderId", Equals (VStr (Some otherUserId)));
                            ("receiverId", Equals (VStr (Some currentUserId))) ] ]);
      ("deleted", Equals (VBool false));
      ("OR", not_expired_filter now) ].

Definition mark_delivered_where (currentUserId otherUserId : string) : Where :=
  object_literal
    [ ("senderId", Equals (VStr (Some otherUserId)));
      ("receiverId", Equals (VStr (Some currentUserId)));
      ("isDelivered", Equals (VBool false)) ].

Definition getMessagesByUser (st : Store) (now : Date)
    (currentUserId otherUserId : string)
  : Response (list MessageWithReactions) * Store :=
  let found :=
    orderBy_createdAt
      (findMany (getMessagesByUser_where currentUserId otherUserId now)
         (messages st)) in
  let data := map (include_reactions st) found in
  let st' :=
    set_messages st
      (updateMany (mark_delivered_where currentUserId otherUserId)
         set_isDelivered (messages st)) in
  (Json 200 data, st').

(** *** getGroupMessages *)

Record SenderView := mkSender {
  sv_id : option string;
  sv_username : option string;
  sv_phoneNumber : option string;   (* [None]: the property is absent *)
  sv_profilePic : option string;
  sv_isNickname : option bool;      (* [None]: the property is absent *)
  sv_isVisible : option bool        (* [None]: the property is absent *)
}.

(** One element of the result of a [message.findMany] that includes
    [sender] and [reactions]: the scalar fields of the message, and the two
    included relations. The object spread [{...message, sender: s}] keeps
    the first and the third component and replaces the second. *)
Record GroupMessage := mkGroupMessage {
  gm_message : Message;
  gm_sender : SenderView;
  gm_reactions : list Reaction
}.

Definition select_sender (u : User) : SenderView :=
  {| sv_id := Some (u_id u);
     sv_username := u_username u;
     sv_phoneNumber := Some (u_phoneNumber u);
     sv_profilePic := u_profilePic u;
     sv_isNickname := None;
     sv_isVisible := None |}.

Definition findUnique_user (id : string) (us : list User) : option User :=
  find (fun u => String.eqb (u_id u) id) us.

(** [sender] resolves through [senderId] and [reactions] through
    [messageId]. [sender] is a required relation, and a message whose sender
    document is gone makes the query throw. *)
Definition include_sender_reactions (st : Store) (m : Message)
  : option GroupMessage :=
  match findUnique_user (m_senderId m) (users st) with
  | Some u =>
      Some {| gm_message := m;
              gm_sender := select_sender u;
              gm_reactions :=
                filter (fun r => String.eqb (r_messageId r) (m_id m))
                  (reactions st) |}
  | None => None
  end.

Fixpoint all_some {A} (l : list (option A)) : option (list A) :=
  match l with
  | [] => Some []
  | Some x :: l' =>
      match all_some l' with
      | Some xs => Some (x :: xs)
      | None => None
      end
  | None :: _ => None
  end.

Definition anonymous_sender : SenderView :=
  {| sv_id := None;
     sv_username := Some "Anonymous";
     sv_phoneNumber := None;
     sv_profilePic := None;
     sv_isNickname := None;
     sv_isVisible := None |}.

Definition find_nickname (memberNicknames : list MemberNickname)
    (userId groupId : string) : option MemberNickname :=
  find (fun n => String.eqb (n_userId n) userId && String.eqb (n_groupId n) groupId)
    memberNicknames.

(** The callback of [messages.map] in [getGroupMessages]. *)
Definition with_nickname (memberNicknames : list MemberNickname)
    (groupId : string) (message : GroupMessage) : GroupMessage :=
  if m_isAnonymous (gm_message message) then
    {| gm_message := gm_message message;
       gm_sender := anonymous_sender;
       gm_reactions := gm_reactions message |}
  else
    match find_nickname memberNicknames (m_senderId (gm_message message)) groupId with
    | Some nickname =>
        {| gm_message := gm_message message;
           gm_sender :=
             {| sv_id := sv_id (gm_sender message);
                sv_username := Some (n_nickname nickname);
                sv_phoneNumber := sv_phoneNumber (gm_sender message);
                sv_profilePic := sv_profilePic (gm_sender message);
                sv_isNickname := Some true;
                sv_isVisible := Some (n_isVisible nickname) |};
           gm_reactions := gm_reactions message |}
    | None => message
    end.

Definition getGroupMessages_where (groupId : string) (now : Date) : Where :=
  object_literal
    [ ("groupId", Equals (VStr (Some groupId)));
      ("deleted", Equals (VBool false));
      ("OR", not_expired_filter now) ].

(** [include: { memberNicknames: true }] on a group. *)
Definition group_memberNicknames (st : Store) (group : Group) : list MemberNickname :=
  filter (fun n => String.eqb (n_groupId n) (g_id group)) (nicknames st).

(** The [include] of the [findMany] of [getGroupMessages]: the [sender],
    with a [select] of columns of [User], and the [reactions], each with
    its [user]. The schema declares the column [userId] on [Reaction] and no
    relation field [user]. *)
Definition getGroupMessages_include : Include :=
  Inc [ ("sender", Inc []); ("reactions", Inc [ ("user", Inc []) ]) ].

(** [prisma.message.findMany({ where, orderBy: { createdAt: 'asc' },
    include })] for an [include] of [sender] and [reactions]. The query is
    checked against the schema first, and refused when the check fails. *)
Definition findMany_include (st : Store) (w : Where) (i : Include)
  : Outcome (list GroupMessage) :=
  if valid_include MMessage i then
    match all_some
            (map (include_sender_reactions st)
               (orderBy_createdAt (findMany w (messages st)))) with
    | Some rows => Returns rows
    | None => Throws
    end
  else Throws.

(** The first query, [group.findUnique] with [include: { members: true,
    memberNicknames: true }], names relation fields of [Group]. *)
Definition getGroupMessages (st : Store) (now : Date)
    (currentUserId groupId : string) : Response (list GroupMessage) :=
  match findUnique_group groupId (groups st) with
  | None => Fail 404 "Group not found"
  | Some group =>
      if negb (includes (g_memberIds group) currentUserId) then
        Fail 403 "You are not a member of this group"
      else
        match findMany_include st (getGroupMessages_where groupId now)
                getGroupMessages_include with
        | Throws => Fail 500 "Server error retrieving group messages"
        | Returns messages =>
            Json 200
              (map (with_nickname (group_memberNicknames st group) groupId) messages)
        end
  end.

(** The [include] arguments of the other queries of the handlers modelled
    here, each with the model it is asked of: [group.findUnique] in
    [sendMessage], [markMessageRead] and [addReaction]; [message.findMany]
    in [getMessagesByUser] and [message.findUnique] in [addReaction];
    [group.findUnique] in [getGroupMessages] and in [getGroupDetails];
    [groupInvite.findUnique] in [joinGroup]. *)
Definition other_includes : list (Model * Include) :=
  [ (MGroup, Inc [ ("members", Inc []) ]);
    (MMessage, Inc [ ("reactions", Inc []) ]);
    (MGroup, Inc [ ("members", Inc []); ("memberNicknames", Inc []) ]);
    (MGroup, Inc [ ("admin", Inc []); ("members", Inc []);
                   ("memberNicknames", Inc []); ("groupInvites", Inc []) ]);
    (MGroupInvite, Inc [ ("group", Inc []) ]) ].

(** *** markMessageRead *)

Definition canMarkAsRead (st : Store) (message : Message) (userId : string) : bool :=
  if eq_id (m_receiverId message) userId then true
  else if truthy (m_groupId message) then
    match m_groupId message with
    | Some gid =>
        match findUnique_group gid (groups st) with
        | Some group => includes (g_memberIds group) userId
        | None => false
        end
    | None => false
    end
  else false.

Definition markMessageRead (st : Store) (userId messageId : string)
  : Response unit * Store :=
  match findUnique_message messageId (messages st) with
  | None => (Fail 404 "Message not found", st)
  | Some message =>
      if negb (canMarkAsRead st message userId) then
        (Fail 403 "Not authorized to mark this message as read", st)
      else
        (Json 200 tt,
         set_messages st (update_by_id messageId set_isRead_isDelivered (messages st)))
  end.

(** ** group.controller.js: getGroupDetails *)







(** ** otp.util.js *)

Definition findUnique_otp (userId : string) (os : list OtpData) : option OtpData :=
  find (fun o => String.eqb (o_userId o) userId) os.

(** [OTP_EXPIRY] is the environment variable of that name, in seconds. *)
Definition saveOTP (OTP_EXPIRY : Z) (st : Store) (now : Date) (userId otp : string)
  : Store :=
  let expiresAt := (now + OTP_EXPIRY * 1000)%Z in
  match findUnique_otp userId (otps st) with
  | Some _ =>
      set_otps st
        (map (fun o => if String.eqb (o_userId o) userId
                       then mkOtpData (o_userId o) otp expiresAt else o) (otps st))
  | None => set_otps st (otps st ++ [mkOtpData userId otp expiresAt])
  end.

Definition verifyOTP (st : Store) (userId providedOtp : string) : bool * Store :=
  match findUnique_otp userId (otps st) with
  | None => (false, st)
  | Some otpData =>
      if negb (String.eqb (o_otp otpData) providedOtp) then (false, st)
      else
        (true,
         set_otps st
           (filter (fun o => negb (String.eqb (o_userId o) userId)) (otps st)))
  end.

(** ** media.controller.js *)

(** The names of the files present in [MEDIA_STORAGE_PATH]. The handlers
    reach the directory with [path.join(MEDIA_STORAGE_PATH, name)], where
    [name] is the last segment of a path; [existsSync] and [unlinkSync] are
    the calls of [fs] on the path of a file [name]. The segments [""],
    ["."] and [".."] lead to no file but to the directory or its parent. *)
Definition FileSystem := list string.

Definition existsSync (fs : FileSystem) (file : string) : bool :=
  includes fs file.

(** [fs.unlinkSync]: [None] when the call throws because the file is absent. *)
Definition unlinkSync (fs : FileSystem) (file : string) : option FileSystem :=
  if existsSync fs file then
    Some (filter (fun f => negb (String.eqb f file)) fs)
  else None.

Definition media_where (sanitizedFilename : string) : Where :=
  object_literal [("mediaUrl", Contains sanitizedFilename)].

(** The access check of [getMedia]; the group is read only when the user is
    neither sender nor receiver. *)
Definition hasAccess (st : Store) (message : Message) (userId : string) : bool :=
  if String.eqb (m_senderId message) userId || eq_id (m_receiverId message) userId
  then true
  else if truthy (m_groupId message) then
    match m_groupId message with
    | Some gid =>
        match findUnique_group gid (groups st) with
        | Some group => includes (g_memberIds group) userId
        | None => false
        end
    | None => false
    end
  else false.

(** [message.expiresAt && message.expiresAt < new Date()]. *)
Definition is_expired (now : Date) (message : Message) : bool :=
  match m_expiresAt message with
  | Some d => Z.ltb d now
  | None => false
  end.

(** [message.expiresAt && !message.isRead]. *)
Definition is_view_once (message : Message) : bool :=
  is_date (m_expiresAt message) && negb (m_isRead message).

(** One [getMedia] request running alone, up to and including the [finish]
    event of its response. [sanitizedFilename] is
    [path.basename(req.params.filename)], the name of a file. *)
Definition getMedia (st : Store) (fs : FileSystem) (now : Date)
    (userId sanitizedFilename : string) : Response unit * Store * FileSystem :=
  if negb (existsSync fs sanitizedFilename) then
    (Fail 404 "Media not found", st, fs)
  else
    match findFirst (media_where sanitizedFilename) (messages st) with
    | Some message =>
        if negb (hasAccess st message userId) then
          (Fail 403 "Not authorized to access this media", st, fs)
        else if is_expired now message then
          match unlinkSync fs sanitizedFilename with
          | Some fs' => (Fail 404 "Media has expired", st, fs')
          | None => (Fail 500 "Server error retrieving media", st, fs)
          end
        else if is_view_once message then
          let st' :=
            set_messages st
              (update_by_id (m_id message) set_isRead_isDelivered (messages st)) in
          let fs' :=
            match unlinkSync fs sanitizedFilename with
            | Some fs' => fs'
            | None => fs
            end in
          (SendFile sanitizedFilename, st', fs')
        else (SendFile sanitizedFilename, st, fs)
    | None => (SendFile sanitizedFilename, st, fs)
    end.

(** ** Concurrent requests to getMedia

    Node runs a handler without interruption up to its next [await]; the
    awaited database call is then executed, and the handler is resumed with
    its result at some later turn of the event loop. Other requests take
    their own turns in between. [step_getMedia] is one such turn of one
    request: the program counter [Pc] says where the handler is suspended,
    and every database call and every resumption is a turn of its own. *)

Inductive Event : Type :=
| EvSendFile (file : string)             (* res.sendFile(filePath) *)
| EvMarkRead (id : string)               (* update({ isRead: true, isDelivered: true }) *)
| EvUnlink (file : string) (ok : bool).  (* fs.unlinkSync; [false]: the call threw *)

Record World := mkWorld {
  w_store : Store;
  w_fs : FileSystem;
  w_log : list Event
}.

Inductive Pc : Type :=
| Start                                           (* the request has arrived *)
| AwaitFindFirst                                  (* message.findFirst is on its way *)
| GotMessage (found : option Message)             (* ... and has answered *)
| AwaitGroup (message : Message)                  (* group.findUnique is on its way *)
| GotGroup (message : Message) (group : option Group)
| AwaitUpdate (message : Message)                 (* message.update is on its way *)
| Updated                                         (* ... and has answered *)
| AwaitFinish                                     (* file sent, 'finish' listener set *)
| Done (r : Response unit).

Definition emit (e : Event) (w : World) : World :=
  {| w_store := w_store w; w_fs := w_fs w; w_log := w_log w ++ [e] |}.

(** A call of [fs.unlinkSync]; the boolean tells whether it returned. *)
Definition try_unlink (file : string) (w : World) : bool * World :=
  match unlinkSync (w_fs w) file with
  | Some fs' =>
      (true, {| w_store := w_store w; w_fs := fs';
                w_log := w_log w ++ [EvUnlink file true] |})
  | None => (false, emit (EvUnlink file false) w)
  end.

Definition forbidden : Response unit := Fail 403 "Not authorized to access this media".

(** The handler from the expiry check on, entered once [hasAccess] is true. *)
Definition after_access (now : Date) (file : string) (message : Message) (w : World)
  : Pc * World :=
  if is_expired now message then
    let (ok, w') := try_unlink file w in
    if ok then (Done (Fail 404 "Media has expired"), w')
    else (Done (Fail 500 "Server error retrieving media"), w')
  else if is_view_once message then (AwaitUpdate message, w)
  else (Done (SendFile file), emit (EvSendFile file) w).

Definition step_getMedia (now : Date) (userId file : string) (pc : Pc) (w : World)
  : Pc * World :=
  match pc with
  | Start =>
      if negb (existsSync (w_fs w) file) then (Done (Fail 404 "Media not found"), w)
      else (AwaitFindFirst, w)
  | AwaitFindFirst =>
      (GotMessage (findFirst (media_where file) (messages (w_store w))), w)
  | GotMessage None => (Done (SendFile file), emit (EvSendFile file) w)
  | GotMessage (Some message) =>
      if String.eqb (m_senderId message) userId || eq_id (m_receiverId message) userId
      then after_access now file message w
      else if truthy (m_groupId message) then (AwaitGroup message, w)
      else (Done forbidden, w)
  | AwaitGroup message =>
      (GotGroup message
         match m_groupId message with
         | Some gid => findUnique_group gid (groups (w_store w))
         | None => None
         end, w)
  | GotGroup message group =>
      match group with
      | Some g =>
          if includes (g_memberIds g) userId then after_access now file message w
          else (Done forbidden, w)
      | None => (Done forbidden, w)
      end
  | AwaitUpdate message =>
      match findUnique_message (m_id message) (messages (w_store w)) with
      | Some _ =>
          (Updated,
           {| w_store :=
                set_messages (w_store w)
                  (update_by_id (m_id message) set_isRead_isDelivered
                     (messages (w_store w)));
              w_fs := w_fs w;
              w_log := w_log w ++ [EvMarkRead (m_id message)] |})
      | None => (Done (Fail 500 "Server error retrieving media"), w)
      end
  | Updated => (AwaitFinish, emit (EvSendFile file) w)
  | AwaitFinish =>
      let (_, w') := try_unlink file w in (Done (SendFile file), w')
  | Done r => (Done r, w)
  end.

Record Request := mkRequest {
  rq_userId : string;
  rq_file : string;
  rq_pc : Pc
}.

Record System := mkSystem {
  sys_world : World;
  sys_requests : list Request
}.

(** The [i]-th request takes a turn. *)
Fixpoint step_nth (now : Date) (i : nat) (rs : list Request) (w : World)
  : list Request * World :=
  match rs, i with
  | [], _ => ([], w)
  | r :: rs', O =>
      let (pc', w') := step_getMedia now (rq_userId r) (rq_file r) (rq_pc r) w in
      (mkRequest (rq_userId r) (rq_file r) pc' :: rs', w')
  | r :: rs', S i' =>
      let (rs'', w') := step_nth now i' rs' w in (r :: rs'', w')
  end.

(** A schedule lists whose turn it is, and the clock at that turn. *)
Definition Schedule := list (nat * Date).

Definition sys_step (s : System) (turn : nat * Date) : System :=
  let (rs, w) := step_nth (snd turn) (fst turn) (sys_requests s) (sys_world s) in
  {| sys_world := w; sys_requests := rs |}.

Definition run (schedule : Schedule) (s : System) : System :=
  fold_left sys_step schedule s.

Definition is_done (r : Request) : bool :=
  match rq_pc r with
  | Done _ => true
  | _ => false
  end.

Definition all_done (s : System) : bool := forallb is_done (sys_requests s).

(** Counters over the log. *)
Definition is_deletion (file : string) (e : Event) : bool :=
  match e with
  | EvUnlink f true => String.eqb f file
  | _ => false
  end.

Definition is_unlink_call (file : string) (e : Event) : bool :=
  match e with
  | EvUnlink f _ => String.eqb f file
  | _ => false
  end.

Definition is_mark_read (e : Event) : bool :=
  match e with
  | EvMarkRead _ => true
  | _ => false
  end.

Definition is_send (file : string) (e : Event) : bool :=
  match e with
  | EvSendFile f => String.eqb f file
  | _ => false
  end.

Definition count (p : Event -> bool) (log : list Event) : nat :=
  length (filter p log).

(** [n] requests of the same user for the same file, all just arrived. *)
Definition readers (n : nat) (st : Store) (fs : FileSystem) (userId file : string)
  : System :=
  {| sys_world := {| w_store := st; w_fs := fs; w_log := [] |};
     sys_requests := repeat (mkRequest userId file Start) n |}.

(** Invariants of the requests for a file whose first referring message
    is [m]. A request in one of the states of [will_delete] is bound to
    delete the file, at its 'finish' event or earlier in the expiry branch. *)
Definition will_delete (m : Message) (pc : Pc) : Prop :=
  match pc with
  | GotMessage (Some m') => m' = m
  | AwaitUpdate m' => m_id m' = m_id m
  | Updated | AwaitFinish => True
  | _ => False
  end.

Definition early (pc : Pc) : Prop := pc = Start \/ pc = AwaitFindFirst.

(** The file is there and was never deleted, or is gone and was deleted
    once. *)
Definition deleted_once (file : string) (w : World) : Prop :=
  (existsSync (w_fs w) file = true /\ count (is_deletion file) (w_log w) = 0%nat) \/
  (existsSync (w_fs w) file = false /\ count (is_deletion file) (w_log w) = 1%nat).

Definition message_kept (m : Message) (w : World) : Prop :=
  findUnique_message (m_id m) (messages (w_store w)) <> None.

(** The number of turns a request can still take. *)
Definition rank (pc : Pc) : nat :=
  match pc with
  | Start => 8
  | AwaitFindFirst => 7
  | GotMessage _ => 6
  | AwaitGroup _ => 5
  | GotGroup _ _ => 4
  | AwaitUpdate _ => 3
  | Updated => 2
  | AwaitFinish => 1
  | Done _ => 0
  end.

(** The number of turns the schedule gives to request [i]. *)
Definition turns (i : nat) (schedule : Schedule) : nat :=
  length (filter (fun turn => Nat.eqb (fst turn) i) schedule).

(** The invariant of a system of requests of [userId] for [file]. *)
Definition view_once_invariant (st : Store) (userId file : string) (m : Message)
    (s : System) : Prop :=
  message_kept m (sys_world s)
  /\ deleted_once file (sys_world s)
  /\ Forall (fun r => rq_userId r = userId /\ rq_file r = file) (sys_requests s)
  /\ sys_requests s <> []
  /\ (existsSync (w_fs (sys_world s)) file = true ->
      Exists (fun r => will_delete m (rq_pc r)) (sys_requests s) \/
      (messages (w_store (sys_world s)) = messages st /\
       Forall (fun r => early (rq_pc r)) (sys_requests s))).

(** ** encryption.util.js

    A [Buffer] is a list of bytes, and a JavaScript string that holds ASCII
    text (base64 text, the JSON text of the envelope) is a [string].
    [Buffer.from(s)] and [buf.toString()] on such text are
    [list_ascii_of_string] and [string_of_list_ascii]. *)

Definition Buffer := list ascii.

(** *** Base64, the encoding of [buf.toString('base64')] and
    [Buffer.from(s, 'base64')] *)

(** Six bits, the most significant first. *)
Definition Sextet : Type := bool * bool * bool * bool * bool * bool.

Definition base64_alphabet : string :=
  "ABCDEFGHIJKLMNOPQRSTUVWXYZabcdefghijklmnopqrstuvwxyz0123456789+/".

Definition bit (b : bool) : nat := if b then 1 else 0.

Definition sextet_index (s : Sextet) : nat :=
  let '(b5, b4, b3, b2, b1, b0) := s in
  32 * bit b5 + 16 * bit b4 + 8 * bit b3 + 4 * bit b2 + 2 * bit b1 + bit b0.

Definition base64_char (s : Sextet) : ascii :=
  match String.get (sextet_index s) base64_alphabet with
  | Some c => c
  | None => "="%char
  end.

Definition all_sextets : list Sextet :=
  let bools := [false; true] in
  flat_map (fun b5 => flat_map (fun b4 => flat_map (fun b3 =>
  flat_map (fun b2 => flat_map (fun b1 => map (fun b0 => (b5, b4, b3, b2, b1, b0))
  bools) bools) bools) bools) bools) bools.

(** The value of a character of the alphabet; [None] for any other
    character, the padding sign included. *)
Definition base64_value (c : ascii) : option Sextet :=
  find (fun s => Ascii.eqb (base64_char s) c) all_sextets.

(** The four sextets of three bytes; in [Ascii b0 ... b7] the first bit is
    the least significant. *)
Definition sextet1 (a : ascii) : Sextet :=
  let 'Ascii _ _ a2 a3 a4 a5 a6 a7 := a in (a7, a6, a5, a4, a3, a2).

Definition sextet2 (a b : ascii) : Sextet :=
  let 'Ascii a0 a1 _ _ _ _ _ _ := a in
  let 'Ascii _ _ _ _ b4 b5 b6 b7 := b in (a1, a0, b7, b6, b5, b4).

Definition sextet3 (b c : ascii) : Sextet :=
  let 'Ascii b0 b1 b2 b3 _ _ _ _ := b in
  let 'Ascii _ _ _ _ _ _ c6 c7 := c in (b3, b2, b1, b0, c7, c6).

Definition sextet4 (c : ascii) : Sextet :=
  let 'Ascii c0 c1 c2 c3 c4 c5 _ _ := c in (c5, c4, c3, c2, c1, c0).

(** The three bytes of four sextets. *)
Definition byte1 (s1 s2 : Sextet) : ascii :=
  let '(a7, a6, a5, a4, a3, a2) := s1 in
  let '(a1, a0, _, _, _, _) := s2 in Ascii a0 a1 a2 a3 a4 a5 a6 a7.

Definition byte2 (s2 s3 : Sextet) : ascii :=
  let '(_, _, b7, b6, b5, b4) := s2 in
  let '(b3, b2, b1, b0, _, _) := s3 in Ascii b0 b1 b2 b3 b4 b5 b6 b7.

Definition byte3 (s3 s4 : Sextet) : ascii :=
  let '(_, _, _, _, c7, c6) := s3 in
  let '(c5, c4, c3, c2, c1, c0) := s4 in Ascii c0 c1 c2 c3 c4 c5 c6 c7.

Definition quad (a b c : ascii) (rest : string) : string :=
  String (base64_char (sextet1 a)) (String (base64_char (sextet2 a b))
    (String (base64_char (sextet3 b c)) (String (base64_char (sextet4 c)) rest))).

Fixpoint base64_encode (buf : Buffer) : string :=
  match buf with
  | [] => ""
  | [a] =>
      String (base64_char (sextet1 a)) (String (base64_char (sextet2 a zero)) "==")
  | [a; b] =>
      String (base64_char (sextet1 a)) (String (base64_char (sextet2 a b))
        (String (base64_char (sextet3 b zero)) "="))
  | a :: b :: c :: rest => quad a b c (base64_encode rest)
  end.

(** Decoding stops at the first character outside the alphabet, which for
    padded base64 text is the padding sign. *)
Fixpoint base64_decode (s : string) : Buffer :=
  match s with
  | String w (String x tail) =>
      match base64_value w, base64_value x with
      | Some s1, Some s2 =>
          match tail with
          | String y tail' =>
              match base64_value y with
              | Some s3 =>
                  match tail' with
                  | String z rest =>
                      match base64_value z with
                      | Some s4 =>
                          byte1 s1 s2 :: byte2 s2 s3 :: byte3 s3 s4
                            :: base64_decode rest
                      | None => [byte1 s1 s2; byte2 s2 s3]
                      end
                  | EmptyString => [byte1 s1 s2; byte2 s2 s3]
                  end
              | None => [byte1 s1 s2]
              end
          | EmptyString => [byte1 s1 s2]
          end
      | _, _ => []
      end
  | _ => []
  end.

(** The string decoder behind [cipher.update(data, 'utf8', 'base64')] and
    [cipher.final('base64')]: [write] returns the text of the complete
    triples of bytes and keeps the rest, [end] returns the text of what was
    kept. *)
Fixpoint decoder_write (buf : Buffer) : string * Buffer :=
  match buf with
  | a :: b :: c :: rest =>
      let (out, kept) := decoder_write rest in (quad a b c out, kept)
  | _ => ("", buf)
  end.

Definition decoder_end (kept : Buffer) : string := base64_encode kept.

(** *** JSON texts of objects whose members are plain strings

    [JSON.stringify] writes a string without quotation mark, backslash or
    control character, such as base64 text, verbatim between quotation
    marks, and writes no white space. [JSON_parse] reads such texts back. *)

Definition quotation_mark : ascii := ascii_of_nat 34.
Definition backslash : ascii := ascii_of_nat 92.

Definition JsObject := list (string * string).

Definition JSON_string (v : string) : string :=
  String quotation_mark (v ++ String quotation_mark "").

Fixpoint JSON_members (members : JsObject) : string :=
  match members with
  | [] => ""
  | [(k, v)] => JSON_string k ++ ":" ++ JSON_string v
  | (k, v) :: members' =>
      JSON_string k ++ ":" ++ JSON_string v ++ "," ++ JSON_members members'
  end.

Definition JSON_stringify (o : JsObject) : string :=
  "{" ++ JSON_members o ++ "}".

(** The characters of a string up to its closing quotation mark, and the
    text after it; escape sequences are not read. *)
Fixpoint read_string (s : string) : option (string * string) :=
  match s with
  | EmptyString => None
  | String c rest =>
      if Ascii.eqb c quotation_mark then Some ("", rest)
      else if Ascii.eqb c backslash then None
      else
        match read_string rest with
        | Some (v, rest') => Some (String c v, rest')
        | None => None
        end
  end.

Definition read_quoted (s : string) : option (string * string) :=
  match s with
  | String c rest => if Ascii.eqb c quotation_mark then read_string rest else None
  | EmptyString => None
  end.

Fixpoint parse_members (fuel : nat) (s : string) : option JsObject :=
  match fuel with
  | O => None
  | S fuel' =>
      match read_quoted s with
      | Some (k, String ":" s1) =>
          match read_quoted s1 with
          | Some (v, String "," s2) =>
              match parse_members fuel' s2 with
              | Some members => Some ((k, v) :: members)
              | None => None
              end
          | Some (v, String "}" EmptyString) => Some [(k, v)]
          | _ => None
          end
      | _ => None
      end
  end.

(** [None]: [JSON.parse] throws a [SyntaxError]. *)
Definition JSON_parse (s : string) : option JsObject :=
  match s with
  | String "{" (String "}" EmptyString) => Some []
  | String "{" s' => parse_members (String.length s') s'
  | _ => None
  end.

(** Property access on a parsed object; the last of equal keys wins. *)
Fixpoint get_property (o : JsObject) (k : string) : option string :=
  match o with
  | [] => None
  | (k', v) :: o' =>
      match get_property o' k with
      | Some v' => Some v'
      | None => if String.eqb k' k then Some v else None
      end
  end.

(** *** JavaScript strings and the ['utf8'] encoding

    A JavaScript string is a sequence of UTF-16 code units. Written as
    ['utf8'], a string becomes the bytes of its code points, one to four
    bytes each, where a surrogate that is not part of a pair is written as
    U+FFFD. Read as ['utf8'], bytes are decoded by the automaton of the
    Encoding standard: every maximal part of a byte sequence that does not
    encode a code point gives U+FFFD. *)

Definition Text := list Z.

Definition code_unit (u : Z) : Prop := (0 <= u < 65536)%Z.

Definition is_text (t : Text) : Prop := Forall code_unit t.

Definition high_surrogate (u : Z) : bool := (0xD800 <=? u)%Z && (u <=? 0xDBFF)%Z.
Definition low_surrogate (u : Z) : bool := (0xDC00 <=? u)%Z && (u <=? 0xDFFF)%Z.
Definition replacement_character : Z := 0xFFFD.

Definition byte (n : Z) : ascii := ascii_of_N (Z.to_N n).
Definition byte_value (c : ascii) : Z := Z.of_N (N_of_ascii c).

(** A string of ASCII characters as a JavaScript string. *)
Definition text_of_string (s : string) : Text :=
  map byte_value (list_ascii_of_string s).

Definition encode_point (cp : Z) : Buffer :=
  (if cp <? 0x80 then [byte cp]
   else if cp <? 0x800 then [byte (0xC0 + cp / 64); byte (0x80 + cp mod 64)]
   else if cp <? 0x10000 then
     [byte (0xE0 + cp / 4096); byte (0x80 + (cp / 64) mod 64); byte (0x80 + cp mod 64)]
   else
     [byte (0xF0 + cp / 262144); byte (0x80 + (cp / 4096) mod 64);
      byte (0x80 + (cp / 64) mod 64); byte (0x80 + cp mod 64)])%Z.

(** The code point of a surrogate pair. *)
Definition pair_point (hi lo : Z) : Z :=
  (0x10000 + (hi - 0xD800) * 1024 + (lo - 0xDC00))%Z.

Fixpoint utf8_encode (t : Text) : Buffer :=
  match t with
  | [] => []
  | u :: t' =>
      if high_surrogate u then
        match t' with
        | v :: t'' =>
            if low_surrogate v then encode_point (pair_point u v) ++ utf8_encode t''
            else encode_point replacement_character ++ utf8_encode t'
        | [] => encode_point replacement_character
        end
      else if low_surrogate u then encode_point replacement_character ++ utf8_encode t'
      else encode_point u ++ utf8_encode t'
  end.

(** The state of the decoder: the code point read so far, the number of
    continuation bytes still to come, and the range of the next byte. *)
Record Utf8Decoder := mkUtf8Decoder {
  u8_point : Z;
  u8_needed : nat;
  u8_lower : Z;
  u8_upper : Z
}.

Definition u8_start : Utf8Decoder := mkUtf8Decoder 0 0 0x80 0xBF.

(** The code units of a code point. *)
Definition units_of_point (cp : Z) : Text :=
  (if cp <? 0x10000 then [cp]
   else [0xD800 + (cp - 0x10000) / 1024; 0xDC00 + (cp - 0x10000) mod 1024])%Z.

(** A byte read when no sequence is open. *)
Definition lead_byte (b : Z) : Text * Utf8Decoder :=
  (if b <=? 0x7F then ([b], u8_start)
   else if (0xC2 <=? b) && (b <=? 0xDF) then ([], mkUtf8Decoder (b - 0xC0) 1 0x80 0xBF)
   else if (0xE0 <=? b) && (b <=? 0xEF) then
     ([], mkUtf8Decoder (b - 0xE0) 2 (if b =? 0xE0 then 0xA0 else 0x80)
            (if b =? 0xED then 0x9F else 0xBF))
   else if (0xF0 <=? b) && (b <=? 0xF4) then
     ([], mkUtf8Decoder (b - 0xF0) 3 (if b =? 0xF0 then 0x90 else 0x80)
            (if b =? 0xF4 then 0x8F else 0xBF))
   else ([replacement_character], u8_start))%Z.

(** A byte out of the range of an open sequence closes it with U+FFFD and
    is read again as a lead byte. *)
Definition decode_byte (d : Utf8Decoder) (b : Z) : Text * Utf8Decoder :=
  match u8_needed d with
  | O => lead_byte b
  | S n =>
      if ((u8_lower d <=? b) && (b <=? u8_upper d))%Z then
        let cp := (u8_point d * 64 + (b - 0x80))%Z in
        match n with
        | O => (units_of_point cp, u8_start)
        | S _ => ([], mkUtf8Decoder cp n 0x80 0xBF)
        end
      else let (out, d') := lead_byte b in (replacement_character :: out, d')
  end.

Fixpoint decode_bytes (d : Utf8Decoder) (bytes : list Z) : Text :=
  match bytes with
  | [] => match u8_needed d with O => [] | S _ => [replacement_character] end
  | b :: rest => let (out, d') := decode_byte d b in out ++ decode_bytes d' rest
  end.

Definition utf8_decode (buf : Buffer) : Text :=
  decode_bytes u8_start (map byte_value buf).

(** [String.prototype.toWellFormed] and [isWellFormed]: the string with
    U+FFFD in the place of every surrogate that is not part of a pair, and
    whether there is no such surrogate. *)
Fixpoint toWellFormed (t : Text) : Text :=
  match t with
  | [] => []
  | u :: t' =>
      if high_surrogate u then
        match t' with
        | v :: t'' =>
            if low_surrogate v then u :: v :: toWellFormed t''
            else replacement_character :: toWellFormed t'
        | [] => [replacement_character]
        end
      else if low_surrogate u then replacement_character :: toWellFormed t'
      else u :: toWellFormed t'
  end.

Fixpoint isWellFormed (t : Text) : bool :=
  match t with
  | [] => true
  | u :: t' =>
      if high_surrogate u then
        match t' with
        | v :: t'' => low_surrogate v && isWellFormed t''
        | [] => false
        end
      else negb (low_surrogate u) && isWellFormed t'
  end.

(** A Unicode scalar value: a code point that is no surrogate. *)
Definition scalar (cp : Z) : Prop :=
  (0 <= cp < 0x110000 /\ ~ (0xD800 <= cp <= 0xDFFF))%Z.

(** *** The cipher of Node's [crypto] module

    AES-256-GCM is not part of the repository; the handlers are stated over
    any implementation of it.
    - [gcm_encrypt key iv data]: [createCipheriv('aes-256-gcm', key, iv)],
      [update(data)], [final()] and [getAuthTag()]; the ciphertext and the
      tag, or [None] when [createCipheriv] throws.
    - [gcm_decrypt key iv tag data]: [createDecipheriv], [setAuthTag(tag)],
      [update(data)] and [final()]; [None] when one of them throws, as
      [final] does when the tag does not verify. *)
Class NodeCrypto := {
  gcm_encrypt : Buffer -> Buffer -> Buffer -> option (Buffer * Buffer);
  gcm_decrypt : Buffer -> Buffer -> Buffer -> Buffer -> option Buffer
}.

(** What the theorems assume of the cipher: AES-GCM accepts a 256-bit key
    with a 128-bit nonce and decrypts what it encrypted. *)
Class NodeCryptoLaws (N : NodeCrypto) : Prop := {
  gcm_correct : forall key iv data,
    length key = 32%nat -> length iv = 16%nat ->
    exists ciphertext tag,
      gcm_encrypt key iv data = Some (ciphertext, tag) /\
      gcm_decrypt key iv tag ciphertext = Some data
}.

(** [iv] is the value of [crypto.randomBytes(16)]. *)
Definition encryptMessage {N : NodeCrypto} (iv : Buffer) (message : Text)
    (aesKey : Buffer) : Outcome string :=
  match gcm_encrypt aesKey iv (utf8_encode message) with
  | None => Throws
  | Some (ciphertext, authTag) =>
      let (written, kept) := decoder_write ciphertext in
      let encrypted := (written ++ decoder_end kept)%string in
      let result :=
        JSON_stringify
          [ ("iv", base64_encode iv);
            ("authTag", base64_encode authTag);
            ("encryptedData", encrypted) ] in
      Returns (base64_encode (list_ascii_of_string result))
  end.

Definition decryptMessage {N : NodeCrypto} (encryptedMessage : string)
    (aesKey : Buffer) : Outcome Text :=
  match JSON_parse (string_of_list_ascii (base64_decode encryptedMessage)) with
  | None => Throws
  | Some encryptedObj =>
      match get_property encryptedObj "iv",
            get_property encryptedObj "authTag",
            get_property encryptedObj "encryptedData" with
      | Some iv64, Some authTag64, Some encryptedData =>
          let iv := base64_decode iv64 in
          let authTag := base64_decode authTag64 in
          match gcm_decrypt aesKey iv authTag (base64_decode encryptedData) with
          | Some decrypted => Returns (utf8_decode decrypted)
          | None => Throws
          end
      | _, _, _ => Throws
      end
  end.

(** [crypto.randomBytes(32)] returns 32 bytes. *)
Definition is_aes_key (key : Buffer) : Prop := length key = 32%nat.

(** A toy cipher, to run the codec: it reverses the bytes and uses the
    nonce as tag. *)
Definition toy_crypto : NodeCrypto :=
  {| gcm_encrypt := fun key iv data =>
       if Nat.eqb (length key) 32 then Some (rev data, iv) else None;
     gcm_decrypt := fun key iv tag data =>
       if Nat.eqb (length key) 32 && String.eqb (string_of_list_ascii iv)
                                        (string_of_list_ascii tag)
       then Some (rev data) else None |}.

(** Strings that [JSON.stringify] writes verbatim. *)
Definition plain_char (c : ascii) : bool :=
  negb (Ascii.eqb c quotation_mark) && negb (Ascii.eqb c backslash).

Fixpoint plain (s : string) : bool :=
  match s with
  | EmptyString => true
  | String c s' => plain_char c && plain s'
  end.

Definition plain_members (o : JsObject) : Prop :=
  Forall (fun kv => plain (fst kv) = true /\ plain (snd kv) = true) o.

(** ** Vocabulary of the statements *)

(** The messages in the body of a [getMessagesByUser] response. *)
Definition fetched (r : Response (list MessageWithReactions)) : list Message :=
  match r with
  | Json _ data => map mwr_message data
  | _ => []
  end.

(** The rows in the body of a [getGroupMessages] response. *)
Definition group_rows (r : Response (list GroupMessage)) : list GroupMessage :=
  match r with
  | Json _ data => data
  | _ => []
  end.

(** The expiry deadline of the message lies before [now]. *)
Definition deadline_passed (now : Date) (m : Message) : Prop :=
  exists d, m_expiresAt m = Some d /\ (d < now)%Z.

(** The participant rule: sender, direct receiver, or member of the group
    the message belongs to. *)
Definition participant (st : Store) (m : Message) (userId : string) : Prop :=
  m_senderId m = userId \/
  m_receiverId m = Some userId \/
  exists gid group,
    m_groupId m = Some gid /\ findUnique_group gid (groups st) = Some group /\
    In userId (g_memberIds group).

(** ** Sample states

    Concrete documents on which the handlers are evaluated below. *)

Module Sample.

Definition alice := "64f1a0000000000000000001".
Definition bob := "64f1a0000000000000000002".
Definition carol := "64f1a0000000000000000003".
Definition dave := "64f1a0000000000000000004".
Definition team := "64f1b0000000000000000001".

Definition user (id phone name : string) : User :=
  {| u_id := id; u_phoneNumber := phone; u_username := Some name;
     u_profilePic := None; u_isOnline := false; u_lastSeen := 0%Z |}.

Definition people : list User :=
  [ user alice "+250780000001" "alice"; user bob "+250780000002" "bob";
    user carol "+250780000003" "carol"; user dave "+250780000004" "dave" ].

(** A direct message from carol to dave. *)
Definition direct : Message :=
  {| m_id := "64f1c0000000000000000001"; m_senderId := carol;
     m_receiverId := Some dave; m_groupId := None;
     m_content := "Y2lwaGVydGV4dA=="; m_encryptedKey := "d3JhcHBlZA==";
     m_mediaUrl := None; m_mediaType := None;
     m_isRead := false; m_isDelivered := false; m_isAnonymous := false;
     m_expiresAt := None; m_deleted := false; m_createdAt := 1000%Z |}.

(** An anonymous and a signed message from bob into the group. *)
Definition group_message (id : string) (anonymous : bool) : Message :=
  {| m_id := id; m_senderId := bob;
     m_receiverId := None; m_groupId := Some team;
     m_content := "Y2lwaGVydGV4dA=="; m_encryptedKey := "d3JhcHBlZA==";
     m_mediaUrl := None; m_mediaType := None;
     m_isRead := false; m_isDelivered := false; m_isAnonymous := anonymous;
     m_expiresAt := None; m_deleted := false; m_createdAt := 2000%Z |}.

Definition whisper : Message := group_message "64f1c0000000000000000002" true.
Definition signed : Message := group_message "64f1c0000000000000000003" false.

(** The group: alice is the admin, bob and carol are members; anonymous
    messages are allowed and messages do not expire. *)
Definition the_team : Group :=
  {| g_id := team; g_name := "team"; g_isPrivate := true; g_adminId := alice;
     g_memberIds := [alice; bob; carol]; g_messageExpiry := None;
     g_allowAnonymous := true |}.

(** Hidden aliases for bob and for the admin. *)
Definition aliases : list MemberNickname :=
  [ {| n_userId := bob; n_groupId := team; n_nickname := "shadow";
       n_isVisible := false |};
    {| n_userId := alice; n_groupId := team; n_nickname := "boss";
       n_isVisible := false |} ].

Definition store : Store :=
  {| users := people; otps := []; messages := [direct; whisper; signed];
     reactions := []; groups := [the_team]; groupInvites := [];
     nicknames := aliases |}.


Definition photo := "0b5c2a52-7c1e-4a57-9f43-1d2e8f6a9c10.jpg".

(** A 256-bit key and a 128-bit nonce. *)
Definition key : Buffer := list_ascii_of_string "k9#fQ2mZ7!xP4vLs0bT8wYc3Re6Nu1Ha".
Definition nonce : Buffer := list_ascii_of_string "n5Gd8Kq2Xw7Jz1Vb".

(** Two plaintexts: a note with an accented letter and an emoji, which is
    a surrogate pair, and the same note cut in the middle of the pair. *)
Definition note : Text :=
  text_of_string "caf" ++ [0xE9; 0x20; 0xD83D; 0xDE00]%Z.

Definition cut_note : Text :=
  text_of_string "caf" ++ [0xE9; 0x20; 0xD83D]%Z.

(** A direct message from carol to dave with an attachment and an expiry
    deadline. *)
Definition attachment (deadline : Date) : Message :=
  {| m_id := "64f1c0000000000000000004"; m_senderId := carol;
     m_receiverId := Some dave; m_groupId := None;
     m_content := "Y2lwaGVydGV4dA=="; m_encryptedKey := "d3JhcHBlZA==";
     m_mediaUrl := Some "/api/media/0b5c2a52-7c1e-4a57-9f43-1d2e8f6a9c10.jpg";
     m_mediaType := Some "image";
     m_isRead := false; m_isDelivered := false; m_isAnonymous := false;
     m_expiresAt := Some deadline; m_deleted := false; m_createdAt := 1000%Z |}.

(** Two requests that advance in lockstep, at time 5000. *)
Definition lockstep : Schedule :=
  concat (repeat [(0%nat, 5000%Z); (1%nat, 5000%Z)] 8).

Definition media_store (deadline : Date) : Store :=
  {| users := people; otps := []; messages := [attachment deadline];
     reactions := []; groups := [the_team]; groupInvites := [];
     nicknames := [] |}.

(** An earlier message from carol to dave with the same attachment and no
    deadline, which carol has deleted. *)
Definition forwarded : Message :=
  {| m_id := "64f1c0000000000000000005"; m_senderId := carol;
     m_receiverId := Some dave; m_groupId := None;
     m_content := "Y2lwaGVydGV4dA=="; m_encryptedKey := "d3JhcHBlZA==";
     m_mediaUrl := Some "/api/media/0b5c2a52-7c1e-4a57-9f43-1d2e8f6a9c10.jpg";
     m_mediaType := Some "image";
     m_isRead := true; m_isDelivered := true; m_isAnonymous := false;
     m_expiresAt := None; m_deleted := true; m_createdAt := 500%Z |}.

Definition shared_media_store : Store :=
  {| users := people; otps := []; messages := [forwarded; attachment 3000];
     reactions := []; groups := [the_team]; groupInvites := [];
     nicknames := [] |}.

End Sample.

(** ** message.controller.js: deleteMessage, addReaction, removeReaction *)

Definition set_reactions (st : Store) (rs : list Reaction) : Store :=
  mkStore (users st) (otps st) (messages st) rs (groups st) (groupInvites st)
    (nicknames st).

Definition set_deleted (m : Message) : Message :=
  mkMessage (m_id m) (m_senderId m) (m_receiverId m) (m_groupId m) (m_content m)
    (m_encryptedKey m) (m_mediaUrl m) (m_mediaType m) (m_isRead m) (m_isDelivered m)
    (m_isAnonymous m) (m_expiresAt m) true (m_createdAt m).

Definition deleteMessage (st : Store) (userId messageId : string)
  : Response unit * Store :=
  match findUnique_message messageId (messages st) with
  | None => (Fail 404 "Message not found", st)
  | Some message =>
      if negb (String.eqb (m_senderId message) userId) then
        (Fail 403 "Not authorized to delete this message", st)
      else
        (Json 200 tt,
         set_messages st (update_by_id messageId set_deleted (messages st)))
  end.

Definition canReact (st : Store) (message : Message) (userId : string) : bool :=
  if eq_id (m_receiverId message) userId || String.eqb (m_senderId message) userId
  then true
  else if truthy (m_groupId message) then
    match m_groupId message with
    | Some gid =>
        match findUnique_group gid (groups st) with
        | Some group => includes (g_memberIds group) userId
        | None => false
        end
    | None => false
    end
  else false.

(** [include: { reactions: true }] on a message. *)
Definition message_reactions (st : Store) (message : Message) : list Reaction :=
  filter (fun r => String.eqb (r_messageId r) (m_id message)) (reactions st).

Definition set_emoji (emoji : string) (r : Reaction) : Reaction :=
  mkReaction (r_id r) (r_messageId r) (r_userId r) emoji.

(** [newId] is the object id the database generates for a new reaction; the
    insertion throws when that id is taken. *)
Definition addReaction (st : Store) (newId userId messageId : string)
    (emoji : option string) : Response unit * Store :=
  match (if truthy emoji then emoji else None) with
  | None => (Fail 400 "Please provide an emoji", st)
  | Some emoji =>
      match findUnique_message messageId (messages st) with
      | None => (Fail 404 "Message not found", st)
      | Some message =>
          if negb (canReact st message userId) then
            (Fail 403 "Not authorized to react to this message", st)
          else
            match find (fun r => String.eqb (r_userId r) userId)
                    (message_reactions st message) with
            | Some existingReaction =>
                (Json 200 tt,
                 set_reactions st
                   (map (fun r => if String.eqb (r_id r) (r_id existingReaction)
                                  then set_emoji emoji r else r) (reactions st)))
            | None =>
                if existsb (fun r => String.eqb (r_id r) newId) (reactions st) then
                  (Fail 500 "Server error while adding reaction", st)
                else
                  (Json 200 tt,
                   set_reactions st
                     (reactions st ++ [mkReaction newId messageId userId emoji]))
            end
      end
  end.

Definition removeReaction (st : Store) (userId messageId : string)
  : Response unit * Store :=
  match find (fun r => String.eqb (r_messageId r) messageId
                       && String.eqb (r_userId r) userId) (reactions st) with
  | None => (Fail 404 "Reaction not found", st)
  | Some reaction =>
      (Json 200 tt,
       set_reactions st
         (filter (fun r => negb (String.eqb (r_id r) (r_id reaction))) (reactions st)))
  end.

(** ** media.controller.js: deleteMedia, cleanupExpiredMedia *)

Definition clear_media (m : Message) : Message :=
  mkMessage (m_id m) (m_senderId m) (m_receiverId m) (m_groupId m) (m_content m)
    (m_encryptedKey m) None None (m_isRead m) (m_isDelivered m)
    (m_isAnonymous m) (m_expiresAt m) (m_deleted m) (m_createdAt m).

(** The names that [path.join(MEDIA_STORAGE_PATH, name)] resolves to a
    directory, the storage directory or its parent: [fs.existsSync] is true
    of them and [fs.unlinkSync] throws. *)
Definition is_directory_name (name : string) : bool :=
  String.eqb name "" || String.eqb name "." || String.eqb name "..".

(** [fs.existsSync] and [fs.unlinkSync] on [path.join(MEDIA_STORAGE_PATH,
    name)] for any [name], a directory name included. *)
Definition existsSync_path (fs : FileSystem) (name : string) : bool :=
  is_directory_name name || existsSync fs name.

Definition unlinkSync_path (fs : FileSystem) (name : string) : option FileSystem :=
  if is_directory_name name then None else unlinkSync fs name.

(** [sanitizedFilename] is [path.basename(req.params.filename)]. *)
Definition deleteMedia (st : Store) (fs : FileSystem) (userId sanitizedFilename : string)
  : Response unit * Store * FileSystem :=
  if negb (existsSync_path fs sanitizedFilename) then
    (Fail 404 "Media not found", st, fs)
  else
    match findFirst (media_where sanitizedFilename) (messages st) with
    | Some message =>
        if negb (String.eqb (m_senderId message) userId) then
          (Fail 403 "Not authorized to delete this media", st, fs)
        else
          match unlinkSync_path fs sanitizedFilename with
          | Some fs' =>
              (Json 200 tt,
               set_messages st (update_by_id (m_id message) clear_media (messages st)),
               fs')
          | None => (Fail 500 "Server error deleting media", st, fs)
          end
    | None =>
        match unlinkSync_path fs sanitizedFilename with
        | Some fs' => (Json 200 tt, st, fs')
        | None => (Fail 500 "Server error deleting media", st, fs)
        end
    end.

(** POSIX [path.basename]: trailing slashes are dropped, and what follows
    the last remaining slash is returned; both helpers work on the
    reversed path. *)
Fixpoint drop_slashes (s : list ascii) : list ascii :=
  match s with
  | c :: s' => if Ascii.eqb c "/" then drop_slashes s' else s
  | [] => []
  end.

Fixpoint take_segment (s : list ascii) : list ascii :=
  match s with
  | c :: s' => if Ascii.eqb c "/" then [] else c :: take_segment s'
  | [] => []
  end.

Definition basename (path : string) : string :=
  string_of_list_ascii
    (rev (take_segment (drop_slashes (rev (list_ascii_of_string path))))).

Definition expired_media_where (now : Date) : Where :=
  object_literal [ ("mediaUrl", NotNull); ("expiresAt", Lt now) ].

(** The [for] loop of [cleanupExpiredMedia] over the messages found. The
    outcome is the count returned, or [Throws] when [unlinkSync] threw; the
    store and the directory are as the loop left them. *)
Fixpoint cleanup_loop (expiredMessages : list Message) (deletedCount : nat)
    (st : Store) (fs : FileSystem) : Outcome nat * Store * FileSystem :=
  match expiredMessages with
  | [] => (Returns deletedCount, st, fs)
  | message :: rest =>
      if truthy (m_mediaUrl message) then
        let filename :=
          match m_mediaUrl message with
          | Some url => basename url
          | None => ""
          end in
        if is_directory_name filename then (Throws, st, fs)
        else
          let fs_count :=
            if existsSync fs filename then
              (match unlinkSync fs filename with
               | Some fs' => fs'
               | None => fs
               end, S deletedCount)
            else (fs, deletedCount) in
          match findUnique_message (m_id message) (messages st) with
          | Some _ =>
              cleanup_loop rest (snd fs_count)
                (set_messages st (update_by_id (m_id message) clear_media (messages st)))
                (fst fs_count)
          | None => (Throws, st, fst fs_count)
          end
      else cleanup_loop rest deletedCount st fs
  end.

Definition cleanupExpiredMedia (st : Store) (fs : FileSystem) (now : Date)
  : Outcome nat * Store * FileSystem :=
  cleanup_loop (findMany (expired_media_where now) (messages st)) 0 st fs.

(** ** group.controller.js *)

Definition set_groups (st : Store) (gs : list Group) : Store :=
  mkStore (users st) (otps st) (messages st) (reactions st) gs (groupInvites st)
    (nicknames st).

Definition set_groupInvites (st : Store) (invites : list GroupInvite) : Store :=
  mkStore (users st) (otps st) (messages st) (reactions st) (groups st) invites
    (nicknames st).

Definition set_nicknames (st : Store) (ns : list MemberNickname) : Store :=
  mkStore (users st) (otps st) (messages st) (reactions st) (groups st)
    (groupInvites st) ns.

(** [prisma.group.update({ where: { id }, data })]. *)
Definition update_group (id : string) (upd : Group -> Group) (gs : list Group)
  : list Group :=
  map (fun g => if String.eqb (g_id g) id then upd g else g) gs.

Definition set_memberIds (ids : list string) (g : Group) : Group :=
  mkGroup (g_id g) (g_name g) (g_isPrivate g) (g_adminId g) ids
    (g_messageExpiry g) (g_allowAnonymous g).

Definition set_adminId (adminId : string) (g : Group) : Group :=
  mkGroup (g_id g) (g_name g) (g_isPrivate g) adminId (g_memberIds g)
    (g_messageExpiry g) (g_allowAnonymous g).

Definition findUnique_invite (inviteCode : string) (invites : list GroupInvite)
  : option GroupInvite :=
  find (fun i => String.eqb (i_inviteCode i) inviteCode) invites.

(** [prisma.groupInvite.create]: [inviteCode] is a unique column, and the
    insertion throws when the code is taken. *)
Definition create_invite (invite : GroupInvite) (invites : list GroupInvite)
  : option (list GroupInvite) :=
  match findUnique_invite (i_inviteCode invite) invites with
  | Some _ => None
  | None => Some (invites ++ [invite])
  end.

(** *** createGroup

    Of the columns of a group, [Group] holds those that a handler reads;
    [description] and [profilePic] are stored and returned unread.
    [newId] is the object id generated for the group (the insertion throws
    when it is taken), [inviteCode] the value of
    [crypto.randomBytes(6).toString('hex')], and [expiryDate] the value of
    [new Date()] after [setDate(getDate() + 7)]. *)
Record CreateGroupBody := mkCreateGroupBody {
  cg_name : option string;
  cg_isPrivate : option bool;
  cg_allowAnonymous : option bool;
  cg_messageExpiry : option Z
}.

Definition createGroup (st : Store) (newId inviteCode : string) (expiryDate : Date)
    (adminId : string) (body : CreateGroupBody)
  : Response (Group * string) * Store :=
  match (if truthy (cg_name body) then cg_name body else None) with
  | None => (Fail 400 "Please provide a group name", st)
  | Some name =>
      match findUnique_group newId (groups st) with
      | Some _ => (Fail 500 "Server error creating group", st)
      | None =>
          let group :=
            {| g_id := newId;
               g_name := name;
               g_isPrivate := match cg_isPrivate body with Some b => b | None => true end;
               g_adminId := adminId;
               g_memberIds := [adminId];
               g_messageExpiry :=
                 if truthy_num (cg_messageExpiry body) then cg_messageExpiry body
                 else None;
               g_allowAnonymous :=
                 match cg_allowAnonymous body with Some b => b | None => false end |} in
          let st1 := set_groups st (groups st ++ [group]) in
          match create_invite (mkInvite newId inviteCode expiryDate) (groupInvites st1) with
          | None => (Fail 500 "Server error creating group", st1)
          | Some created => (Json 201 (group, inviteCode), set_groupInvites st1 created)
          end
      end
  end.

(** *** joinGroup *)

Definition joinGroup (st : Store) (now : Date) (userId : string)
    (inviteCode : option string) : Response (string * string) * Store :=
  match (if truthy inviteCode then inviteCode else None) with
  | None => (Fail 400 "Please provide an invite code", st)
  | Some inviteCode =>
      match findUnique_invite inviteCode (groupInvites st) with
      | None => (Fail 400 "Invalid or expired invite code", st)
      | Some groupInvite =>
          match findUnique_group (i_groupId groupInvite) (groups st) with
          | None => (Fail 500 "Server error joining group", st)
          | Some group =>
              if Z.ltb (i_expiresAt groupInvite) now then
                (Fail 400 "Invalid or expired invite code", st)
              else if includes (g_memberIds group) userId then
                (Fail 400 "You are already a member of this group", st)
              else
                (Json 200 (g_id group, g_name group),
                 set_groups st
                   (update_group (g_id group)
                      (fun g => set_memberIds (g_memberIds g ++ [userId]) g)
                      (groups st)))
          end
      end
  end.

(** *** leaveGroup and removeMember *)

Definition without (userId : string) (ids : list string) : list string :=
  filter (fun id => negb (String.eqb id userId)) ids.

(** [prisma.memberNickname.deleteMany({ where: { userId, groupId } })]. *)
Definition delete_nicknames (userId groupId : string) (ns : list MemberNickname)
  : list MemberNickname :=
  filter (fun n => negb (String.eqb (n_userId n) userId
                         && String.eqb (n_groupId n) groupId)) ns.

Definition leaveGroup (st : Store) (userId groupId : string) : Response unit * Store :=
  match findUnique_group groupId (groups st) with
  | None => (Fail 404 "Group not found", st)
  | Some group =>
      if negb (includes (g_memberIds group) userId) then
        (Fail 400 "You are not a member of this group", st)
      else if String.eqb (g_adminId group) userId then
        (Fail 400 "Group admin cannot leave. Transfer ownership or delete the group", st)
      else
        let st1 :=
          set_groups st
            (update_group groupId (set_memberIds (without userId (g_memberIds group)))
               (groups st)) in
        (Json 200 tt,
         set_nicknames st1 (delete_nicknames userId groupId (nicknames st1)))
  end.

Definition removeMember (st : Store) (userId groupId memberId : string)
  : Response unit * Store :=
  match findUnique_group groupId (groups st) with
  | None => (Fail 404 "Group not found", st)
  | Some group =>
      if negb (String.eqb (g_adminId group) userId) then
        (Fail 403 "Only the group admin can remove members", st)
      else if String.eqb memberId (g_adminId group) then
        (Fail 400 "Admin cannot be removed from the group", st)
      else if negb (includes (g_memberIds group) memberId) then
        (Fail 400 "User is not a member of this group", st)
      else
        let st1 :=
          set_groups st
            (update_group groupId (set_memberIds (without memberId (g_memberIds group)))
               (groups st)) in
        (Json 200 tt,
         set_nicknames st1 (delete_nicknames memberId groupId (nicknames st1)))
  end.

(** *** transferOwnership *)

Definition transferOwnership (st : Store) (userId groupId : string)
    (newAdminId : option string) : Response unit * Store :=
  match (if truthy newAdminId then newAdminId else None) with
  | None => (Fail 400 "Please provide a new admin ID", st)
  | Some newAdminId =>
      match findUnique_group groupId (groups st) with
      | None => (Fail 404 "Group not found", st)
      | Some group =>
          if negb (String.eqb (g_adminId group) userId) then
            (Fail 403 "Only the group admin can transfer ownership", st)
          else if negb (includes (g_memberIds group) newAdminId) then
            (Fail 400 "New admin must be a member of the group", st)
          else
            (Json 200 tt,
             set_groups st (update_group groupId (set_adminId newAdminId) (groups st)))
      end
  end.

(** *** generateGroupInvite

    [inviteCode] and [expiryDate] are as in [createGroup]. The earlier
    invites are expired before the new one is inserted, and stay expired
    when the insertion throws. *)
Definition expire_invites (groupId : string) (now : Date) (invites : list GroupInvite)
  : list GroupInvite :=
  map (fun i => if String.eqb (i_groupId i) groupId
                then mkInvite (i_groupId i) (i_inviteCode i) now else i) invites.

Definition generateGroupInvite (st : Store) (now : Date) (inviteCode : string)
    (expiryDate : Date) (userId groupId : string)
  : Response (string * Date) * Store :=
  match findUnique_group groupId (groups st) with
  | None => (Fail 404 "Group not found", st)
  | Some group =>
      if negb (String.eqb (g_adminId group) userId) then
        (Fail 403 "Only the group admin can generate invites", st)
      else
        let st1 := set_groupInvites st (expire_invites groupId now (groupInvites st)) in
        match create_invite (mkInvite groupId inviteCode expiryDate) (groupInvites st1) with
        | None => (Fail 500 "Server error generating invite", st1)
        | Some created => (Json 200 (inviteCode, expiryDate), set_groupInvites st1 created)
        end
  end.

(** *** deleteGroup

    [prisma.group.delete] with the referential actions of the schema: the
    messages, invites and nicknames of the group are declared
    [onDelete: Cascade], and so are the reactions of a message. *)
Definition in_group (groupId : string) (m : Message) : bool :=
  eq_id (m_groupId m) groupId.

Definition delete_group_cascade (st : Store) (groupId : string) : Store :=
  let gone := filter (in_group groupId) (messages st) in
  {| users := users st;
     otps := otps st;
     messages := filter (fun m => negb (in_group groupId m)) (messages st);
     reactions :=
       filter (fun r => negb (existsb (fun m => String.eqb (m_id m) (r_messageId r)) gone))
         (reactions st);
     groups := filter (fun g => negb (String.eqb (g_id g) groupId)) (groups st);
     groupInvites :=
       filter (fun i => negb (String.eqb (i_groupId i) groupId)) (groupInvites st);
     nicknames :=
       filter (fun n => negb (String.eqb (n_groupId n) groupId)) (nicknames st) |}.

Definition deleteGroup (st : Store) (userId groupId : string) : Response unit * Store :=
  match findUnique_group groupId (groups st) with
  | None => (Fail 404 "Group not found", st)
  | Some group =>
      if negb (String.eqb (g_adminId group) userId) then
        (Fail 403 "Only the group admin can delete the group", st)
      else (Json 200 tt, delete_group_cascade st groupId)
  end.

(** *** setMemberNickname *)

Record NicknameBody := mkNicknameBody {
  nb_userId : option string;
  nb_nickname : option string;
  nb_isVisible : option bool         (* [None]: [undefined] *)
}.

(** [prisma.memberNickname.update({ where: { id: existingNickname.id } })]:
    the record found, the first of its user and group, is the one updated;
    a property that is [undefined] is left as it is. *)
Fixpoint update_nickname (userId groupId : string)
    (upd : MemberNickname -> MemberNickname) (ns : list MemberNickname)
  : list MemberNickname :=
  match ns with
  | [] => []
  | n :: ns' =>
      if String.eqb (n_userId n) userId && String.eqb (n_groupId n) groupId
      then upd n :: ns'
      else n :: update_nickname userId groupId upd ns'
  end.

Definition setMemberNickname (st : Store) (currentUserId groupId : string)
    (body : NicknameBody) : Response MemberNickname * Store :=
  let targetUserId :=
    match (if truthy (nb_userId body) then nb_userId body else None) with
    | Some userId => userId
    | None => currentUserId
    end in
  match findUnique_group groupId (groups st) with
  | None => (Fail 404 "Group not found", st)
  | Some group =>
      if negb (includes (g_memberIds group) currentUserId)
         || negb (includes (g_memberIds group) targetUserId) then
        (Fail 403 "You or the target user are not members of this group", st)
      else if negb (String.eqb targetUserId currentUserId)
              && negb (String.eqb (g_adminId group) currentUserId) then
        (Fail 403 "Only the group admin can set nicknames for other users", st)
      else if (match nb_isVisible body with Some _ => true | None => false end)
              && negb (String.eqb (g_adminId group) currentUserId) then
        (Fail 403 "Only the group admin can toggle member visibility", st)
      else
        match find_nickname (nicknames st) targetUserId groupId with
        | Some existingNickname =>
            let result :=
              {| n_userId := n_userId existingNickname;
                 n_groupId := n_groupId existingNickname;
                 n_nickname :=
                   match (if truthy (nb_nickname body) then nb_nickname body else None) with
                   | Some nickname => nickname
                   | None => n_nickname existingNickname
                   end;
                 n_isVisible :=
                   match nb_isVisible body with
                   | Some isVisible => isVisible
                   | None => n_isVisible existingNickname
                   end |} in
            (Json 200 result,
             set_nicknames st
               (update_nickname targetUserId groupId (fun _ => result) (nicknames st)))
        | None =>
            match nb_nickname body with
            | Some nickname =>
                let result :=
                  {| n_userId := targetUserId;
                     n_groupId := groupId;
                     n_nickname := nickname;
                     n_isVisible :=
                       match nb_isVisible body with
                       | Some isVisible => isVisible
                       | None => true
                       end |} in
                (Json 200 result, set_nicknames st (nicknames st ++ [result]))
            | None => (Fail 500 "Server error setting nickname", st)
            end
        end
  end.

(** ** encryption.util.js: encryptKey, decryptKey

    RSA with OAEP padding is a primitive of Node's [crypto] module, as
    AES-GCM is: [rsa_oaep_encrypt key data] is
    [publicEncrypt({ key, padding: RSA_PKCS1_OAEP_PADDING, oaepHash: 'sha256' }, data)]
    and [rsa_oaep_decrypt] is [privateDecrypt] with the same options; [None]
    when the call throws. Keys are PEM texts. *)
Class NodeRsa := {
  rsa_oaep_encrypt : string -> Buffer -> option Buffer;
  rsa_oaep_decrypt : string -> Buffer -> option Buffer
}.

(** What is assumed of a key pair: [publicEncrypt] accepts the 32 bytes of
    an AES key, and [privateDecrypt] inverts it. *)
Class NodeRsaLaws (R : NodeRsa) (publicKey privateKey : string) : Prop := {
  rsa_correct : forall data,
    length data = 32%nat ->
    exists encrypted,
      rsa_oaep_encrypt publicKey data = Some encrypted /\
      rsa_oaep_decrypt privateKey encrypted = Some data
}.

Definition encryptKey {R : NodeRsa} (aesKey : Buffer) (recipientPublicKey : string)
  : Outcome string :=
  match rsa_oaep_encrypt recipientPublicKey aesKey with
  | Some encryptedKey => Returns (base64_encode encryptedKey)
  | None => Throws
  end.

Definition decryptKey {R : NodeRsa} (encryptedKey : string) (privateKey : string)
  : Outcome Buffer :=
  let buffer := base64_decode encryptedKey in
  match rsa_oaep_decrypt privateKey buffer with
  | Some decryptedKey => Returns decryptedKey
  | None => Throws
  end.

(** Toy primitives, to run the key wrapping: the "public key" is prepended,
    and the "private key" must equal what was prepended. *)
Definition toy_rsa : NodeRsa :=
  {| rsa_oaep_encrypt := fun key data => Some (list_ascii_of_string key ++ data);
     rsa_oaep_decrypt := fun key data =>
       if String.eqb (string_of_list_ascii (firstn (String.length key) data)) key
       then Some (skipn (String.length key) data) else None |}.

(** ** auth.controller.js: register, verifyPhone, login

    [otp] is the value of [generateOTP()], [smsSent] the answer of
    [sendOTPViaSMS] (whether the message was accepted for delivery), and
    [generateToken] is [jwt.sign] on the user, which throws when it has no
    secret. Of the columns of a user, [User] holds those that a handler of
    the conversations reads; [publicKey], [status] and [twoFactorAuth] are
    stored and returned unread. In [register], [newId] is the object id
    generated for the user (the insertion throws when it is taken) and
    [created] the value of [now()] at the insertion. *)




Definition verifyPhone (generateToken : User -> Outcome string) (st : Store)
    (userId otp : option string) : Response (string * User) * Store :=
  if negb (truthy userId) || negb (truthy otp) then
    (Fail 400 "Please provide user ID and OTP", st)
  else
    match userId, otp with
    | Some userId, Some otp =>
        let (isValid, st1) := verifyOTP st userId otp in
        if negb isValid then (Fail 400 "Invalid or expired OTP", st1)
        else
          match findUnique_user userId (users st1) with
          | None => (Fail 404 "User not found", st1)
          | Some user =>
              match generateToken user with
              | Throws => (Fail 500 "Server error during verification", st1)
              | Returns token => (Json 200 (token, user), st1)
              end
          end
    | _, _ => (Fail 400 "Please provide user ID and OTP", st)
    end.


(** A token service with a secret: the token names the user. *)
Definition sample_token (u : User) : Outcome string :=
  Returns ("token:" ++ u_id u)%string.

(** ** Vocabulary of the further statements *)

(** At most one reaction for each message and user. *)
Definition reaction_key (r : Reaction) : string * string :=
  (r_messageId r, r_userId r).

Definition reaction_unique (rs : list Reaction) : Prop :=
  NoDup (map reaction_key rs).

Definition reaction_of (messageId userId : string) (r : Reaction) : bool :=
  String.eqb (r_messageId r) messageId && String.eqb (r_userId r) userId.

(** The messages that still hold a media reference after their deadline. *)
Definition stale_media (now : Date) (m : Message) : Prop :=
  deadline_passed now m /\ truthy (m_mediaUrl m) = true.

(** A group is well formed when its admin is a member and no member is
    listed twice; the groups of a store are well formed when, moreover, their
    ids are distinct. *)
Definition group_ok (g : Group) : Prop :=
  In (g_adminId g) (g_memberIds g) /\ NoDup (g_memberIds g).

Definition groups_ok (st : Store) : Prop :=
  NoDup (map g_id (groups st)) /\ Forall group_ok (groups st).

Definition member_of (st : Store) (groupId userId : string) : Prop :=
  exists g, findUnique_group groupId (groups st) = Some g /\ In userId (g_memberIds g).

Definition nickname_key (n : MemberNickname) : string * string :=
  (n_userId n, n_groupId n).

(** At most one nickname for each user and group, and only for members. *)
Definition nicknames_ok (st : Store) : Prop :=
  NoDup (map nickname_key (nicknames st))
  /\ Forall (fun n => member_of st (n_groupId n) (n_userId n)) (nicknames st).

Definition store_ok (st : Store) : Prop := groups_ok st /\ nicknames_ok st.

(** The requests of the group controller that write, each with the
    arguments of its handler other than the store and the caller. *)
Inductive GroupRequest : Type :=
| CreateGroup (newId inviteCode : string) (expiryDate : Date) (body : CreateGroupBody)
| JoinGroup (now : Date) (inviteCode : option string)
| LeaveGroup (groupId : string)
| RemoveMember (groupId memberId : string)
| TransferOwnership (groupId : string) (newAdminId : option string)
| GenerateGroupInvite (now : Date) (inviteCode : string) (expiryDate : Date)
    (groupId : string)
| DeleteGroup (groupId : string)
| SetMemberNickname (groupId : string) (body : NicknameBody).

(** The store after the request of user [userId]. *)
Definition handle (st : Store) (call : string * GroupRequest) : Store :=
  let userId := fst call in
  match snd call with
  | CreateGroup newId inviteCode expiryDate body =>
      snd (createGroup st newId inviteCode expiryDate userId body)
  | JoinGroup now inviteCode => snd (joinGroup st now userId inviteCode)
  | LeaveGroup groupId => snd (leaveGroup st userId groupId)
  | RemoveMember groupId memberId => snd (removeMember st userId groupId memberId)
  | TransferOwnership groupId newAdminId =>
      snd (transferOwnership st userId groupId newAdminId)
  | GenerateGroupInvite now inviteCode expiryDate groupId =>
      snd (generateGroupInvite st now inviteCode expiryDate userId groupId)
  | DeleteGroup groupId => snd (deleteGroup st userId groupId)
  | SetMemberNickname groupId body => snd (setMemberNickname st userId groupId body)
  end.

Definition handle_all (calls : list (string * GroupRequest)) (st : Store) : Store :=
  fold_left handle calls st.

(** Ascending creation time. *)
Definition created_before (m m' : Message) : Prop :=
  (m_createdAt m <= m_createdAt m')%Z.

(** ** Further sample states *)

Module Sample2.

(** [dave] has reacted to the message [carol] sent to [dave]. *)
Definition thumbs : Reaction :=
  {| r_id := "64f1d0000000000000000001"; r_messageId := m_id Sample.direct;
     r_userId := Sample.dave; r_emoji := ":+1:" |}.

Definition reacted : Store := set_reactions Sample.store [thumbs].

(** A second attachment of [carol] to [dave], without deadline. *)
Definition keepsake : Message :=
  {| m_id := "64f1c0000000000000000005"; m_senderId := Sample.carol;
     m_receiverId := Some Sample.dave; m_groupId := None;
     m_content := "Y2lwaGVydGV4dA=="; m_encryptedKey := "d3JhcHBlZA==";
     m_mediaUrl := Some "/api/media/7d1f0c1e-52aa-4b0e-8a57-3c9e5d2b6f44.png";
     m_mediaType := Some "image";
     m_isRead := true; m_isDelivered := true; m_isAnonymous := false;
     m_expiresAt := None; m_deleted := false; m_createdAt := 1500%Z |}.

Definition drawing := "7d1f0c1e-52aa-4b0e-8a57-3c9e5d2b6f44.png".

(** The expired attachment and the keepsake, with their files. *)
Definition attic : Store :=
  set_messages (Sample.media_store 3000) [Sample.attachment 3000; keepsake].

Definition attic_files : FileSystem := [Sample.photo; drawing].

(** The sample group with a default message expiry of a minute, and a
    request of a member that relies on it. *)
Definition timed : Store :=
  set_groups Sample.store
    [ mkGroup Sample.team "team" true Sample.alice
        [Sample.alice; Sample.bob; Sample.carol] (Some 60%Z) true ].

Definition to_group : SendMessageBody :=
  {| b_receiverId := None; b_groupId := Some Sample.team;
     b_content := Some "Y2lwaGVydGV4dA=="; b_encryptedKey := Some "d3JhcHBlZA==";
     b_mediaUrl := None; b_mediaType := None; b_isAnonymous := true;
     b_expiresAt := Some 0%Z |}.

(** The sample group with an invite that is good until time 700000. *)
Definition invited : Store :=
  set_groupInvites Sample.store [mkInvite Sample.team "a1b2c3d4e5f6" 700000].

(** [dave] presents an invite code, [carol] leaves the group, the admin
    [alice] hands the group over to [bob], who removes [alice] and takes a
    nickname. *)
Definition calls : list (string * GroupRequest) :=
  [ (Sample.dave, JoinGroup 5000 (Some "a1b2c3d4e5f6"));
    (Sample.carol, LeaveGroup Sample.team);
    (Sample.alice, TransferOwnership Sample.team (Some Sample.bob));
    (Sample.bob, RemoveMember Sample.team Sample.alice);
    (Sample.bob, SetMemberNickname Sample.team
                   (mkNicknameBody None (Some "captain") (Some true))) ].

End Sample2.

(** * Properties *)

(** ** Lists, filters and object literals *)

Lemma in_insert_by_createdAt (x m : Message) (ms : list Message) :
  In x (insert_by_createdAt m ms) <-> x = m \/ In x ms.
Proof.
  induction ms as [|y ms IH]; simpl.
  - intuition.
  - destruct (Z.ltb (m_createdAt m) (m_createdAt y)); simpl; rewrite ?IH; intuition.
Qed.

Lemma in_orderBy_createdAt (x : Message) (ms : list Message) :
  In x (orderBy_createdAt ms) <-> In x ms.
Proof.
  unfold orderBy_createdAt.
  enough (H : forall acc, In x (fold_left (fun a m => insert_by_createdAt m a) ms acc)
                          <-> In x acc \/ In x ms).
  { rewrite H. simpl. intuition. }
  induction ms as [|m ms IH]; intro acc; simpl.
  - intuition.
  - rewrite IH, in_insert_by_createdAt. intuition.
Qed.

(** What JavaScript makes of the [where] literal of [getMessagesByUser]:
    the second [OR] replaces the first. *)
Lemma getMessagesByUser_where_eq (currentUserId otherUserId : string) (now : Date) :
  getMessagesByUser_where currentUserId otherUserId now =
  [ ("OR", not_expired_filter now); ("deleted", Equals (VBool false)) ].
Proof. reflexivity. Qed.

Lemma not_expired_filter_holds (m : Message) (k : string) (now : Date) :
  holds m k (not_expired_filter now) = true <->
  m_expiresAt m = None \/ exists d, m_expiresAt m = Some d /\ (now < d)%Z.
Proof.
  unfold not_expired_filter. simpl. unfold message_field. simpl.
  destruct (m_expiresAt m) as [d|]; simpl.
  - rewrite !orb_false_r, andb_true_r. rewrite Z.ltb_lt. split.
    + intro H. right. exists d. auto.
    + intros [H|[d' [H1 H2]]]; [discriminate | congruence].
  - split; auto.
Qed.

Lemma getMessagesByUser_where_matches (cur other : string) (now : Date) (m : Message) :
  matches (getMessagesByUser_where cur other now) m = true <->
  m_deleted m = false /\
  (m_expiresAt m = None \/ exists d, m_expiresAt m = Some d /\ (now < d)%Z).
Proof.
  rewrite getMessagesByUser_where_eq. unfold matches.
  cbn [forallb fst snd]. rewrite andb_true_r, andb_true_iff, not_expired_filter_holds.
  cbn [holds]. unfold message_field. simpl.
  destruct (m_deleted m); simpl; intuition congruence.
Qed.

Lemma getGroupMessages_where_matches (gid : string) (now : Date) (m : Message) :
  matches (getGroupMessages_where gid now) m = true <->
  m_groupId m = Some gid /\ m_deleted m = false /\
  (m_expiresAt m = None \/ exists d, m_expiresAt m = Some d /\ (now < d)%Z).
Proof.
  change (getGroupMessages_where gid now) with
    [ ("groupId", Equals (VStr (Some gid))); ("deleted", Equals (VBool false));
      ("OR", not_expired_filter now) ].
  unfold matches. cbn [forallb fst snd].
  rewrite andb_true_r, !andb_true_iff, not_expired_filter_holds.
  cbn [holds]. unfold message_field. simpl.
  destruct (m_groupId m) as [g|]; simpl.
  - destruct (String.eqb_spec g gid); destruct (m_deleted m); simpl;
      intuition congruence.
  - destruct (m_deleted m); simpl; intuition congruence.
Qed.

Lemma includes_In (ids : list string) (x : string) :
  includes ids x = true <-> In x ids.
Proof.
  unfold includes. rewrite existsb_exists. split.
  - intros (y & Hy & E). apply String.eqb_eq in E. now subst.
  - intro H. exists x. split; [assumption | apply String.eqb_refl].
Qed.

(** ** getMessagesByUser *)

Lemma getMessagesByUser_fetched (st : Store) (now : Date) (cur other : string)
    (m : Message) :
  In m (fetched (fst (getMessagesByUser st now cur other))) <->
  In m (messages st) /\ m_deleted m = false /\
  (m_expiresAt m = None \/ exists d, m_expiresAt m = Some d /\ (now < d)%Z).
Proof.
  unfold getMessagesByUser. cbn [fst fetched].
  rewrite map_map. cbn [include_reactions mwr_message]. rewrite map_id.
  rewrite in_orderBy_createdAt. unfold findMany. rewrite filter_In.
  rewrite getMessagesByUser_where_matches. tauto.
Qed.

(** C1. The conversation fetch of [alice] with [bob] returns the direct
    message that [carol] sent to [dave]: [alice] is neither its sender nor
    its receiver, and it has no group. The participant filter, the first [OR]
    of the [where] literal, is overwritten by the second [OR]. *)
Theorem getMessagesByUser_returns_foreign_message :
  fetched (fst (getMessagesByUser Sample.store 5000%Z Sample.alice Sample.bob))
    = [Sample.direct; Sample.whisper; Sample.signed]
  /\ m_senderId Sample.direct <> Sample.alice
  /\ m_receiverId Sample.direct <> Some Sample.alice
  /\ m_groupId Sample.direct = None.
Proof.
  split; [vm_compute; reflexivity|].
  split; [discriminate|]. split; [discriminate|reflexivity].
Qed.

(** ** sendMessage *)

Lemma expiresAt_data_Returns (v : option Z) (e : option Date) :
  expiresAt_data v = Returns e ->
  e = (if truthy_num v then v else None)
  /\ forall t, e = Some t -> t <> 0%Z /\ valid_time t = true.
Proof.
  unfold expiresAt_data. destruct v as [t|]; cbn [truthy_num].
  - destruct (Z.eqb_spec t 0) as [E|N]; cbn [negb].
    + intros [= <-]. split; [reflexivity | discriminate].
    + destruct (valid_time t) eqn:Hv; [|discriminate].
      intros [= <-]. split; [reflexivity|]. intros t' [= <-]. auto.
  - intros [= <-]. split; [reflexivity | discriminate].
Qed.

Lemma expiresAt_data_Throws (v : option Z) :
  expiresAt_data v = Throws <-> exists t, v = Some t /\ valid_time t = false.
Proof.
  unfold expiresAt_data. destruct v as [t|]; cbn [truthy_num].
  - destruct (Z.eqb_spec t 0) as [E|N]; cbn [negb].
    + subst t. split; [discriminate|]. intros (t & [= <-] & H). discriminate.
    + destruct (valid_time t) eqn:Hv.
      * split; [discriminate|]. intros (t' & [= <-] & H). congruence.
      * split; [eauto | reflexivity].
  - split; [discriminate|]. intros (t & H & _). discriminate.
Qed.

Lemma sendMessage_group_checks_Fail (st : Store) (senderId : string)
    (body : SendMessageBody) (early : Response Message) :
  sendMessage_group_checks st senderId body = Some early ->
  exists status msg, early = Fail status msg.
Proof.
  unfold sendMessage_group_checks.
  destruct (if truthy (b_groupId body) then b_groupId body else None); [|discriminate].
  destruct (findUnique_group s (groups st)); [|intros [= <-]; eauto].
  destruct (negb (includes (g_memberIds g) senderId)); [intros [= <-]; eauto|].
  destruct (b_isAnonymous body && negb (g_allowAnonymous g)); [intros [= <-]; eauto|].
  destruct (negb (truthy_num (b_expiresAt body)) && truthy_num (g_messageExpiry g));
    [intros [= <-]; eauto | discriminate].
Qed.






(** ** getGroupMessages *)

(** The object spread of the mapping keeps the scalar fields of the
    message, [senderId] among them. *)
Lemma with_nickname_message (ns : list MemberNickname) (gid : string)
    (row : GroupMessage) :
  gm_message (with_nickname ns gid row) = gm_message row.
Proof.
  unfold with_nickname. destruct (m_isAnonymous (gm_message row)); [reflexivity|].
  destruct (find_nickname ns (m_senderId (gm_message row)) gid); reflexivity.
Qed.

Lemma all_some_map {A B} (f : A -> option B) (g : B -> A) (l : list A) (ys : list B) :
  (forall x y, f x = Some y -> g y = x) ->
  all_some (map f l) = Some ys -> map g ys = l.
Proof.
  intro Hfg. revert ys. induction l as [|x l IH]; simpl; intros ys H.
  - inversion H. reflexivity.
  - destruct (f x) as [y|] eqn:Hx; [|discriminate].
    destruct (all_some (map f l)) as [ys'|]; [|discriminate].
    inversion H; subst. simpl. f_equal; auto.
Qed.

Lemma include_sender_reactions_message (st : Store) (m : Message) (row : GroupMessage) :
  include_sender_reactions st m = Some row -> gm_message row = m.
Proof.
  unfold include_sender_reactions.
  destruct (findUnique_user (m_senderId m) (users st)); [|discriminate].
  intros [= <-]. reflexivity.
Qed.

(** The messages behind the rows of a [getGroupMessages] response that
    carries rows. *)
Lemma getGroupMessages_rows (st : Store) (now : Date) (cur gid : string)
    (status : nat) (data : list GroupMessage) :
  getGroupMessages st now cur gid = Json status data ->
  map gm_message data =
  orderBy_createdAt (findMany (getGroupMessages_where gid now) (messages st)).
Proof.
  unfold getGroupMessages, findMany_include.
  destruct (findUnique_group gid (groups st)) as [g|]; [|discriminate].
  destruct (negb (includes (g_memberIds g) cur)); [discriminate|].
  destruct (valid_include MMessage getGroupMessages_include); [|discriminate].
  destruct (all_some _) as [rows|] eqn:Hrows; [|discriminate].
  intros [= _ <-]. rewrite map_map.
  erewrite map_ext; [|intro; apply with_nickname_message].
  eapply all_some_map; [|exact Hrows].
  intros x y. apply include_sender_reactions_message.
Qed.

(** [Reaction] has no relation field [user]: the query of
    [getGroupMessages] is refused. The other queries pass the check. *)
Lemma getGroupMessages_include_refused :
  valid_include MMessage getGroupMessages_include = false.
Proof. reflexivity. Qed.

Lemma other_includes_valid :
  forallb (fun mi => valid_include (fst mi) (snd mi)) other_includes = true.
Proof. reflexivity. Qed.

(** What [getGroupMessages] answers. *)
Lemma getGroupMessages_answer (st : Store) (now : Date) (cur gid : string) :
  getGroupMessages st now cur gid =
  match findUnique_group gid (groups st) with
  | None => Fail 404 "Group not found"
  | Some group =>
      if includes (g_memberIds group) cur
      then Fail 500 "Server error retrieving group messages"
      else Fail 403 "You are not a member of this group"
  end.
Proof.
  unfold getGroupMessages, findMany_include.
  rewrite getGroupMessages_include_refused.
  destruct (findUnique_group gid (groups st)) as [g|]; [|reflexivity].
  destruct (includes (g_memberIds g) cur); reflexivity.
Qed.

Lemma getGroupMessages_no_rows (st : Store) (now : Date) (cur gid : string) :
  group_rows (getGroupMessages st now cur gid) = [].
Proof.
  rewrite getGroupMessages_answer.
  destruct (findUnique_group gid (groups st)) as [g|]; [|reflexivity].
  destruct (includes (g_memberIds g) cur); reflexivity.
Qed.



(** ** getMedia *)

Lemma eq_id_true (a : option string) (b : string) : eq_id a b = true <-> a = Some b.
Proof.
  destruct a as [s|]; simpl; [|split; discriminate].
  rewrite String.eqb_eq. split; congruence.
Qed.

Lemma hasAccess_participant (st : Store) (m : Message) (userId : string) :
  hasAccess st m userId = true -> participant st m userId.
Proof.
  unfold hasAccess, participant.
  destruct (String.eqb_spec (m_senderId m) userId) as [E|_]; [auto|].
  destruct (eq_id (m_receiverId m) userId) eqn:Hr; simpl.
  - apply eq_id_true in Hr. auto.
  - destruct (truthy (m_groupId m)); [|discriminate].
    destruct (m_groupId m) as [gid|]; [|discriminate].
    destruct (findUnique_group gid (groups st)) as [g|] eqn:Hg; [|discriminate].
    intro H. apply includes_In in H. right. right. exists gid, g. auto.
Qed.

Lemma is_expired_true (now : Date) (m : Message) :
  is_expired now m = true <-> deadline_passed now m.
Proof.
  unfold is_expired, deadline_passed. destruct (m_expiresAt m) as [d|].
  - rewrite Z.ltb_lt. split.
    + intro H. exists d. auto.
    + intros (d' & [= <-] & H). assumption.
  - split; [discriminate | intros (d & E & _); discriminate].
Qed.

(** When [getMedia] answers with the file. *)
Lemma getMedia_SendFile (st : Store) (fs : FileSystem) (now : Date)
    (userId file f : string) (st' : Store) (fs' : FileSystem) :
  getMedia st fs now userId file = (SendFile f, st', fs') ->
  f = file /\ existsSync fs file = true /\
  match findFirst (media_where file) (messages st) with
  | Some m => hasAccess st m userId = true /\ is_expired now m = false
  | None => True
  end.
Proof.
  unfold getMedia. destruct (existsSync fs file); simpl; [|discriminate].
  destruct (findFirst (media_where file) (messages st)) as [m|].
  - destruct (hasAccess st m userId); simpl; [|discriminate].
    destruct (is_expired now m).
    + destruct (unlinkSync fs file); discriminate.
    + destruct (is_view_once m); intros [= <- _ _]; auto.
  - intros [= <- _ _]. auto.
Qed.

(** ** Expiry on the read paths *)

(** C4, the claim as stated fails: two messages of [carol] to [dave]
    carry the same attachment. The first has no deadline and was deleted by
    [carol]; the deadline of the second has passed. The media fetch looks at
    the first message that refers to the file name and at no other, and
    sends the file. *)
Lemma expired_attachment_served :
  let m := Sample.attachment 3000 in
  In m (messages Sample.shared_media_store)
  /\ m_mediaUrl m = Some ("/api/media/" ++ Sample.photo)%string
  /\ m_expiresAt m = Some 3000%Z
  /\ getMedia Sample.shared_media_store [Sample.photo] 5000 Sample.dave Sample.photo
     = (SendFile Sample.photo, Sample.shared_media_store, [Sample.photo]).
Proof. vm_compute. intuition. Qed.

(** C4, amended. A message whose expiry deadline lies before the time of
    the query is in the result of no direct-conversation fetch and of no
    group-conversation fetch, and a media fetch for a file name whose first
    referring message it is answers with an error instead of the file. The
    store and the directory are arbitrary, so this does not depend on what
    the cleanup sweep has done. *)
Theorem expired_message_excluded_from_reads (st : Store) (fs : FileSystem)
    (now : Date) (m : Message) :
  deadline_passed now m ->
  (forall cur other,
      ~ In m (fetched (fst (getMessagesByUser st now cur other))))
  /\ (forall cur gid,
        ~ In m (map gm_message (group_rows (getGroupMessages st now cur gid))))
  /\ (forall userId file,
        findFirst (media_where file) (messages st) = Some m ->
        exists status msg,
          fst (fst (getMedia st fs now userId file)) = Fail status msg).
Proof.
  intros (d & Hd & Hlt). split; [|split].
  - intros cur other H. apply getMessagesByUser_fetched in H.
    destruct H as (_ & _ & [H|(d' & H & Hgt)]); [congruence|].
    assert (d' = d) by congruence. lia.
  - intros cur gid H. rewrite getGroupMessages_no_rows in H. contradiction.
  - intros userId file Hf. unfold getMedia. rewrite Hf.
    destruct (existsSync fs file); simpl; [|eauto].
    destruct (hasAccess st m userId); simpl; [|eauto].
    assert (Hexp : is_expired now m = true).
    { apply is_expired_true. exists d. auto. }
    rewrite Hexp. destruct (unlinkSync fs file); simpl; eauto.
Qed.

(** The amended statement at an attachment whose deadline 3000 lies before
    the query time 5000. *)
Lemma expired_message_excluded_from_reads_witness :
  let m := Sample.attachment 3000 in
  let st := Sample.media_store 3000 in
  deadline_passed 5000 m
  /\ ~ In m (fetched (fst (getMessagesByUser st 5000%Z Sample.dave Sample.carol)))
  /\ exists status msg,
       fst (fst (getMedia st [Sample.photo] 5000%Z Sample.dave Sample.photo))
         = Fail status msg.
Proof.
  intros m st.
  assert (H : deadline_passed 5000 m).
  { exists 3000%Z. split; [reflexivity | lia]. }
  split; [exact H|].
  destruct (expired_message_excluded_from_reads st [Sample.photo] H) as (H1 & _ & H3).
  split; [apply H1 | apply H3; reflexivity].
Defined.

(** ** Media access *)

(** C5, the claim as stated fails: a stored file that no message refers to
    is served to any authenticated user, here [dave], who is then neither
    sender, receiver nor group member of a message referring to it. *)
Lemma getMedia_serves_unreferenced_file :
  findFirst (media_where Sample.photo) (messages Sample.store) = None
  /\ getMedia Sample.store [Sample.photo] 5000 Sample.dave Sample.photo
     = (SendFile Sample.photo, Sample.store, [Sample.photo]).
Proof. split; vm_compute; reflexivity. Qed.

(** C5, amended. When [getMedia] serves a file, the file is in the store
    directory, and either no message refers to it, or the first message that
    refers to it has the user as sender, direct receiver or member of its
    group, and its expiry deadline does not lie before the time of the
    request. *)
Theorem getMedia_serves_participants_only (st : Store) (fs : FileSystem) (now : Date)
    (userId file f : string) (st' : Store) (fs' : FileSystem) :
  getMedia st fs now userId file = (SendFile f, st', fs') ->
  f = file /\ In file fs /\
  (findFirst (media_where file) (messages st) = None \/
   exists m, findFirst (media_where file) (messages st) = Some m /\
             participant st m userId /\ ~ deadline_passed now m).
Proof.
  intro H. apply getMedia_SendFile in H. destruct H as (-> & He & H).
  split; [reflexivity|]. split; [now apply includes_In|].
  destruct (findFirst (media_where file) (messages st)) as [m|]; [right|now left].
  destruct H as [Ha Hx]. exists m. split; [reflexivity|].
  split; [now apply hasAccess_participant|].
  intro Hp. apply is_expired_true in Hp. congruence.
Qed.

(** The amended statement at [dave] fetching the attachment that [carol]
    sent him, before its deadline. *)
Lemma getMedia_serves_participants_only_witness :
  exists st' fs',
    getMedia (Sample.media_store 9000) [Sample.photo] 5000 Sample.dave Sample.photo
      = (SendFile Sample.photo, st', fs')
    /\ exists m, findFirst (media_where Sample.photo)
                   (messages (Sample.media_store 9000)) = Some m
                 /\ participant (Sample.media_store 9000) m Sample.dave
                 /\ ~ deadline_passed 5000 m.
Proof.
  eexists. eexists.
  assert (H : forall st' fs' (E : getMedia (Sample.media_store 9000) [Sample.photo]
                                       5000 Sample.dave Sample.photo
                                     = (SendFile Sample.photo, st', fs')),
             exists m, findFirst (media_where Sample.photo)
                         (messages (Sample.media_store 9000)) = Some m
                       /\ participant (Sample.media_store 9000) m Sample.dave
                       /\ ~ deadline_passed 5000 m).
  { intros st' fs' E.
    destruct (getMedia_serves_participants_only _ _ _ _ _ E) as (_ & _ & [H|H]).
    - vm_compute in H. discriminate.
    - exact H. }
  split; [|eapply H]; vm_compute; reflexivity.
Defined.

(** ** Delivery and read flags *)





(** ** Nicknames *)






(** ** One-time codes *)

Lemma find_filter_negb {A} (f : A -> bool) (l : list A) :
  find f (filter (fun x => negb (f x)) l) = None.
Proof.
  induction l as [|x l IH]; simpl; [reflexivity|].
  destruct (f x) eqn:E; simpl; [assumption|]. now rewrite E.
Qed.

(** C10. [verifyOTP] accepts the stored code whenever the provided code
    equals it, also when the stored deadline [expiresAt] lies before the time
    [now] of the call; the record is consumed. In particular a code saved by
    [saveOTP] is accepted at every later time. *)
Theorem verifyOTP_ignores_expiry (st : Store) (now : Date) (userId providedOtp : string)
    (otpData : OtpData) :
  findUnique_otp userId (otps st) = Some otpData ->
  o_otp otpData = providedOtp ->
  (o_expiresAt otpData < now)%Z ->
  fst (verifyOTP st userId providedOtp) = true
  /\ findUnique_otp userId (otps (snd (verifyOTP st userId providedOtp))) = None.
Proof.
  intros Hf Ho _. unfold verifyOTP. rewrite Hf, Ho, String.eqb_refl. cbn.
  split; [reflexivity|].
  unfold findUnique_otp.
  apply (find_filter_negb (fun o => String.eqb (o_userId o) userId)).
Qed.

(** The statement at a code saved at time 0 with a five-minute validity and
    verified an hour later. *)
Lemma verifyOTP_ignores_expiry_witness :
  let st := saveOTP 300 Sample.store 0 Sample.alice "492817" in
  findUnique_otp Sample.alice (otps st) = Some (mkOtpData Sample.alice "492817" 300000)
  /\ fst (verifyOTP st Sample.alice "492817") = true.
Proof.
  intro st. split; [reflexivity|].
  apply (verifyOTP_ignores_expiry st (now := 3600000) Sample.alice
           (otpData := mkOtpData Sample.alice "492817" 300000));
    [reflexivity | reflexivity | simpl; lia].
Defined.

(** ** Concurrent reads of view-once media *)

(** ** Concurrent reads of view-once media *)

Lemma count_app (p : Event -> bool) (log : list Event) (e : Event) :
  count p (log ++ [e]) = (count p log + (if p e then 1 else 0))%nat.
Proof.
  unfold count. rewrite filter_app, length_app. simpl.
  destruct (p e); reflexivity.
Qed.

Lemma existsSync_unlinkSync (fs : FileSystem) (file : string) :
  if existsSync fs file
  then exists fs', unlinkSync fs file = Some fs' /\ existsSync fs' file = false
  else unlinkSync fs file = None.
Proof.
  unfold unlinkSync. destruct (existsSync fs file) eqn:E; [|reflexivity].
  eexists. split; [reflexivity|].
  unfold existsSync, includes. clear E. induction fs as [|f fs IH]; [reflexivity|].
  simpl. destruct (String.eqb_spec f file) as [->|N]; simpl; [assumption|].
  rewrite IH, orb_false_r. apply String.eqb_neq. congruence.
Qed.

Lemma findUnique_update_by_id (k k' : string) (ms : list Message) :
  findUnique_message k ms <> None ->
  findUnique_message k (update_by_id k' set_isRead_isDelivered ms) <> None.
Proof.
  unfold findUnique_message, update_by_id.
  induction ms as [|x ms IH]; simpl; [auto|].
  assert (E : m_id (if String.eqb (m_id x) k' then set_isRead_isDelivered x else x)
              = m_id x) by (destruct (String.eqb (m_id x) k'); reflexivity).
  rewrite E. destruct (String.eqb (m_id x) k); [discriminate | exact IH].
Qed.

Lemma findFirst_In (w : Where) (ms : list Message) (m : Message) :
  findFirst w ms = Some m -> In m ms.
Proof. intro H. apply find_some in H. tauto. Qed.

Lemma In_findUnique_message (m : Message) (ms : list Message) :
  In m ms -> findUnique_message (m_id m) ms <> None.
Proof.
  unfold findUnique_message. induction ms as [|x ms IH]; simpl; [tauto|].
  intros [->|H].
  - rewrite String.eqb_refl. discriminate.
  - destruct (String.eqb (m_id x) (m_id m)); [discriminate | auto].
Qed.

(** What a turn of [step_nth] does to the list of requests. *)
Lemma step_nth_spec (now : Date) (i : nat) (rs rs' : list Request) (w w' : World) :
  step_nth now i rs w = (rs', w') ->
  (rs' = rs /\ w' = w) \/
  exists l1 r l2 pc',
    rs = l1 ++ r :: l2 /\
    rs' = l1 ++ mkRequest (rq_userId r) (rq_file r) pc' :: l2 /\
    step_getMedia now (rq_userId r) (rq_file r) (rq_pc r) w = (pc', w').
Proof.
  revert i rs'. induction rs as [|r rs IH]; intros i rs' H.
  - destruct i; inversion H; auto.
  - destruct i as [|i]; simpl in H.
    + destruct (step_getMedia now (rq_userId r) (rq_file r) (rq_pc r) w)
        as [pc' w1] eqn:E.
      inversion H; subst. right. exists [], r, rs, pc'. auto.
    + destruct (step_nth now i rs w) as [rs1 w1] eqn:E.
      inversion H; subst.
      destruct (IH _ _ E) as [[-> ->]|(l1 & r0 & l2 & pc' & -> & -> & Hs)]; [auto|].
      right. exists (r :: l1), r0, l2, pc'. auto.
Qed.

Section ViewOnce.

Variables (st : Store) (fs : FileSystem) (userId file : string) (m : Message).

Hypothesis file_stored : existsSync fs file = true.
Hypothesis message_found : findFirst (media_where file) (messages st) = Some m.
Hypothesis reader_is_party : m_senderId m = userId \/ m_receiverId m = Some userId.
Hypothesis message_view_once : is_view_once m = true.

Lemma party_access :
  String.eqb (m_senderId m) userId || eq_id (m_receiverId m) userId = true.
Proof.
  destruct reader_is_party as [E|E]; rewrite E; simpl.
  - now rewrite String.eqb_refl.
  - rewrite String.eqb_refl. apply orb_true_r.
Qed.

Lemma try_unlink_spec (w : World) :
  deleted_once file w ->
  let w' := snd (try_unlink file w) in
  deleted_once file w' /\ existsSync (w_fs w') file = false
  /\ w_store w' = w_store w.
Proof.
  intros Hd. unfold try_unlink.
  pose proof (existsSync_unlinkSync (w_fs w) file) as Hu.
  destruct (existsSync (w_fs w) file) eqn:E.
  - destruct Hu as (fs' & -> & Hfs'). cbn [snd w_fs w_store].
    split; [|auto]. right. cbn [w_fs w_log]. split; [assumption|].
    rewrite count_app. cbn [is_deletion]. rewrite String.eqb_refl.
    destruct Hd as [[_ ->]|[Hx _]]; [reflexivity | congruence].
  - rewrite Hu. cbn [snd emit w_fs w_store]. split; [|auto].
    unfold deleted_once. cbn [emit w_fs w_log]. rewrite count_app.
    cbn [is_deletion]. rewrite Nat.add_0_r.
    destruct Hd as [[Hx _]|Hd]; [congruence | right; exact Hd].
Qed.

Lemma emit_spec (e : Event) (w : World) :
  is_deletion file e = false ->
  deleted_once file w -> deleted_once file (emit e w).
Proof.
  intros He Hd. unfold deleted_once, emit. cbn [w_fs w_log].
  rewrite count_app, He, Nat.add_0_r. exact Hd.
Qed.

Lemma after_access_spec (now : Date) (m' : Message) (w : World)
    (pc' : Pc) (w' : World) :
  after_access now file m' w = (pc', w') ->
  deleted_once file w ->
  deleted_once file w' /\ w_store w' = w_store w
  /\ (pc' = AwaitUpdate m' /\ w' = w \/ (exists r, pc' = Done r) /\
      (is_view_once m' = true -> existsSync (w_fs w') file = false)).
Proof.
  unfold after_access. intros H Hd.
  destruct (is_expired now m') eqn:Hx.
  - pose proof (try_unlink_spec Hd) as (H1 & H2 & H3).
    destruct (try_unlink file w) as [ok w1]. cbn [snd] in H1, H2, H3.
    destruct ok; inversion H; subst; (split; [assumption|]); (split; [assumption|]);
      right; eauto.
  - destruct (is_view_once m') eqn:Hv; inversion H; subst.
    + auto.
    + split; [now apply emit_spec|]. split; [reflexivity|].
      right. split; [eauto | discriminate].
Qed.

(** One turn of a request of [userId] for [file]. *)
Lemma step_getMedia_spec (now : Date) (pc pc' : Pc) (w w' : World) :
  step_getMedia now userId file pc w = (pc', w') ->
  message_kept m w -> deleted_once file w ->
  message_kept m w' /\ deleted_once file w'
  /\ (will_delete m pc ->
      will_delete m pc' \/ existsSync (w_fs w') file = false)
  /\ (early pc -> messages (w_store w) = messages st ->
      messages (w_store w') = messages st /\
      (early pc' \/ will_delete m pc' \/ existsSync (w_fs w') file = false)).
Proof.
  intros H Hk Hd. destruct pc as [| |found|m'|m' g|m'| | |r]; simpl in H.
  - (* Start *)
    destruct (existsSync (w_fs w) file) eqn:E; inversion H; subst;
      (split; [assumption|]); (split; [assumption|]);
      (split; [intros []|]); intros _ Hst; (split; [assumption|]).
    + left. right. reflexivity.
    + right. right. assumption.
  - (* AwaitFindFirst *)
    inversion H; subst. split; [assumption|]. split; [assumption|].
    split; [intros []|]. intros _ Hst. split; [assumption|].
    right. left. rewrite Hst, message_found. reflexivity.
  - (* GotMessage *)
    destruct found as [m'|].
    + destruct (String.eqb (m_senderId m') userId || eq_id (m_receiverId m') userId)
        eqn:Ha.
      * destruct (@after_access_spec _ _ _ _ _ H Hd) as (H1 & H2 & H3).
        split; [unfold message_kept; now rewrite H2|]. split; [assumption|].
        split; [|intros [E|E]; discriminate].
        intros ->. destruct H3 as [[-> _]|[_ H3]]; [left; reflexivity|].
        right. apply H3. exact message_view_once.
      * split.
        { destruct (truthy (m_groupId m')); inversion H; subst; assumption. }
        split.
        { destruct (truthy (m_groupId m')); inversion H; subst; assumption. }
        split; [|intros [E|E]; discriminate].
        intros ->. rewrite party_access in Ha. discriminate.
    + inversion H; subst. split; [assumption|].
      split; [now apply emit_spec|].
      split; [intros []|intros [E|E]; discriminate].
  - (* AwaitGroup *)
    inversion H; subst. split; [assumption|]. split; [assumption|].
    split; [intros []|intros [E|E]; discriminate].
  - (* GotGroup *)
    split; [|split; [|split; [intros []|intros [E|E]; discriminate]]].
    + destruct g as [g|]; [destruct (includes (g_memberIds g) userId)|];
        try (inversion H; subst; assumption).
      destruct (@after_access_spec _ _ _ _ _ H Hd) as (_ & H2 & _).
      unfold message_kept. now rewrite H2.
    + destruct g as [g|]; [destruct (includes (g_memberIds g) userId)|];
        try (inversion H; subst; assumption).
      now destruct (@after_access_spec _ _ _ _ _ H Hd) as (H1 & _ & _).
  - (* AwaitUpdate *)
    destruct (findUnique_message (m_id m') (messages (w_store w))) eqn:Hf.
    + inversion H; subst. split.
      { unfold message_kept. cbn [w_store set_messages messages].
        now apply findUnique_update_by_id. }
      split.
      { unfold deleted_once. cbn [w_fs w_log]. rewrite count_app.
        cbn [is_deletion]. rewrite Nat.add_0_r. exact Hd. }
      split; [intros _; left; exact I | intros [E|E]; discriminate].
    + inversion H; subst. split; [assumption|]. split; [assumption|].
      split; [|intros [E|E]; discriminate].
      intro E. simpl in E. rewrite E in Hf. contradiction.
  - (* Updated *)
    inversion H; subst. split; [assumption|].
    split; [now apply emit_spec|].
    split; [intros _; left; exact I | intros [E|E]; discriminate].
  - (* AwaitFinish *)
    pose proof (try_unlink_spec Hd) as (H1 & H2 & H3).
    destruct (try_unlink file w) as [ok w1]. cbn [snd] in H1, H2, H3.
    inversion H; subst. split; [unfold message_kept; now rewrite H3|].
    split; [assumption|]. split; [intros _; now right | intros [E|E]; discriminate].
  - (* Done *)
    inversion H; subst. split; [assumption|]. split; [assumption|].
    split; [intros [] | intros [E|E]; discriminate].
Qed.

(** No turn brings a file back. *)
Lemma step_getMedia_fs (now : Date) (u f f' : string) (pc pc' : Pc) (w w' : World) :
  step_getMedia now u f pc w = (pc', w') ->
  existsSync (w_fs w) f' = false -> existsSync (w_fs w') f' = false.
Proof.
  assert (Hu : forall w0, existsSync (w_fs w0) f' = false ->
                          existsSync (w_fs (snd (try_unlink f w0))) f' = false).
  { intros w0 H0. unfold try_unlink, unlinkSync.
    destruct (existsSync (w_fs w0) f); cbn [snd w_fs emit]; [|assumption].
    unfold existsSync, includes in *. revert H0.
    induction (w_fs w0) as [|x l IH]; simpl; [auto|].
    intro H0. apply orb_false_iff in H0. destruct H0 as [H1 H2].
    destruct (negb (String.eqb x f)); simpl; [rewrite H1|]; auto. }
  assert (Ha : forall m0 pc0 w0, after_access now f m0 w = (pc0, w0) ->
                 existsSync (w_fs w) f' = false -> existsSync (w_fs w0) f' = false).
  { intros m0 pc0 w0 H H0. unfold after_access in H.
    destruct (is_expired now m0).
    - specialize (Hu w H0). destruct (try_unlink f w) as [ok w1].
      destruct ok; inversion H; subst; exact Hu.
    - destruct (is_view_once m0); inversion H; subst; assumption. }
  intros H H0.
  destruct pc as [| |found|m'|m' g|m'| | |r]; simpl in H.
  - destruct (negb (existsSync (w_fs w) f)); inversion H; subst; assumption.
  - inversion H; subst; assumption.
  - destruct found as [m'|]; [|inversion H; subst; assumption].
    destruct (String.eqb (m_senderId m') u || eq_id (m_receiverId m') u); [eauto|].
    destruct (truthy (m_groupId m')); inversion H; subst; assumption.
  - inversion H; subst; assumption.
  - destruct g as [g|]; [|inversion H; subst; assumption].
    destruct (includes (g_memberIds g) u); [eauto|inversion H; subst; assumption].
  - destruct (findUnique_message (m_id m') (messages (w_store w)));
      inversion H; subst; assumption.
  - inversion H; subst; assumption.
  - specialize (Hu w H0). destruct (try_unlink f w) as [ok w1].
    inversion H; subst; exact Hu.
  - inversion H; subst; assumption.
Qed.

Lemma view_once_invariant_step (s : System) (turn : nat * Date) :
  view_once_invariant st userId file m s ->
  view_once_invariant st userId file m (sys_step s turn).
Proof.
  intros (Hk & Hd & Hreq & Hne & Hprog). unfold sys_step.
  destruct (step_nth (snd turn) (fst turn) (sys_requests s) (sys_world s))
    as [rs' w'] eqn:E.
  apply step_nth_spec in E.
  destruct E as [[-> ->]|(l1 & r & l2 & pc' & Hrs & -> & Hstep)].
  { repeat split; assumption. }
  unfold view_once_invariant. cbn [sys_world sys_requests].
  rewrite Hrs in Hreq, Hprog.
  apply Forall_app in Hreq. destruct Hreq as [Hl1 Hr].
  apply Forall_cons_iff in Hr. destruct Hr as [[Hu Hf] Hl2].
  rewrite Hu, Hf in Hstep.
  pose proof (@step_getMedia_fs _ _ _ file _ _ _ _ Hstep) as Hfs.
  destruct (@step_getMedia_spec _ _ _ _ _ Hstep Hk Hd) as (Hk' & Hd' & Hw & He).
  split; [assumption|]. split; [assumption|]. split.
  { apply Forall_app. split; [assumption|]. constructor; [|assumption].
    cbn. rewrite Hu, Hf. auto. }
  split.
  { intro Habs. symmetry in Habs. now apply app_cons_not_nil in Habs. }
  intro Hex'.
  assert (Hex : existsSync (w_fs (sys_world s)) file = true).
  { destruct (existsSync (w_fs (sys_world s)) file) eqn:Hx; [reflexivity|].
    rewrite (Hfs eq_refl) in Hex'. discriminate. }
  destruct (Hprog Hex) as [Hsome|[Hst Hearly]].
  - left. apply Exists_app in Hsome. apply Exists_app.
    destruct Hsome as [Hsome|Hsome]; [now left|right].
    apply Exists_cons in Hsome. destruct Hsome as [Hsome|Hsome].
    + destruct (Hw Hsome) as [Hpc'|Hgone]; [|congruence].
      apply Exists_cons_hd. exact Hpc'.
    + apply Exists_cons_tl. exact Hsome.
  - apply Forall_app in Hearly. destruct Hearly as [He1 He2].
    apply Forall_cons_iff in He2. destruct He2 as [Her He2].
    destruct (He Her Hst) as (Hst' & [Hpc'|[Hpc'|Hgone]]); [| |congruence].
    + right. split; [assumption|].
      apply Forall_app. split; [assumption|]. constructor; assumption.
    + left. apply Exists_app. right. apply Exists_cons_hd. exact Hpc'.
Qed.

Lemma view_once_invariant_run (schedule : Schedule) (s : System) :
  view_once_invariant st userId file m s ->
  view_once_invariant st userId file m (run schedule s).
Proof.
  unfold run. revert s. induction schedule as [|turn schedule IH]; intros s H.
  - exact H.
  - simpl. apply IH. now apply view_once_invariant_step.
Qed.

Lemma view_once_invariant_init (n : nat) :
  view_once_invariant st userId file m (readers (S n) st fs userId file).
Proof.
  unfold view_once_invariant, readers. cbn [sys_world sys_requests w_store w_fs w_log].
  split.
  { unfold message_kept. cbn [w_store]. apply In_findUnique_message.
    eapply findFirst_In. exact message_found. }
  split; [left; split; [exact file_stored | reflexivity]|].
  split.
  { apply Forall_forall. intros r Hr. apply repeat_spec in Hr. subst r. auto. }
  split; [discriminate|].
  intros _. right. split; [reflexivity|].
  apply Forall_forall. intros r Hr. apply repeat_spec in Hr. subst r. now left.
Qed.

(** Once every request has answered, the file is gone. *)
Lemma view_once_invariant_done (s : System) :
  view_once_invariant st userId file m s ->
  all_done s = true ->
  existsSync (w_fs (sys_world s)) file = false.
Proof.
  intros (_ & _ & _ & Hne & Hprog) Hdone.
  destruct (existsSync (w_fs (sys_world s)) file) eqn:Hx; [exfalso|reflexivity].
  unfold all_done in Hdone. rewrite forallb_forall in Hdone.
  destruct (Hprog eq_refl) as [Hsome|[_ Hearly]].
  - apply Exists_exists in Hsome. destruct Hsome as (r & Hin & Hr).
    specialize (Hdone r Hin). unfold is_done in Hdone.
    destruct (rq_pc r); try discriminate. exact Hr.
  - destruct (sys_requests s) as [|r rs]; [now apply Hne|].
    apply Forall_cons_iff in Hearly. destruct Hearly as [Hr _].
    specialize (Hdone r (or_introl eq_refl)). unfold is_done in Hdone.
    destruct Hr as [E|E]; rewrite E in Hdone; discriminate.
Qed.

End ViewOnce.

Lemma run_done (now : Date) (k : nat) (w : World) (u f : string) (r : Response unit) :
  fold_left sys_step (repeat (0%nat, now) k) (mkSystem w [mkRequest u f (Done r)])
  = mkSystem w [mkRequest u f (Done r)].
Proof. induction k as [|k IH]; [reflexivity | exact IH]. Qed.

Lemma sys_step_alone (now : Date) (w : World) (u f : string) (pc : Pc) :
  sys_step (mkSystem w [mkRequest u f pc]) (0%nat, now)
  = mkSystem (snd (step_getMedia now u f pc w))
      [mkRequest u f (fst (step_getMedia now u f pc w))].
Proof.
  unfold sys_step. cbn [fst snd sys_requests sys_world step_nth rq_userId rq_file rq_pc].
  destruct (step_getMedia now u f pc w); reflexivity.
Qed.

(** The turns of a lone request from the expiry check on. *)
Lemma after_access_alone (st : Store) (fs : FileSystem) (now : Date)
    (userId file : string) (m : Message) (k : nat) :
  findUnique_message (m_id m) (messages st) <> None ->
  let s := fold_left sys_step (repeat (0%nat, now) (3 + k))
             (let (pc, w) := after_access now file m (mkWorld st fs []) in
              mkSystem w [mkRequest userId file pc]) in
  let res :=
    if is_expired now m then
      match unlinkSync fs file with
      | Some fs' => (Fail 404 "Media has expired", st, fs')
      | None => (Fail 500 "Server error retrieving media", st, fs)
      end
    else if is_view_once m then
      (SendFile file,
       set_messages st (update_by_id (m_id m) set_isRead_isDelivered (messages st)),
       match unlinkSync fs file with Some fs' => fs' | None => fs end)
    else (SendFile file, st, fs) in
  map rq_pc (sys_requests s) = [Done (fst (fst res))]
  /\ w_store (sys_world s) = snd (fst res)
  /\ w_fs (sys_world s) = snd res.
Proof.
  intro Hkept. unfold after_access, try_unlink. cbn [w_fs w_store w_log emit].
  destruct (is_expired now m).
  - destruct (unlinkSync fs file); rewrite run_done; repeat split.
  - destruct (is_view_once m).
    + cbn [repeat Nat.add fold_left].
      rewrite sys_step_alone. cbn [step_getMedia w_store w_fs w_log fst snd].
      destruct (findUnique_message (m_id m) (messages st)); [|contradiction].
      cbn [fst snd]. rewrite sys_step_alone. cbn [step_getMedia fst snd].
      rewrite sys_step_alone. cbn [step_getMedia fst snd].
      unfold try_unlink. cbn [w_fs w_store w_log emit].
      destruct (unlinkSync fs file); cbn [fst snd]; rewrite run_done; repeat split.
    + rewrite run_done. repeat split.
Qed.

(** A request that takes all its turns alone does what [getMedia] says. *)
Lemma getMedia_alone (st : Store) (fs : FileSystem) (now : Date) (userId file : string) :
  let s := run (repeat (0%nat, now) 8) (readers 1 st fs userId file) in
  map rq_pc (sys_requests s) = [Done (fst (fst (getMedia st fs now userId file)))]
  /\ w_store (sys_world s) = snd (fst (getMedia st fs now userId file))
  /\ w_fs (sys_world s) = snd (getMedia st fs now userId file).
Proof.
  unfold getMedia, readers, run.
  cbn [repeat fold_left sys_world sys_requests].
  rewrite sys_step_alone. cbn [step_getMedia w_fs w_store fst snd].
  destruct (existsSync fs file) eqn:Hex; cbn [negb fst snd];
    [|rewrite !sys_step_alone; repeat split].
  rewrite sys_step_alone. cbn [step_getMedia w_fs w_store fst snd].
  rewrite sys_step_alone. cbn [step_getMedia w_fs w_store fst snd].
  destruct (findFirst (media_where file) (messages st)) as [m|] eqn:Hfind;
    [|cbn [fst snd]; rewrite !sys_step_alone; repeat split].
  assert (Hkept : findUnique_message (m_id m) (messages st) <> None).
  { apply In_findUnique_message. eapply findFirst_In. exact Hfind. }
  unfold hasAccess.
  destruct (String.eqb (m_senderId m) userId || eq_id (m_receiverId m) userId).
  - cbn [negb].
    pose proof (@after_access_alone st fs now userId file m 2 Hkept) as H.
    cbn [Nat.add] in H. destruct (after_access now file m (mkWorld st fs [])).
    exact H.
  - destruct (truthy (m_groupId m));
      [|cbn [negb fst snd]; rewrite !sys_step_alone; repeat split].
    cbn [fst snd]. rewrite sys_step_alone. cbn [step_getMedia w_fs w_store fst snd].
    rewrite sys_step_alone. cbn [step_getMedia w_fs w_store fst snd groups].
    destruct (m_groupId m) as [gid|];
      [|cbn [negb fst snd]; rewrite !sys_step_alone; repeat split].
    destruct (findUnique_group gid (groups st)) as [g|];
      [|cbn [negb fst snd]; rewrite !sys_step_alone; repeat split].
    destruct (includes (g_memberIds g) userId);
      [|cbn [negb fst snd]; rewrite !sys_step_alone; repeat split].
    cbn [negb].
    pose proof (@after_access_alone st fs now userId file m 0 Hkept) as H.
    cbn [Nat.add] in H. destruct (after_access now file m (mkWorld st fs [])).
    exact H.
Qed.

(** Every turn brings a request closer to its answer. *)
Lemma step_getMedia_rank (now : Date) (u f : string) (pc pc' : Pc) (w w' : World) :
  step_getMedia now u f pc w = (pc', w') -> (rank pc' <= rank pc - 1)%nat.
Proof.
  assert (Ha : forall m0 pc0 w0, after_access now f m0 w = (pc0, w0) ->
                 (rank pc0 <= 3)%nat).
  { intros m0 pc0 w0 H. unfold after_access in H.
    destruct (is_expired now m0).
    - destruct (try_unlink f w) as [ok w1].
      destruct ok; inversion H; subst; simpl; lia.
    - destruct (is_view_once m0); inversion H; subst; simpl; lia. }
  intro H. destruct pc as [| |found|m'|m' g|m'| | |r]; simpl in H.
  - destruct (negb (existsSync (w_fs w) f)); inversion H; subst; simpl; lia.
  - inversion H; subst; simpl; lia.
  - destruct found as [m'|]; [|inversion H; subst; simpl; lia].
    destruct (String.eqb (m_senderId m') u || eq_id (m_receiverId m') u).
    + apply Ha in H. simpl. lia.
    + destruct (truthy (m_groupId m')); inversion H; subst; simpl; lia.
  - inversion H; subst; simpl; lia.
  - destruct g as [g|]; [|inversion H; subst; simpl; lia].
    destruct (includes (g_memberIds g) u); [|inversion H; subst; simpl; lia].
    apply Ha in H. simpl. lia.
  - destruct (findUnique_message (m_id m') (messages (w_store w)));
      inversion H; subst; simpl; lia.
  - inversion H; subst; simpl; lia.
  - destruct (try_unlink f w) as [ok w1]. inversion H; subst; simpl; lia.
  - inversion H; subst; simpl; lia.
Qed.

Lemma sys_step_rank (s : System) (turn : nat * Date) (i : nat) (r : Request) :
  nth_error (sys_requests s) i = Some r ->
  exists r',
    nth_error (sys_requests (sys_step s turn)) i = Some r'
    /\ (rank (rq_pc r') <= rank (rq_pc r) - (if Nat.eqb (fst turn) i then 1 else 0))%nat.
Proof.
  unfold sys_step. destruct turn as [j now]. cbn [fst snd].
  generalize (sys_world s) as w. revert i j.
  induction (sys_requests s) as [|r0 rs IH]; intros i j w Hi.
  - destruct i; discriminate.
  - destruct j as [|j]; cbn [step_nth].
    + destruct (step_getMedia now (rq_userId r0) (rq_file r0) (rq_pc r0) w)
        as [pc' w'] eqn:E.
      cbn [sys_requests]. destruct i as [|i]; cbn [nth_error Nat.eqb] in *.
      * inversion Hi; subst. eexists. split; [reflexivity|].
        cbn [rq_pc]. now apply step_getMedia_rank in E.
      * exists r. split; [assumption | lia].
    + specialize (IH (pred i) j w).
      destruct (step_nth now j rs w) as [rs' w'] eqn:E.
      cbn [sys_requests] in *. destruct i as [|i]; cbn [nth_error Nat.eqb pred] in *.
      * exists r. split; [assumption | lia].
      * exact (IH Hi).
Qed.

(** After [n] turns of its own, a request has at most [rank - n] turns
    left. *)
Lemma run_rank (schedule : Schedule) (s : System) (i : nat) (r : Request) :
  nth_error (sys_requests s) i = Some r ->
  exists r',
    nth_error (sys_requests (run schedule s)) i = Some r'
    /\ (rank (rq_pc r') <= rank (rq_pc r) - turns i schedule)%nat.
Proof.
  unfold run. revert s r.
  induction schedule as [|turn schedule IH]; intros s r Hi.
  - exists r. split; [assumption | unfold turns; cbn [filter length]; lia].
  - destruct (sys_step_rank s turn i Hi) as (r1 & H1 & Hr1).
    destruct (IH _ _ H1) as (r' & H' & Hr'). exists r'. split; [exact H'|].
    unfold turns in *. cbn [filter fold_left].
    destruct (Nat.eqb (fst turn) i); cbn [length]; lia.
Qed.

Lemma sys_step_length (s : System) (turn : nat * Date) :
  length (sys_requests (sys_step s turn)) = length (sys_requests s).
Proof.
  unfold sys_step. destruct turn as [j now]. cbn [fst snd].
  generalize (sys_world s) as w. revert j.
  induction (sys_requests s) as [|r0 rs IH]; intros j w.
  - destruct j; reflexivity.
  - destruct j as [|j]; cbn [step_nth].
    + destruct (step_getMedia now (rq_userId r0) (rq_file r0) (rq_pc r0) w).
      reflexivity.
    + specialize (IH j w). destruct (step_nth now j rs w) as [rs' w'].
      cbn [sys_requests length] in *. now rewrite IH.
Qed.

Lemma run_length (schedule : Schedule) (s : System) :
  length (sys_requests (run schedule s)) = length (sys_requests s).
Proof.
  unfold run. revert s. induction schedule as [|turn schedule IH]; intro s.
  - reflexivity.
  - cbn [fold_left]. now rewrite IH, sys_step_length.
Qed.

(** Two requests that are given eight turns each have both answered. *)
Lemma readers_answer (st : Store) (fs : FileSystem) (userId file : string)
    (schedule : Schedule) :
  (8 <= turns 0 schedule)%nat -> (8 <= turns 1 schedule)%nat ->
  all_done (run schedule (readers 2 st fs userId file)) = true.
Proof.
  intros H0 H1.
  pose proof (run_length schedule (readers 2 st fs userId file)) as Hlen.
  destruct (run_rank schedule (readers 2 st fs userId file) 0 eq_refl)
    as (r0 & E0 & R0).
  destruct (run_rank schedule (readers 2 st fs userId file) 1 eq_refl)
    as (r1 & E1 & R1).
  unfold all_done.
  destruct (sys_requests (run schedule (readers 2 st fs userId file)))
    as [|x [|y [|z l]]]; try discriminate.
  cbn in E0, E1. inversion E0; inversion E1; subst.
  cbn [rq_pc rank] in R0, R1.
  assert (D0 : is_done r0 = true).
  { unfold is_done. destruct (rq_pc r0); cbn [rank] in R0; solve [reflexivity | lia]. }
  assert (D1 : is_done r1 = true).
  { unfold is_done. destruct (rq_pc r1); cbn [rank] in R1; solve [reflexivity | lia]. }
  cbn [forallb]. now rewrite D0, D1.
Qed.

(** C9, the claim as stated fails: [dave] sends two requests for the
    view-once attachment that advance in lockstep. Both read the message
    before either has written the flag, so both pass [!message.isRead], both
    write the flag with an unconditional [update], both are sent the file and
    both call [unlinkSync]; the second call throws and the error is
    swallowed. The flag is a plain read followed by a write. *)
Lemma view_once_consumed_twice :
  let s := run Sample.lockstep
             (readers 2 (Sample.media_store 9000) [Sample.photo] Sample.dave
                Sample.photo) in
  let log := w_log (sys_world s) in
  all_done s = true
  /\ count is_mark_read log = 2%nat
  /\ count (is_send Sample.photo) log = 2%nat
  /\ count (is_unlink_call Sample.photo) log = 2%nat
  /\ count (is_deletion Sample.photo) log = 1%nat.
Proof. vm_compute. repeat split. Qed.

(** C9, amended. Two concurrent reads of a view-once attachment by its
    sender or receiver never delete the backing file more than once, under
    every schedule and whatever the clock shows at each turn; both requests
    have answered once each has been given eight turns; and once both have
    answered, the file has been deleted exactly once and is gone. Nothing
    serialises the two requests on the flag, which each of them reads and
    then writes. *)
Theorem view_once_deleted_once (st : Store) (fs : FileSystem) (userId file : string)
    (m : Message) (schedule : Schedule) :
  existsSync fs file = true ->
  findFirst (media_where file) (messages st) = Some m ->
  m_senderId m = userId \/ m_receiverId m = Some userId ->
  is_view_once m = true ->
  let s := run schedule (readers 2 st fs userId file) in
  (count (is_deletion file) (w_log (sys_world s)) <= 1)%nat
  /\ ((8 <= turns 0 schedule)%nat -> (8 <= turns 1 schedule)%nat ->
      all_done s = true)
  /\ (all_done s = true ->
      count (is_deletion file) (w_log (sys_world s)) = 1%nat
      /\ existsSync (w_fs (sys_world s)) file = false).
Proof.
  intros Hfile Hfind Hparty Honce s.
  assert (Hinv : view_once_invariant st userId file m s).
  { apply view_once_invariant_run; try assumption.
    apply (@view_once_invariant_init st fs userId file m); assumption. }
  pose proof Hinv as (_ & Hdel & _). split; [|split].
  - destruct Hdel as [[_ ->]|[_ ->]]; lia.
  - apply readers_answer.
  - intro Hdone.
    pose proof (view_once_invariant_done Hinv Hdone) as Hgone.
    destruct Hdel as [[Hx _]|[_ ->]]; [congruence | auto].
Qed.

(** The amended statement at the two lockstep requests of [dave]. *)
Lemma view_once_deleted_once_witness :
  let s := run Sample.lockstep
             (readers 2 (Sample.media_store 9000) [Sample.photo] Sample.dave
                Sample.photo) in
  all_done s = true
  /\ count (is_deletion Sample.photo) (w_log (sys_world s)) = 1%nat
  /\ existsSync (w_fs (sys_world s)) Sample.photo = false.
Proof.
  intro s. split; [vm_compute; reflexivity|].
  apply (@view_once_deleted_once (Sample.media_store 9000) [Sample.photo] Sample.dave
           Sample.photo (Sample.attachment 9000) Sample.lockstep);
    try reflexivity.
  right. reflexivity.
Defined.

(** ** The envelope codec *)

Lemma list_ind3 {A} (P : list A -> Prop) :
  P [] -> (forall a, P [a]) -> (forall a b, P [a; b]) ->
  (forall a b c l, P l -> P (a :: b :: c :: l)) ->
  forall l, P l.
Proof.
  intros H0 H1 H2 H3 l.
  enough (H : forall n l, (length l <= n)%nat -> P l) by (apply (H (length l)); lia).
  clear l. induction n as [|n IH]; intros l Hl.
  - destruct l; [exact H0 | simpl in Hl; lia].
  - destruct l as [|a [|b [|c l]]]; auto.
    apply H3. apply IH. simpl in Hl. lia.
Qed.

Lemma base64_value_char (s : Sextet) : base64_value (base64_char s) = Some s.
Proof.
  destruct s as [[[[[b5 b4] b3] b2] b1] b0].
  destruct b5, b4, b3, b2, b1, b0; vm_compute; reflexivity.
Qed.

Lemma base64_char_plain (s : Sextet) : plain_char (base64_char s) = true.
Proof.
  destruct s as [[[[[b5 b4] b3] b2] b1] b0].
  destruct b5, b4, b3, b2, b1, b0; vm_compute; reflexivity.
Qed.

Lemma base64_value_padding : base64_value "="%char = None.
Proof. vm_compute. reflexivity. Qed.

Lemma bytes_of_sextets (a b c : ascii) :
  byte1 (sextet1 a) (sextet2 a b) = a
  /\ byte2 (sextet2 a b) (sextet3 b c) = b
  /\ byte3 (sextet3 b c) (sextet4 c) = c.
Proof. destruct a, b, c. repeat split. Qed.

(** [Buffer.from(buf.toString('base64'), 'base64')] is [buf]. *)
Lemma base64_decode_encode (buf : Buffer) : base64_decode (base64_encode buf) = buf.
Proof.
  induction buf as [|a|a b|a b c rest IH] using list_ind3.
  - reflexivity.
  - cbn [base64_encode base64_decode].
    rewrite !base64_value_char, base64_value_padding.
    destruct (bytes_of_sextets a zero zero) as (-> & _). reflexivity.
  - cbn [base64_encode base64_decode].
    rewrite !base64_value_char, base64_value_padding.
    destruct (bytes_of_sextets a b zero) as (-> & -> & _). reflexivity.
  - cbn [base64_encode base64_decode quad].
    rewrite !base64_value_char, IH.
    destruct (bytes_of_sextets a b c) as (-> & -> & ->). reflexivity.
Qed.

Lemma base64_encode_plain (buf : Buffer) : plain (base64_encode buf) = true.
Proof.
  induction buf as [|a|a b|a b c rest IH] using list_ind3;
    cbn [base64_encode quad plain]; rewrite ?base64_char_plain, ?IH; reflexivity.
Qed.

(** The text written by [update] followed by the text written by [final]
    is the base64 text of the whole ciphertext. *)
Lemma decoder_write_end (buf : Buffer) :
  (fst (decoder_write buf) ++ decoder_end (snd (decoder_write buf)))%string
  = base64_encode buf.
Proof.
  unfold decoder_end.
  induction buf as [|a|a b|a b c rest IH] using list_ind3; try reflexivity.
  cbn [decoder_write base64_encode]. destruct (decoder_write rest) as [out kept].
  cbn [fst snd] in *. unfold quad. cbn [String.append]. now rewrite IH.
Qed.

Lemma read_string_plain (v rest : string) :
  plain v = true ->
  read_string (v ++ String quotation_mark rest) = Some (v, rest).
Proof.
  induction v as [|c v IH]; intro Hv.
  - reflexivity.
  - cbn [plain] in Hv. apply andb_true_iff in Hv. destruct Hv as [Hc Hv].
    unfold plain_char in Hc. apply andb_true_iff in Hc. destruct Hc as [Hq Hb].
    apply negb_true_iff in Hq, Hb.
    cbn [String.append read_string]. rewrite Hq, Hb, (IH Hv). reflexivity.
Qed.

Lemma read_quoted_JSON_string (v rest : string) :
  plain v = true ->
  read_quoted (JSON_string v ++ rest) = Some (v, rest).
Proof.
  intro Hv. unfold JSON_string, read_quoted. cbn [String.append].
  rewrite Ascii.eqb_refl.
  replace ((v ++ String quotation_mark "") ++ rest)%string
    with (v ++ String quotation_mark rest)%string.
  - now apply read_string_plain.
  - induction v as [|c v IH]; [reflexivity|].
    cbn [plain] in Hv. apply andb_true_iff in Hv.
    cbn [String.append]. f_equal. apply IH. tauto.
Qed.

Lemma string_app_assoc (a b c : string) : ((a ++ b) ++ c = a ++ (b ++ c))%string.
Proof. induction a as [|x a IH]; [reflexivity|]. cbn [String.append]. now rewrite IH. Qed.

Lemma parse_members_JSON_members (o : JsObject) (fuel : nat) :
  o <> [] -> plain_members o -> (length o <= fuel)%nat ->
  parse_members fuel (JSON_members o ++ "}")%string = Some o.
Proof.
  revert fuel. induction o as [|[k v] o IH]; intros fuel Hne Hp Hf; [contradiction|].
  apply Forall_cons_iff in Hp. destruct Hp as [[Hk Hv] Hp]. cbn [fst snd] in Hk, Hv.
  destruct fuel as [|fuel]; [simpl in Hf; lia|].
  cbn [parse_members]. destruct o as [|kv o].
  - cbn [JSON_members]. rewrite !string_app_assoc.
    rewrite read_quoted_JSON_string by assumption. cbn [String.append].
    rewrite read_quoted_JSON_string by assumption. reflexivity.
  - change (JSON_members ((k, v) :: kv :: o))
      with (JSON_string k ++ ":" ++ JSON_string v ++ "," ++ JSON_members (kv :: o))%string.
    rewrite !string_app_assoc.
    rewrite read_quoted_JSON_string by assumption. cbn [String.append].
    rewrite read_quoted_JSON_string by assumption.
    rewrite IH; [reflexivity | discriminate | assumption | simpl in *; lia].
Qed.

Lemma string_length_app (a b : string) :
  String.length (a ++ b) = (String.length a + String.length b)%nat.
Proof. induction a as [|x a IH]; [reflexivity|]. cbn. now rewrite IH. Qed.

Lemma length_le_JSON_members (o : JsObject) :
  (length o <= String.length (JSON_members o ++ "}"))%nat.
Proof.
  induction o as [|[k v] o IH]; [simpl; lia|].
  destruct o as [|kv o].
  - simpl. lia.
  - change (JSON_members ((k, v) :: kv :: o))
      with (JSON_string k ++ ":" ++ JSON_string v ++ "," ++ JSON_members (kv :: o))%string.
    rewrite !string_length_app in *.
    cbn [String.length Datatypes.length] in *. lia.
Qed.

(** [JSON.parse(JSON.stringify(o))] reads back the members of [o]. *)
Lemma JSON_parse_stringify (o : JsObject) :
  o <> [] -> plain_members o -> JSON_parse (JSON_stringify o) = Some o.
Proof.
  intros Hne Hp. unfold JSON_stringify.
  destruct o as [|[k v] o]; [contradiction|].
  assert (E : exists t, (JSON_members ((k, v) :: o) ++ "}")%string
                        = String quotation_mark t).
  { destruct o; cbn [JSON_members JSON_string String.append]; eauto. }
  destruct E as [t E].
  pose proof (parse_members_JSON_members Hne Hp
                (length_le_JSON_members ((k, v) :: o))) as H.
  cbn [String.append]. rewrite E in *. exact H.
Qed.

(** *** The ['utf8'] encoding *)

Lemma byte_value_byte (n : Z) : (0 <= n < 256)%Z -> byte_value (byte n) = n.
Proof.
  intro H. unfold byte_value, byte. rewrite N_ascii_embedding by lia. lia.
Qed.

(** Arithmetic with quotients and remainders by constants. *)
Ltac arith := Z.div_mod_to_equations; lia.

Ltac decide_tests :=
  repeat match goal with
    | |- context [Z.leb ?a ?b] => destruct (Z.leb_spec a b); try lia
    | |- context [Z.ltb ?a ?b] => destruct (Z.ltb_spec a b); try lia
    | |- context [Z.eqb ?a ?b] => destruct (Z.eqb_spec a b); try lia
    end.

Ltac decode_step :=
  cbn [decode_bytes]; unfold decode_byte at 1;
  cbn [u8_needed u8_lower u8_upper u8_point u8_start]; unfold lead_byte;
  decide_tests; cbn [andb app].

Lemma decode_1 (a : Z) (rest : list Z) :
  (0 <= a < 128)%Z ->
  decode_bytes u8_start (a :: rest) = a :: decode_bytes u8_start rest.
Proof. intro H. decode_step. reflexivity. Qed.

Lemma decode_2 (a b : Z) (rest : list Z) :
  (2 <= a < 32)%Z -> (0 <= b < 64)%Z ->
  decode_bytes u8_start (0xC0 + a :: 0x80 + b :: rest)%Z
  = units_of_point (a * 64 + b) ++ decode_bytes u8_start rest.
Proof.
  intros Ha Hb. decode_step. decode_step.
  replace (0xC0 + a - 0xC0)%Z with a by lia.
  replace (0x80 + b - 0x80)%Z with b by lia. reflexivity.
Qed.

Lemma decode_3 (a b c : Z) (rest : list Z) :
  (0 <= a < 16)%Z -> (0 <= b < 64)%Z -> (0 <= c < 64)%Z ->
  (a = 0 -> 32 <= b)%Z -> (a = 13 -> b < 32)%Z ->
  decode_bytes u8_start (0xE0 + a :: 0x80 + b :: 0x80 + c :: rest)%Z
  = units_of_point ((a * 64 + b) * 64 + c) ++ decode_bytes u8_start rest.
Proof.
  intros Ha Hb Hc H0 H13. decode_step; decode_step; decode_step;
  replace (0xE0 + a - 0xE0)%Z with a by lia;
  replace (0x80 + b - 0x80)%Z with b by lia;
  replace (0x80 + c - 0x80)%Z with c by lia; reflexivity.
Qed.

Lemma decode_4 (a b c d : Z) (rest : list Z) :
  (0 <= a < 5)%Z -> (0 <= b < 64)%Z -> (0 <= c < 64)%Z -> (0 <= d < 64)%Z ->
  (a = 0 -> 16 <= b)%Z -> (a = 4 -> b < 16)%Z ->
  decode_bytes u8_start (0xF0 + a :: 0x80 + b :: 0x80 + c :: 0x80 + d :: rest)%Z
  = units_of_point (((a * 64 + b) * 64 + c) * 64 + d) ++ decode_bytes u8_start rest.
Proof.
  intros Ha Hb Hc Hd H0 H4. decode_step; decode_step; decode_step; decode_step;
  replace (0xF0 + a - 0xF0)%Z with a by lia;
  replace (0x80 + b - 0x80)%Z with b by lia;
  replace (0x80 + c - 0x80)%Z with c by lia;
  replace (0x80 + d - 0x80)%Z with d by lia; reflexivity.
Qed.

Lemma decode_point (cp : Z) (rest : list Z) :
  scalar cp ->
  decode_bytes u8_start (map byte_value (encode_point cp) ++ rest)
  = units_of_point cp ++ decode_bytes u8_start rest.
Proof.
  intros [Hr Hs]. unfold encode_point.
  destruct (Z.ltb_spec cp 0x80); [|destruct (Z.ltb_spec cp 0x800);
                                   [|destruct (Z.ltb_spec cp 0x10000)]];
    cbn [map app]; rewrite !byte_value_byte by arith.
  - rewrite decode_1 by lia. unfold units_of_point. decide_tests. reflexivity.
  - rewrite decode_2 by arith. f_equal. f_equal. arith.
  - rewrite decode_3 by arith. f_equal. f_equal. arith.
  - rewrite decode_4 by arith. f_equal. f_equal. arith.
Qed.

Lemma surrogate_tests (u : Z) :
  (high_surrogate u = true <-> (0xD800 <= u <= 0xDBFF)%Z)
  /\ (low_surrogate u = true <-> (0xDC00 <= u <= 0xDFFF)%Z).
Proof.
  unfold high_surrogate, low_surrogate. rewrite !andb_true_iff, !Z.leb_le. tauto.
Qed.

Lemma units_of_unit (u : Z) : code_unit u -> units_of_point u = [u].
Proof. intro H. unfold units_of_point, code_unit in *. decide_tests. reflexivity. Qed.

Lemma units_of_pair (hi lo : Z) :
  high_surrogate hi = true -> low_surrogate lo = true ->
  scalar (pair_point hi lo) /\ units_of_point (pair_point hi lo) = [hi; lo].
Proof.
  intros Hh Hl. apply surrogate_tests in Hh. apply surrogate_tests in Hl.
  unfold scalar, units_of_point, pair_point. split; [lia|].
  decide_tests. f_equal; [|f_equal]; arith.
Qed.

Lemma scalar_unit (u : Z) :
  code_unit u -> high_surrogate u = false -> low_surrogate u = false -> scalar u.
Proof.
  intros Hu Hh Hl. unfold scalar, code_unit in *. split; [lia|]. intro.
  destruct (Z.le_gt_cases u 0xDBFF).
  - assert (high_surrogate u = true) by (apply surrogate_tests; lia). congruence.
  - assert (low_surrogate u = true) by (apply surrogate_tests; lia). congruence.
Qed.

Lemma utf8_decode_app (cp : Z) (buf : Buffer) :
  scalar cp ->
  utf8_decode (encode_point cp ++ buf) = units_of_point cp ++ utf8_decode buf.
Proof.
  intro H. unfold utf8_decode. rewrite map_app. now apply decode_point.
Qed.

Lemma utf8_decode_encode (t : Text) :
  is_text t -> utf8_decode (utf8_encode t) = toWellFormed t.
Proof.
  enough (H : (is_text t -> utf8_decode (utf8_encode t) = toWellFormed t)
              /\ forall u, is_text (u :: t) ->
                           utf8_decode (utf8_encode (u :: t)) = toWellFormed (u :: t))
    by apply H.
  assert (Hrep : scalar replacement_character) by (unfold scalar, replacement_character; lia).
  assert (Hrepu : units_of_point replacement_character = [replacement_character])
    by reflexivity.
  induction t as [|v t [IH1 IH2]].
  - split; [reflexivity|]. intros u Hu. apply Forall_inv in Hu.
    cbn [utf8_encode toWellFormed].
    destruct (high_surrogate u) eqn:Hh.
    + rewrite <- (app_nil_r (encode_point _)), utf8_decode_app by exact Hrep. reflexivity.
    + destruct (low_surrogate u) eqn:Hl.
      * rewrite utf8_decode_app by exact Hrep. reflexivity.
      * rewrite utf8_decode_app, units_of_unit by
          (try exact Hu; now apply scalar_unit).
        reflexivity.
  - split; [intro Ht; apply IH2; exact Ht|].
    intros u Hu. pose proof (Forall_inv Hu) as Hu0. apply Forall_inv_tail in Hu.
    pose proof (Forall_inv Hu) as Hv0. pose proof (Forall_inv_tail Hu) as Ht.
    change (utf8_encode (u :: v :: t)) with
      (if high_surrogate u then
         if low_surrogate v then encode_point (pair_point u v) ++ utf8_encode t
         else encode_point replacement_character ++ utf8_encode (v :: t)
       else if low_surrogate u
            then encode_point replacement_character ++ utf8_encode (v :: t)
            else encode_point u ++ utf8_encode (v :: t)).
    change (toWellFormed (u :: v :: t)) with
      (if high_surrogate u then
         if low_surrogate v then u :: v :: toWellFormed t
         else replacement_character :: toWellFormed (v :: t)
       else if low_surrogate u then replacement_character :: toWellFormed (v :: t)
            else u :: toWellFormed (v :: t)).
    destruct (high_surrogate u) eqn:Hh; [destruct (low_surrogate v) eqn:Hlv|
                                         destruct (low_surrogate u) eqn:Hl].
    + destruct (units_of_pair u v Hh Hlv) as [Hs Hunits].
      rewrite utf8_decode_app, Hunits, IH1 by assumption. reflexivity.
    + rewrite utf8_decode_app, Hrepu, IH2 by assumption. reflexivity.
    + rewrite utf8_decode_app, Hrepu, IH2 by assumption. reflexivity.
    + assert (Hs : scalar u) by now apply scalar_unit.
      rewrite utf8_decode_app, units_of_unit, IH2 by assumption. reflexivity.
Qed.

Lemma toWellFormed_isWellFormed (t : Text) :
  isWellFormed t = true -> toWellFormed t = t.
Proof.
  enough (H : (isWellFormed t = true -> toWellFormed t = t)
              /\ forall u, isWellFormed (u :: t) = true -> toWellFormed (u :: t) = u :: t)
    by apply H.
  induction t as [|v t [IH1 IH2]].
  - split; [reflexivity|]. intro u. cbn. destruct (high_surrogate u); [discriminate|].
    destruct (low_surrogate u); [discriminate | reflexivity].
  - split; [apply IH2|]. intro u.
    change (isWellFormed (u :: v :: t)) with
      (if high_surrogate u then low_surrogate v && isWellFormed t
       else negb (low_surrogate u) && isWellFormed (v :: t)).
    change (toWellFormed (u :: v :: t)) with
      (if high_surrogate u then
         if low_surrogate v then u :: v :: toWellFormed t
         else replacement_character :: toWellFormed (v :: t)
       else if low_surrogate u then replacement_character :: toWellFormed (v :: t)
            else u :: toWellFormed (v :: t)).
    destruct (high_surrogate u).
    + destruct (low_surrogate v); [|discriminate]. cbn [andb]. intro H.
      now rewrite IH1.
    + destruct (low_surrogate u); [discriminate|]. cbn [andb negb]. intro H.
      now rewrite IH2.
Qed.

(** *** encryptMessage and decryptMessage *)

Section Envelope.

Context {N : NodeCrypto} {L : NodeCryptoLaws N}.

(** C8, amended. For every plaintext [p], every 256-bit key [k] and every
    nonce [iv] drawn by [randomBytes(16)], [encryptMessage] returns an
    envelope, and [decryptMessage] of that envelope under [k] returns [p]
    with U+FFFD in the place of every surrogate that is not part of a pair:
    it returns [p] itself when [p] is well-formed. *)
Theorem decryptMessage_encryptMessage (p : Text) (k iv : Buffer) :
  is_text p -> is_aes_key k -> length iv = 16%nat ->
  exists envelope,
    encryptMessage iv p k = Returns envelope
    /\ decryptMessage envelope k = Returns (toWellFormed p)
    /\ (isWellFormed p = true -> decryptMessage envelope k = Returns p).
Proof.
  intros Hp Hk Hiv.
  destruct (gcm_correct k iv (utf8_encode p) Hk Hiv) as (c & t & Henc & Hdec).
  unfold encryptMessage. rewrite Henc.
  pose proof (decoder_write_end c) as Hw.
  destruct (decoder_write c) as [written kept]. cbn [fst snd] in Hw. rewrite Hw.
  eexists. split; [reflexivity|].
  assert (H : decryptMessage
                (base64_encode
                   (list_ascii_of_string
                      (JSON_stringify
                         [("iv", base64_encode iv); ("authTag", base64_encode t);
                          ("encryptedData", base64_encode c)]))) k
              = Returns (toWellFormed p)).
  { unfold decryptMessage.
    rewrite base64_decode_encode, string_of_list_ascii_of_string.
    rewrite JSON_parse_stringify.
    - cbn [get_property String.eqb Ascii.eqb Bool.eqb].
      rewrite !base64_decode_encode, Hdec, utf8_decode_encode by exact Hp.
      reflexivity.
    - discriminate.
    - repeat constructor; cbn [fst snd]; apply base64_encode_plain. }
  split; [exact H|]. intro Hwf. rewrite H. now rewrite toWellFormed_isWellFormed.
Qed.

End Envelope.

Lemma toy_crypto_laws : NodeCryptoLaws toy_crypto.
Proof.
  split. intros key iv data Hk _. exists (rev data), iv. cbn.
  rewrite Hk, String.eqb_refl, rev_involutive. auto.
Qed.

(** C8, the claim as stated fails: a string that ends in the first half of
    a surrogate pair is a plaintext, and does not come back. Written as
    ['utf8'] the lone surrogate becomes the bytes of U+FFFD, so the envelope
    holds the bytes of another string, which is what decryption returns. *)
Lemma lone_surrogate_not_recovered :
  is_text Sample.cut_note
  /\ utf8_encode [0xD83D%Z] = [byte 0xEF; byte 0xBF; byte 0xBD]
  /\ utf8_decode [byte 0xEF; byte 0xBF; byte 0xBD] = [0xFFFD%Z]
  /\ exists envelope,
       @encryptMessage toy_crypto Sample.nonce Sample.cut_note Sample.key
         = Returns envelope
       /\ @decryptMessage toy_crypto envelope Sample.key
          = Returns (text_of_string "caf" ++ [0xE9; 0x20; 0xFFFD]%Z)
       /\ Sample.cut_note <> text_of_string "caf" ++ [0xE9; 0x20; 0xFFFD]%Z.
Proof.
  split; [repeat constructor; unfold code_unit; cbn; lia|].
  split; [reflexivity|]. split; [reflexivity|].
  eexists. split; [reflexivity|]. split; [vm_compute; reflexivity | discriminate].
Qed.

(** The amended statement at the toy cipher, a 32-byte key, a 16-byte
    nonce and a well-formed note. *)
Lemma decryptMessage_encryptMessage_witness :
  exists envelope,
    @encryptMessage toy_crypto Sample.nonce Sample.note Sample.key = Returns envelope
    /\ @decryptMessage toy_crypto envelope Sample.key = Returns Sample.note.
Proof.
  destruct (@decryptMessage_encryptMessage toy_crypto toy_crypto_laws Sample.note
              Sample.key Sample.nonce) as (envelope & H1 & _ & H2);
    [repeat constructor; unfold code_unit; cbn; lia | reflexivity | reflexivity |].
  exists envelope. split; [exact H1 | apply H2; reflexivity].
Defined.

(** * Further properties of the handlers *)

From Stdlib Require Import Sorted Permutation.

(** ** Deleting messages *)

Lemma find_id_eq (id : string) (ms : list Message) (m : Message) :
  findUnique_message id ms = Some m -> m_id m = id /\ In m ms.
Proof.
  intro H. apply find_some in H. destruct H as [Hin H].
  apply String.eqb_eq in H. auto.
Qed.

(** X1. [deleteMessage] is a tombstone reserved to the sender: a request by
    anyone else changes nothing, and a request by the sender only raises
    the [deleted] flag of the messages with that id; no message is removed
    and no other column changes. *)
Theorem deleteMessage_tombstone (st : Store) (userId messageId : string) :
  let st' := snd (deleteMessage st userId messageId) in
  (forall message,
      findUnique_message messageId (messages st) = Some message ->
      m_senderId message <> userId ->
      deleteMessage st userId messageId
        = (Fail 403 "Not authorized to delete this message", st))
  /\ Forall2 (fun m m' => m' = m \/ (m_id m = messageId /\ m' = set_deleted m))
       (messages st) (messages st')
  /\ users st' = users st /\ reactions st' = reactions st /\ groups st' = groups st.
Proof.
  cbn zeta. unfold deleteMessage. split; [|].
  - intros message Hf Hs. rewrite Hf.
    destruct (String.eqb_spec (m_senderId message) userId); [contradiction|reflexivity].
  - destruct (findUnique_message messageId (messages st)) as [message|].
    + destruct (negb (String.eqb (m_senderId message) userId)); cbn [snd].
      * split; [|auto]. induction (messages st); constructor; auto.
      * split; [|auto]. unfold set_messages, update_by_id. cbn [messages].
        induction (messages st) as [|m ms IH]; cbn [map]; constructor; [|exact IH].
        destruct (String.eqb_spec (m_id m) messageId); auto.
    + cbn [snd]. split; [|auto]. induction (messages st); constructor; auto.
Qed.

(** The statement at [dave] asking to delete the message [carol] sent. *)
Lemma deleteMessage_tombstone_witness :
  deleteMessage Sample.store Sample.dave (m_id Sample.direct)
  = (Fail 403 "Not authorized to delete this message", Sample.store).
Proof.
  apply (proj1 (deleteMessage_tombstone Sample.store Sample.dave (m_id Sample.direct))
           Sample.direct eq_refl).
  intro H. vm_compute in H. discriminate H.
Defined.

(** X2. A message deleted by its sender is in the result of no later
    conversation fetch: no direct fetch and no group fetch on the new store
    returns a message with that id, whoever asks and whenever. *)
Theorem deleted_message_never_fetched (st st' : Store) (userId messageId : string)
    (status : nat) :
  deleteMessage st userId messageId = (Json status tt, st') ->
  forall now cur other,
    (forall m, In m (fetched (fst (getMessagesByUser st' now cur other))) ->
               m_id m <> messageId)
    /\ (forall m, In m (map gm_message (group_rows (getGroupMessages st' now cur other))) ->
                  m_id m <> messageId).
Proof.
  unfold deleteMessage.
  destruct (findUnique_message messageId (messages st)) as [message|]; [|discriminate].
  destruct (negb (String.eqb (m_senderId message) userId)); [discriminate|].
  intros [= _ <-] now cur other.
  assert (Hdel : forall m,
             In m (messages (set_messages st
                               (update_by_id messageId set_deleted (messages st)))) ->
             m_deleted m = false -> m_id m <> messageId).
  { unfold set_messages, update_by_id. cbn [messages]. intros m Hin Hd Hid.
    apply in_map_iff in Hin. destruct Hin as (m0 & E & _).
    destruct (String.eqb_spec (m_id m0) messageId) as [E0|N].
    - subst m. discriminate.
    - subst m0. contradiction. }
  split.
  - intros m Hin. apply getMessagesByUser_fetched in Hin.
    destruct Hin as (Hin & Hd & _). now apply Hdel.
  - intros m Hin.
    destruct (getGroupMessages _ now cur other) as [s data| |] eqn:E;
      simpl in Hin; try contradiction.
    rewrite (getGroupMessages_rows _ _ _ _ E) in Hin.
    rewrite in_orderBy_createdAt in Hin. unfold findMany in Hin.
    rewrite filter_In in Hin. destruct Hin as [Hin Hm].
    apply getGroupMessages_where_matches in Hm. destruct Hm as (_ & Hd & _).
    now apply Hdel.
Qed.

(** The statement at [carol] deleting the message sent to [dave]. *)
Lemma deleted_message_never_fetched_witness :
  exists st',
    deleteMessage Sample.store Sample.carol (m_id Sample.direct) = (Json 200 tt, st')
    /\ forall m, In m (fetched (fst (getMessagesByUser st' 5000 Sample.dave Sample.carol)))
                 -> m_id m <> m_id Sample.direct.
Proof.
  eexists. split; [reflexivity|].
  eapply (@deleted_message_never_fetched Sample.store _ Sample.carol
            (m_id Sample.direct) 200 eq_refl 5000 Sample.dave Sample.carol).
Defined.

(** ** Reactions *)

Lemma NoDup_map_inj {A B} (f : A -> B) (l : list A) (a b : A) :
  NoDup (map f l) -> In a l -> In b l -> f a = f b -> a = b.
Proof.
  induction l as [|x l IH]; intros Hnd Ha Hb E; [contradiction|].
  cbn [map] in Hnd. apply NoDup_cons_iff in Hnd. destruct Hnd as [Hx Hnd].
  destruct Ha as [->|Ha], Hb as [->|Hb]; auto.
  - exfalso. apply Hx. rewrite E. now apply in_map.
  - exfalso. apply Hx. rewrite <- E. now apply in_map.
Qed.

Lemma NoDup_snoc {A} (l : list A) (x : A) :
  NoDup l -> ~ In x l -> NoDup (l ++ [x]).
Proof.
  induction l as [|y l IH]; intros Hnd Hx; cbn [app].
  - constructor; [intros [] | constructor].
  - apply NoDup_cons_iff in Hnd. destruct Hnd as [Hy Hnd]. constructor.
    + intro Hin. apply in_app_or in Hin. destruct Hin as [Hin|[->|[]]]; [auto|].
      apply Hx. now left.
    + apply IH; [assumption|]. intro Hin. apply Hx. now right.
Qed.

Lemma reaction_of_key (messageId userId : string) (r : Reaction) :
  reaction_of messageId userId r = true <-> reaction_key r = (messageId, userId).
Proof.
  unfold reaction_of, reaction_key. rewrite andb_true_iff, !String.eqb_eq.
  split; [intros [-> ->]; reflexivity | intros [= -> ->]; auto].
Qed.

(** The reaction that [addReaction] looks for. *)
Lemma existing_reaction_spec (st : Store) (message : Message) (userId : string) :
  find (fun r => String.eqb (r_userId r) userId) (message_reactions st message)
  = find (reaction_of (m_id message) userId) (reactions st).
Proof.
  unfold message_reactions, reaction_of.
  induction (reactions st) as [|r rs IH]; [reflexivity|]. cbn [filter find].
  destruct (String.eqb (r_messageId r) (m_id message)); cbn [find andb]; [|exact IH].
  destruct (String.eqb (r_userId r) userId); [reflexivity | exact IH].
Qed.

Lemma participant_of_canReact (st : Store) (m : Message) (userId : string) :
  canReact st m userId = true -> participant st m userId.
Proof.
  unfold canReact, participant.
  destruct (eq_id (m_receiverId m) userId) eqn:Hr; simpl.
  - apply eq_id_true in Hr. auto.
  - destruct (String.eqb_spec (m_senderId m) userId) as [E|_]; [auto|].
    destruct (truthy (m_groupId m)); [|discriminate].
    destruct (m_groupId m) as [gid|]; [|discriminate].
    destruct (findUnique_group gid (groups st)) as [g|] eqn:Hg; [|discriminate].
    intro H. apply includes_In in H. right. right. exists gid, g. auto.
Qed.

(** The outcomes of [addReaction]. *)
Lemma addReaction_cases (st : Store) (newId userId messageId : string)
    (emoji : option string) (r : Response unit) (st' : Store) :
  addReaction st newId userId messageId emoji = (r, st') ->
  (exists status msg, r = Fail status msg /\ st' = st) \/
  (exists message e,
      r = Json 200 tt /\ emoji = Some e /\ e <> "" /\
      findUnique_message messageId (messages st) = Some message /\
      canReact st message userId = true /\
      ((exists existing,
           find (reaction_of messageId userId) (reactions st) = Some existing /\
           st' = set_reactions st
                   (map (fun x => if String.eqb (r_id x) (r_id existing)
                                  then set_emoji e x else x) (reactions st)))
       \/ (find (reaction_of messageId userId) (reactions st) = None /\
           existsb (fun x => String.eqb (r_id x) newId) (reactions st) = false /\
           st' = set_reactions st
                   (reactions st ++ [mkReaction newId messageId userId e])))).
Proof.
  unfold addReaction. destruct emoji as [e|]; cbn [truthy]; [|intros [= <- <-]; eauto].
  destruct (String.eqb_spec e "") as [->|Hne]; cbn [negb]; [intros [= <- <-]; eauto|].
  destruct (findUnique_message messageId (messages st)) as [message|] eqn:Hf;
    [|intros [= <- <-]; eauto].
  destruct (canReact st message userId) eqn:Hc; cbn [negb]; [|intros [= <- <-]; eauto].
  rewrite existing_reaction_spec.
  destruct (find_id_eq _ _ Hf) as [Hid _]. rewrite Hid.
  destruct (find (reaction_of messageId userId) (reactions st)) as [existing|] eqn:Hx.
  - intros [= <- <-]. right. exists message, e. repeat split; auto.
    left. exists existing. auto.
  - destruct (existsb (fun x => String.eqb (r_id x) newId) (reactions st)) eqn:Hid';
      intros [= <- <-]; [eauto|].
    right. exists message, e. repeat split; auto.
Qed.

(** X3. [addReaction] keeps at most one reaction for each message and
    user, and an accepted reaction replaces the earlier one: afterwards the
    user has a reaction on the message, and it carries the new emoji. *)
Theorem addReaction_one_per_user (st : Store) (newId userId messageId : string)
    (emoji : option string) :
  reaction_unique (reactions st) ->
  let r := fst (addReaction st newId userId messageId emoji) in
  let st' := snd (addReaction st newId userId messageId emoji) in
  reaction_unique (reactions st')
  /\ (NoDup (map r_id (reactions st)) -> NoDup (map r_id (reactions st')))
  /\ (forall status, r = Json status tt ->
        exists x, find (reaction_of messageId userId) (reactions st') = Some x
                  /\ Some (r_emoji x) = emoji
                  /\ forall y, In y (reactions st') ->
                               reaction_of messageId userId y = true -> y = x).
Proof.
  intros Hu r st'. subst r st'.
  destruct (addReaction st newId userId messageId emoji) as [r st'] eqn:E.
  cbn [fst snd]. apply addReaction_cases in E.
  destruct E as [(s & msg & -> & ->)|(message & e & -> & -> & Hne & Hf & Hc & Hcase)].
  { split; [assumption | split; [auto | discriminate]]. }
  assert (Huniq : forall rs x,
             reaction_unique rs ->
             find (reaction_of messageId userId) rs = Some x ->
             forall y, In y rs -> reaction_of messageId userId y = true -> y = x).
  { intros rs x Hrs Hx y Hy Hry. apply find_some in Hx. destruct Hx as [Hin Hrx].
    apply reaction_of_key in Hrx, Hry.
    apply (NoDup_map_inj reaction_key rs); [exact Hrs | assumption | assumption | congruence]. }
  destruct Hcase as [(existing & Hx & ->)|(Hnone & Hfresh & ->)];
    unfold set_reactions; cbn [reactions].
  - assert (Hkeys : map reaction_key
                      (map (fun x => if String.eqb (r_id x) (r_id existing)
                                     then set_emoji e x else x) (reactions st))
                    = map reaction_key (reactions st)).
    { rewrite map_map. apply map_ext. intro x.
      destruct (String.eqb (r_id x) (r_id existing)); reflexivity. }
    assert (Hu' : reaction_unique
                    (map (fun x => if String.eqb (r_id x) (r_id existing)
                                   then set_emoji e x else x) (reactions st))).
    { unfold reaction_unique. now rewrite Hkeys. }
    split; [exact Hu'|]. split.
    { intro Hid. rewrite map_map. erewrite map_ext; [exact Hid|].
      intro x. cbn. destruct (String.eqb (r_id x) (r_id existing)); reflexivity. }
    intros status _.
    pose proof (find_some _ _ Hx) as [Hin Hrx].
    assert (Hin' : In (set_emoji e existing)
                     (map (fun x => if String.eqb (r_id x) (r_id existing)
                                    then set_emoji e x else x) (reactions st))).
    { apply in_map_iff. exists existing. rewrite String.eqb_refl. auto. }
    destruct (find (reaction_of messageId userId)
                (map (fun x => if String.eqb (r_id x) (r_id existing)
                               then set_emoji e x else x) (reactions st)))
      as [x|] eqn:Hx'.
    + exists x. pose proof (Huniq _ _ Hu' Hx') as Hall.
      assert (E : set_emoji e existing = x) by (apply Hall; assumption).
      subst x. auto.
    + exfalso. eapply find_none in Hx'; [|exact Hin'].
      change (reaction_of messageId userId (set_emoji e existing))
        with (reaction_of messageId userId existing) in Hx'. congruence.
  - assert (Hu' : reaction_unique (reactions st ++ [mkReaction newId messageId userId e])).
    { unfold reaction_unique. rewrite map_app. cbn [map].
      apply NoDup_snoc; [assumption|].
      intro Hin. apply in_map_iff in Hin. destruct Hin as (y & Hk & Hy).
      eapply find_none in Hnone; [|exact Hy].
      change (reaction_key (mkReaction newId messageId userId e))
        with (messageId, userId) in Hk.
      apply reaction_of_key in Hk. congruence. }
    split; [exact Hu'|]. split.
    { intro Hid. rewrite map_app. cbn [map r_id]. apply NoDup_snoc; [assumption|].
      intro Hin. apply in_map_iff in Hin. destruct Hin as (y & Hy & Hiny).
      assert (existsb (fun x => String.eqb (r_id x) newId) (reactions st) = true).
      { apply existsb_exists. exists y. split; [assumption|]. now apply String.eqb_eq. }
      congruence. }
    intros status _.
    assert (Hin' : In (mkReaction newId messageId userId e)
                     (reactions st ++ [mkReaction newId messageId userId e])).
    { apply in_or_app. right. now left. }
    assert (Hr : reaction_of messageId userId (mkReaction newId messageId userId e) = true).
    { unfold reaction_of. cbn. now rewrite !String.eqb_refl. }
    destruct (find (reaction_of messageId userId)
                (reactions st ++ [mkReaction newId messageId userId e]))
      as [x|] eqn:Hx'.
    + exists x. pose proof (Huniq _ _ Hu' Hx') as Hall.
      assert (E : mkReaction newId messageId userId e = x) by (apply Hall; assumption).
      subst x. auto.
    + exfalso. eapply find_none in Hx'; [|exact Hin']. congruence.
Qed.

(** The statement at [dave] changing the reaction to [carol]'s message. *)
Lemma addReaction_one_per_user_witness :
  exists x,
    find (reaction_of (m_id Sample.direct) Sample.dave)
      (reactions (snd (addReaction Sample2.reacted "64f1d0000000000000000002"
                         Sample.dave (m_id Sample.direct) (Some ":heart:"))))
    = Some x
    /\ Some (r_emoji x) = Some ":heart:".
Proof.
  assert (Hu : reaction_unique (reactions Sample2.reacted)).
  { repeat constructor. simpl. tauto. }
  destruct (proj2 (proj2 (addReaction_one_per_user Sample2.reacted
                            "64f1d0000000000000000002" Sample.dave
                            (m_id Sample.direct) (Some ":heart:") Hu))
              200 eq_refl) as (x & Hx & He & _).
  exists x. split; assumption.
Defined.

(** X4. Only a participant can react: when [addReaction] answers 200 the
    message exists and the user is its sender, its direct receiver or a
    member of its group; every other answer leaves the store unchanged. *)
Theorem addReaction_participants_only (st : Store) (newId userId messageId : string)
    (emoji : option string) (r : Response unit) (st' : Store) :
  addReaction st newId userId messageId emoji = (r, st') ->
  (exists message,
      r = Json 200 tt /\
      findUnique_message messageId (messages st) = Some message /\
      participant st message userId)
  \/ ((exists status msg, r = Fail status msg) /\ st' = st).
Proof.
  intro E. apply addReaction_cases in E.
  destruct E as [(s & msg & -> & ->)|(message & e & -> & _ & _ & Hf & Hc & _)].
  - right. eauto.
  - left. exists message. repeat split; auto. now apply participant_of_canReact.
Qed.

(** The statement at [alice], who is no party to the direct message of
    [carol] and [dave]. *)
Lemma addReaction_participants_only_witness :
  addReaction Sample.store "64f1d0000000000000000002" Sample.alice
    (m_id Sample.direct) (Some ":heart:")
  = (Fail 403 "Not authorized to react to this message", Sample.store).
Proof.
  destruct (@addReaction_participants_only Sample.store "64f1d0000000000000000002"
              Sample.alice (m_id Sample.direct) (Some ":heart:")
              (Fail 403 "Not authorized to react to this message") Sample.store
              eq_refl) as [(m & E & _)|_]; [discriminate | reflexivity].
Defined.

(** X5. [removeReaction] removes the reaction of the user on the message:
    in a collection with distinct ids and at most one reaction per message
    and user, none is left afterwards and every other reaction stays; when
    the user has no reaction on the message the answer is 404 and nothing
    changes. *)
Theorem removeReaction_removes (st : Store) (userId messageId : string) :
  NoDup (map r_id (reactions st)) ->
  reaction_unique (reactions st) ->
  let r := fst (removeReaction st userId messageId) in
  let st' := snd (removeReaction st userId messageId) in
  (find (reaction_of messageId userId) (reactions st) = None ->
     r = Fail 404 "Reaction not found" /\ st' = st)
  /\ (find (reaction_of messageId userId) (reactions st) <> None ->
        r = Json 200 tt
        /\ reactions st' =
           filter (fun x => negb (reaction_of messageId userId x)) (reactions st)
        /\ find (reaction_of messageId userId) (reactions st') = None).
Proof.
  intros Hid Hu r st'. subst r st'. unfold removeReaction.
  change (fun r => String.eqb (r_messageId r) messageId && String.eqb (r_userId r) userId)
    with (reaction_of messageId userId).
  destruct (find (reaction_of messageId userId) (reactions st)) as [x|] eqn:Hx.
  - split; [discriminate|]. intros _. cbn [fst snd]. split; [reflexivity|].
    unfold set_reactions. cbn [reactions].
    apply find_some in Hx. destruct Hx as [Hin Hrx].
    assert (E : filter (fun y => negb (String.eqb (r_id y) (r_id x))) (reactions st)
                = filter (fun y => negb (reaction_of messageId userId y)) (reactions st)).
    { apply filter_ext_in. intros y Hy. f_equal.
      destruct (reaction_of messageId userId y) eqn:Hry.
      - assert (y = x).
        { apply reaction_of_key in Hrx, Hry.
          apply (NoDup_map_inj reaction_key (reactions st));
            [exact Hu | assumption | assumption | congruence]. }
        subst y. apply String.eqb_refl.
      - apply String.eqb_neq. intro Hxy.
        assert (y = x)
          by (apply (NoDup_map_inj r_id (reactions st)); assumption).
        subst y. congruence. }
    rewrite E. split; [reflexivity|].
    apply (find_filter_negb (reaction_of messageId userId)).
  - split; [auto | intro H; now contradiction H].
Qed.

(** The statement at [dave] withdrawing a reaction. *)
Lemma removeReaction_removes_witness :
  removeReaction Sample2.reacted Sample.dave (m_id Sample.direct)
    = (Json 200 tt, set_reactions Sample2.reacted []).
Proof.
  assert (Hid : NoDup (map r_id (reactions Sample2.reacted))).
  { repeat constructor. simpl. tauto. }
  assert (Hu : reaction_unique (reactions Sample2.reacted)).
  { repeat constructor. simpl. tauto. }
  destruct (proj2 (removeReaction_removes Sample2.reacted Sample.dave
                     (m_id Sample.direct) Hid Hu)) as (_ & _ & _);
    [discriminate | reflexivity].
Defined.

(** X6. Adding a reaction and removing it again is a round trip: when the
    user had no reaction on the message and [addReaction] answers 200, the
    following [removeReaction] answers 200 and restores the store. *)
Theorem addReaction_removeReaction (st st1 : Store) (newId userId messageId : string)
    (emoji : option string) (status : nat) :
  find (reaction_of messageId userId) (reactions st) = None ->
  addReaction st newId userId messageId emoji = (Json status tt, st1) ->
  removeReaction st1 userId messageId = (Json 200 tt, st).
Proof.
  intros Hnone E. apply addReaction_cases in E.
  destruct E as [(s & msg & E & _)|(message & e & _ & -> & _ & _ & _ & Hcase)];
    [discriminate|].
  destruct Hcase as [(existing & Hx & _)|(_ & Hfresh & ->)]; [congruence|].
  unfold removeReaction.
  change (fun r => String.eqb (r_messageId r) messageId && String.eqb (r_userId r) userId)
    with (reaction_of messageId userId).
  unfold set_reactions at 1. cbn [reactions].
  assert (Hfind : find (reaction_of messageId userId)
                    (reactions st ++ [mkReaction newId messageId userId e])
                  = Some (mkReaction newId messageId userId e)).
  { induction (reactions st) as [|x rs IH]; cbn [app find].
    - unfold reaction_of. cbn. now rewrite !String.eqb_refl.
    - cbn [find] in Hnone. destruct (reaction_of messageId userId x); [discriminate|].
      cbn [existsb] in Hfresh. apply orb_false_iff in Hfresh. now apply IH. }
  rewrite Hfind. f_equal. cbn [r_id].
  assert (Hfilter : filter (fun y => negb (String.eqb (r_id y) newId))
                      (reactions st ++ [mkReaction newId messageId userId e])
                    = reactions st).
  { rewrite filter_app. cbn [filter r_id]. rewrite String.eqb_refl. cbn [negb].
    rewrite app_nil_r. clear Hfind. induction (reactions st) as [|x rs IH]; [reflexivity|].
    cbn [existsb] in Hfresh. apply orb_false_iff in Hfresh. destruct Hfresh as [Hx Hrs].
    cbn [filter find] in *. rewrite Hx. cbn [negb].
    destruct (reaction_of messageId userId x); [discriminate|].
    f_equal. now apply IH. }
  unfold set_reactions. cbn [users otps messages reactions groups groupInvites nicknames].
  rewrite Hfilter. destruct st; reflexivity.
Qed.

(** The statement at [carol] reacting to a message of their own and withdrawing
    the reaction. *)
Lemma addReaction_removeReaction_witness :
  exists st1,
    addReaction Sample.store "64f1d0000000000000000002" Sample.carol
      (m_id Sample.direct) (Some ":heart:") = (Json 200 tt, st1)
    /\ removeReaction st1 Sample.carol (m_id Sample.direct) = (Json 200 tt, Sample.store).
Proof.
  eexists. split; [reflexivity|].
  apply (@addReaction_removeReaction Sample.store _ "64f1d0000000000000000002"
           Sample.carol (m_id Sample.direct) (Some ":heart:") 200); reflexivity.
Defined.

(** ** Deleting media and the expiry sweep *)

Lemma existsSync_after_unlink (fs fs' : FileSystem) (file f : string) :
  unlinkSync fs file = Some fs' ->
  existsSync fs file = true
  /\ existsSync fs' f = (if String.eqb f file then false else existsSync fs f).
Proof.
  unfold unlinkSync. destruct (existsSync fs file) eqn:E; [|discriminate].
  intros [= <-]. split; [reflexivity|]. clear E.
  unfold existsSync, includes. induction fs as [|x fs IH]; cbn [filter existsb].
  - destruct (String.eqb f file); reflexivity.
  - destruct (String.eqb x file) eqn:Hx; cbn [negb existsb]; rewrite IH;
      destruct (String.eqb f file) eqn:Hf; try reflexivity.
    + apply String.eqb_eq in Hx. apply String.eqb_neq in Hf.
      assert (E : String.eqb f x = false) by (apply String.eqb_neq; congruence).
      now rewrite E.
    + apply String.eqb_eq in Hf. apply String.eqb_neq in Hx.
      assert (E : String.eqb f x = false) by (apply String.eqb_neq; congruence).
      now rewrite E.
Qed.

Lemma update_by_id_in (id : string) (upd : Message -> Message) (ms : list Message)
    (m' : Message) :
  In m' (update_by_id id upd ms) ->
  exists m, In m ms /\ (m' = m /\ m_id m <> id \/ m' = upd m /\ m_id m = id).
Proof.
  unfold update_by_id. intro H. apply in_map_iff in H. destruct H as (m & E & Hin).
  exists m. split; [assumption|].
  destruct (String.eqb_spec (m_id m) id); subst m'; auto.
Qed.

(** X7. [deleteMedia] decides on the first stored message whose media
    reference contains the file name, and on no other. When that message
    has another sender than the caller, the answer is an error, and the store
    and the directory stay as they are; so they do for the names of
    directories. When [deleteMedia] answers 200 the name was that of a file
    in the directory, the file is gone and every other file is still there;
    the caller is the sender of that first message, if there is one, and
    the store changes only by clearing the media reference of the messages
    with its id. *)
Theorem deleteMedia_sender_only (st : Store) (fs : FileSystem) (userId file : string)
    (r : Response unit) (st' : Store) (fs' : FileSystem) :
  deleteMedia st fs userId file = (r, st', fs') ->
  (forall message,
      findFirst (media_where file) (messages st) = Some message ->
      m_senderId message <> userId ->
      (exists status msg, r = Fail status msg) /\ st' = st /\ fs' = fs)
  /\ (is_directory_name file = true ->
      (exists status msg, r = Fail status msg) /\ st' = st /\ fs' = fs)
  /\ (forall status,
        r = Json status tt ->
        In file fs
        /\ existsSync fs' file = false
        /\ (forall f, f <> file -> existsSync fs' f = existsSync fs f)
        /\ match findFirst (media_where file) (messages st) with
           | Some message =>
               m_senderId message = userId
               /\ st' = set_messages st
                          (update_by_id (m_id message) clear_media (messages st))
           | None => st' = st
           end).
Proof.
  unfold deleteMedia, existsSync_path, unlinkSync_path. intro H. split; [|split].
  - intros message Hf Hs. rewrite Hf in H.
    destruct (is_directory_name file || existsSync fs file); cbn [negb] in H;
      [|injection H as <- <- <-; eauto].
    destruct (String.eqb_spec (m_senderId message) userId); [contradiction|].
    cbn [negb] in H. injection H as <- <- <-. eauto.
  - intro Hdir. rewrite Hdir in H. cbn [orb negb] in H.
    destruct (findFirst (media_where file) (messages st)) as [message|].
    + destruct (negb (String.eqb (m_senderId message) userId));
        injection H as <- <- <-; eauto.
    + injection H as <- <- <-. eauto.
  - intros status ->.
    destruct (is_directory_name file) eqn:Hdir; cbn [orb] in H.
    { cbn [negb] in H.
      destruct (findFirst (media_where file) (messages st)) as [message|];
        [destruct (negb (String.eqb (m_senderId message) userId))|]; discriminate. }
    destruct (existsSync fs file) eqn:Hex; cbn [negb] in H; [|discriminate].
    assert (Hfs : forall fs1, unlinkSync fs file = Some fs1 ->
                    existsSync fs1 file = false
                    /\ forall f, f <> file -> existsSync fs1 f = existsSync fs f).
    { intros fs1 Hu. split.
      - destruct (@existsSync_after_unlink fs fs1 file file Hu) as [_ E].
        rewrite E. now rewrite String.eqb_refl.
      - intros f Hne. destruct (@existsSync_after_unlink fs fs1 file f Hu) as [_ E].
        rewrite E. apply String.eqb_neq in Hne. now rewrite Hne. }
    split; [now apply includes_In|].
    destruct (findFirst (media_where file) (messages st)) as [message|].
    + destruct (String.eqb_spec (m_senderId message) userId) as [Hs|_]; cbn [negb] in H;
        [|discriminate].
      destruct (unlinkSync fs file) as [fs1|] eqn:Hu; [|discriminate].
      injection H as <- <-. destruct (Hfs _ eq_refl) as [H1 H2]. subst fs'. auto.
    + destruct (unlinkSync fs file) as [fs1|] eqn:Hu; [|discriminate].
      injection H as <- <-. destruct (Hfs _ eq_refl) as [H1 H2]. subst fs'. auto.
Qed.

(** The statement at [dave], the receiver, trying to delete the attachment
    that [carol] sent to [dave]. *)
Lemma deleteMedia_sender_only_witness :
  exists status msg,
    fst (fst (deleteMedia (Sample.media_store 9000) [Sample.photo] Sample.dave
                Sample.photo))
    = Fail status msg.
Proof.
  destruct (proj1 (@deleteMedia_sender_only (Sample.media_store 9000) [Sample.photo]
                     Sample.dave Sample.photo _ _ _ eq_refl)
              (Sample.attachment 9000) eq_refl) as (H & _ & _);
    [discriminate | exact H].
Defined.

Lemma expired_media_where_matches (now : Date) (m : Message) :
  matches (expired_media_where now) m = true <->
  m_mediaUrl m <> None /\ deadline_passed now m.
Proof.
  change (expired_media_where now) with [ ("mediaUrl", NotNull); ("expiresAt", Lt now) ].
  unfold matches, deadline_passed. cbn [forallb fst snd holds]. unfold message_field. simpl.
  rewrite andb_true_r, andb_true_iff.
  destruct (m_mediaUrl m) as [url|]; destruct (m_expiresAt m) as [d|];
    rewrite ?Z.ltb_lt; split; try (intros [? ?]; discriminate).
  - intros [_ H]. split; [discriminate|]. exists d. auto.
  - intros [_ (d' & [= <-] & H)]. auto.
  - intros [_ (d' & E & _)]. discriminate.
  - intros [H _]. now contradiction H.
  - intros [H _]. now contradiction H.
Qed.

Lemma findUnique_update_by_id_any (k k' : string) (upd : Message -> Message)
    (ms : list Message) :
  (forall m, m_id (upd m) = m_id m) ->
  findUnique_message k ms <> None ->
  findUnique_message k (update_by_id k' upd ms) <> None.
Proof.
  intro Hupd. unfold findUnique_message, update_by_id.
  induction ms as [|x ms IH]; simpl; [auto|].
  assert (E : m_id (if String.eqb (m_id x) k' then upd x else x) = m_id x)
    by (destruct (String.eqb (m_id x) k'); auto).
  rewrite E. destruct (String.eqb (m_id x) k); [discriminate | exact IH].
Qed.

Lemma truthy_clear_media (m : Message) : truthy (m_mediaUrl (clear_media m)) = false.
Proof. reflexivity. Qed.

(** What the loop of the sweep does, for any list of pending messages. *)
Lemma cleanup_loop_spec (now : Date) (pending : list Message) :
  forall (n : nat) (st : Store) (fs : FileSystem) (o : Outcome nat) (st' : Store)
         (fs' : FileSystem),
    cleanup_loop pending n st fs = (o, st', fs') ->
    (* the messages are the same, some with their media reference cleared *)
    Forall2 (fun m m' => m' = m \/
                         (m' = clear_media m /\ exists p, In p pending /\ m_id p = m_id m))
      (messages st) (messages st')
    (* no file appears *)
    /\ (forall f, existsSync fs' f = true -> existsSync fs f = true)
    (* on return, every message that was pending with a media reference is cleared *)
    /\ (forall k, o = Returns k ->
          (k <= n + length pending)%nat
          /\ forall m', In m' (messages st') -> truthy (m_mediaUrl m') = true ->
                        In m' (messages st) /\ ~ In m' pending).
Proof.
  induction pending as [|p pending IH]; intros n st fs o st' fs' H.
  - cbn in H. injection H as <- <- <-. split; [|split].
    + induction (messages st); constructor; auto.
    + auto.
    + intros k [= <-]. split; [cbn; lia|]. auto.
  - cbn [cleanup_loop] in H. destruct (truthy (m_mediaUrl p)) eqn:Hp.
    + destruct (is_directory_name _); [injection H as <- <- <-|].
      { split; [|split; [auto | discriminate]].
        induction (messages st); constructor; auto. }
      destruct (findUnique_message (m_id p) (messages st)); [|injection H as <- <- <-].
      2:{ split; [induction (messages st); constructor; auto|].
          split; [|discriminate].
          intros f. destruct (existsSync fs _) eqn:Hex; cbn [fst]; [|auto].
          destruct (unlinkSync fs _) as [fs1|] eqn:Hu; [|auto].
          destruct (@existsSync_after_unlink _ _ _ f Hu) as [_ E]. rewrite E.
          destruct (String.eqb f _); [discriminate | auto]. }
      apply IH in H. destruct H as (H1 & H2 & H3).
      unfold set_messages in H1, H3. cbn [messages] in H1, H3. split; [|split].
      * clear - H1. unfold update_by_id in H1. revert H1.
        generalize (messages st'). induction (messages st) as [|m ms IHm];
          intros ms' H; inversion H; subst; constructor.
        -- destruct (String.eqb_spec (m_id m) (m_id p)) as [E|N].
           ++ right. split.
              ** destruct H2 as [->|[-> _]]; reflexivity.
              ** exists p. split; [now left | auto].
           ++ destruct H2 as [->|[-> (q & Hq & Hid)]]; [now left|].
              right. split; [reflexivity|]. exists q. split; [now right | auto].
        -- now apply IHm.
      * intros f Hf. apply H2 in Hf. revert Hf.
        destruct (existsSync fs _) eqn:Hex; cbn [fst]; [|auto].
        destruct (unlinkSync fs _) as [fs1|] eqn:Hu; [|auto].
        destruct (@existsSync_after_unlink _ _ _ f Hu) as [_ E]. rewrite E.
        destruct (String.eqb f _); [discriminate | auto].
      * intros k Hk. destruct (H3 k Hk) as [Hle Hm]. split.
        { cbn [length]. destruct (existsSync fs _); cbn [snd] in Hle; lia. }
        intros m' Hin Ht. destruct (Hm m' Hin Ht) as [Hin0 Hnp].
        apply update_by_id_in in Hin0.
        destruct Hin0 as (m0 & Hm0 & [[-> Hne]|[-> _]]).
        -- split; [assumption|]. intros [->|Hpp]; [now apply Hne | contradiction].
        -- rewrite truthy_clear_media in Ht. discriminate.
    + apply IH in H. destruct H as (H1 & H2 & H3). split; [|split].
      * clear - H1. revert H1. generalize (messages st').
        induction (messages st) as [|m ms IHm];
          intros ms' H; inversion H; subst; constructor.
        -- destruct H2 as [->|[-> (q & Hq & Hid)]]; [now left|].
           right. split; [reflexivity|]. exists q. split; [now right | auto].
        -- now apply IHm.
      * assumption.
      * intros k Hk. destruct (H3 k Hk) as [Hle Hm]. split; [cbn [length]; lia|].
        intros m' Hin Ht. destruct (Hm m' Hin Ht) as [Hin0 Hnp].
        split; [assumption|]. intros [->|Hpp]; [congruence | contradiction].
Qed.

Lemma Forall2_In_l {A B} (R : A -> B -> Prop) (l : list A) (l' : list B) (a : A) :
  Forall2 R l l' -> In a l -> exists b, In b l' /\ R a b.
Proof.
  induction 1 as [|x y l l' Hxy _ IH]; intros Hin; [contradiction|].
  destruct Hin as [->|Hin].
  - exists y. split; [now left | assumption].
  - destruct (IH Hin) as (b & Hb & Hr). exists b. split; [now right | assumption].
Qed.

Lemma cleanup_loop_returns (pending : list Message) :
  forall (n : nat) (st : Store) (fs : FileSystem),
    (forall p, In p pending -> findUnique_message (m_id p) (messages st) <> None) ->
    (forall p url, In p pending -> m_mediaUrl p = Some url ->
                   is_directory_name (basename url) = false) ->
    exists k, fst (fst (cleanup_loop pending n st fs)) = Returns k.
Proof.
  induction pending as [|p pending IH]; intros n st fs Hk Hd.
  - exists n. reflexivity.
  - cbn [cleanup_loop]. destruct (truthy (m_mediaUrl p)) eqn:Hp.
    + destruct (m_mediaUrl p) as [url|] eqn:Hurl; [|discriminate].
      rewrite (Hd p url (or_introl eq_refl) Hurl).
      destruct (findUnique_message (m_id p) (messages st)) eqn:Hf.
      * apply IH.
        -- intros q Hq. unfold set_messages. cbn [messages].
           apply findUnique_update_by_id_any; [reflexivity|]. apply Hk. now right.
        -- intros q u Hq. apply Hd. now right.
      * exfalso. apply (Hk p (or_introl eq_refl)). exact Hf.
    + apply IH.
      * intros q Hq. apply Hk. now right.
      * intros q u Hq. apply Hd. now right.
Qed.

(** X8. The expiry sweep. It removes no message and adds no file; it
    changes a message only by clearing its media reference. When it
    returns, no message whose deadline has passed holds a media reference any
    more, and the count returned is at most the number of messages. With
    distinct message ids, a message whose deadline has not passed is left
    as it is. The sweep returns whenever no expired media reference names a
    directory. *)
Theorem cleanupExpiredMedia_sweeps (st : Store) (fs : FileSystem) (now : Date)
    (o : Outcome nat) (st' : Store) (fs' : FileSystem) :
  cleanupExpiredMedia st fs now = (o, st', fs') ->
  Forall2 (fun m m' => m' = m \/ m' = clear_media m) (messages st) (messages st')
  /\ (forall f, In f fs' -> In f fs)
  /\ (forall k, o = Returns k ->
        (k <= length (messages st))%nat
        /\ forall m, In m (messages st') -> ~ stale_media now m)
  /\ (NoDup (map m_id (messages st)) ->
      forall m, In m (messages st) -> ~ deadline_passed now m -> In m (messages st'))
  /\ ((forall m url, In m (messages st) -> deadline_passed now m ->
                     m_mediaUrl m = Some url ->
                     is_directory_name (basename url) = false) ->
      exists k, o = Returns k).
Proof.
  unfold cleanupExpiredMedia. intro H.
  pose proof (cleanup_loop_spec now _ _ _ _ H) as (H1 & H2 & H3).
  assert (Hpending : forall p, In p (findMany (expired_media_where now) (messages st)) <->
                               In p (messages st) /\ m_mediaUrl p <> None
                               /\ deadline_passed now p).
  { intro p. unfold findMany. rewrite filter_In, expired_media_where_matches. tauto. }
  split; [|split; [|split; [|split]]].
  - eapply Forall2_impl; [|exact H1]. cbn. intros a b [E|[E _]]; auto.
  - intros f Hf. apply includes_In. apply H2. now apply includes_In.
  - intros k Hk. destruct (H3 k Hk) as [Hle Hm]. split.
    + cbn [Nat.add] in Hle. unfold findMany in Hle.
      pose proof (filter_length_le (matches (expired_media_where now)) (messages st)).
      lia.
    + intros m Hin [Hpass Ht]. destruct (Hm m Hin Ht) as [Hin0 Hnp].
      apply Hnp. apply Hpending. split; [assumption|]. split; [|assumption].
      destruct (m_mediaUrl m); [discriminate | discriminate].
  - intros Hnd m Hin Hnot.
    destruct (@Forall2_In_l _ _ _ _ _ m H1 Hin) as (m' & Hin' & [->|[_ (p & Hp & Hid)]]);
      [assumption|].
    apply Hpending in Hp. destruct Hp as (Hp & _ & Hpass).
    assert (p = m) by (apply (NoDup_map_inj m_id (messages st)); assumption).
    subst p. contradiction.
  - intro Hd.
    destruct (@cleanup_loop_returns
                (findMany (expired_media_where now) (messages st)) 0 st fs)
      as [k Hk].
    + intros p Hp. apply Hpending in Hp. apply In_findUnique_message. tauto.
    + intros p url Hp Hurl. apply Hpending in Hp. destruct Hp as (Hp & _ & Hpass).
      now apply (Hd p url).
    + rewrite H in Hk. exists k. exact Hk.
Qed.

(** The statement at a store with an expired attachment and a keepsake:
    the sweep deletes one file and clears one message. *)
Lemma cleanupExpiredMedia_sweeps_witness :
  cleanupExpiredMedia Sample2.attic Sample2.attic_files 5000
  = (Returns 1%nat,
     set_messages Sample2.attic [clear_media (Sample.attachment 3000); Sample2.keepsake],
     [Sample2.drawing])
  /\ forall m,
       In m [clear_media (Sample.attachment 3000); Sample2.keepsake] ->
       ~ stale_media 5000 m.
Proof.
  split; [vm_compute; reflexivity|].
  apply (proj1 (proj2 (proj2 (@cleanupExpiredMedia_sweeps Sample2.attic
                                 Sample2.attic_files 5000 _ _ _ eq_refl)))
           1%nat eq_refl).
Defined.

Lemma cleanup_loop_files (now : Date) (pending : list Message) :
  forall (n : nat) (st : Store) (fs : FileSystem) (k : nat) (st' : Store)
         (fs' : FileSystem),
    cleanup_loop pending n st fs = (Returns k, st', fs') ->
    forall p url, In p pending -> m_mediaUrl p = Some url -> url <> "" ->
                  existsSync fs' (basename url) = false.
Proof.
  induction pending as [|p pending IH]; intros n st fs k st' fs' H q url Hq Hurl Hne;
    [contradiction|].
  cbn [cleanup_loop] in H. destruct (truthy (m_mediaUrl p)) eqn:Hp.
  - destruct (is_directory_name _) eqn:Hdir; [discriminate|].
    destruct (findUnique_message (m_id p) (messages st)); [|discriminate].
    destruct Hq as [->|Hq]; [|eapply IH; eassumption].
    rewrite Hurl in H.
    pose proof (cleanup_loop_spec now _ _ _ _ H) as (_ & H2 & _).
    destruct (existsSync fs' (basename url)) eqn:Hex; [|reflexivity].
    apply H2 in Hex. revert Hex.
    destruct (existsSync fs (basename url)) eqn:Hfs; cbn [fst]; [|congruence].
    destruct (unlinkSync fs (basename url)) as [fs1|] eqn:Hu.
    + destruct (@existsSync_after_unlink _ _ _ (basename url) Hu) as [_ E].
      rewrite E, String.eqb_refl. discriminate.
    + unfold unlinkSync in Hu. rewrite Hfs in Hu. discriminate.
  - destruct Hq as [->|Hq]; [|eapply IH; eassumption].
    rewrite Hurl in Hp. cbn in Hp. apply negb_false_iff, String.eqb_eq in Hp.
    contradiction.
Qed.

(** X9. When the sweep returns, the backing file of every message whose
    deadline has passed is gone: the file named by the last segment of its
    media reference is no longer in the directory. *)
Theorem cleanupExpiredMedia_deletes_files (st : Store) (fs : FileSystem) (now : Date)
    (k : nat) (st' : Store) (fs' : FileSystem) :
  cleanupExpiredMedia st fs now = (Returns k, st', fs') ->
  forall m url,
    In m (messages st) -> deadline_passed now m ->
    m_mediaUrl m = Some url -> url <> "" ->
    ~ In (basename url) fs'.
Proof.
  unfold cleanupExpiredMedia. intros H m url Hin Hpass Hurl Hne Hfile.
  apply includes_In in Hfile.
  assert (Hp : In m (findMany (expired_media_where now) (messages st))).
  { unfold findMany. apply filter_In. split; [assumption|].
    apply expired_media_where_matches. split; [congruence | assumption]. }
  pose proof (cleanup_loop_files now _ _ _ _ H m Hp Hurl Hne) as Hgone.
  unfold existsSync in Hgone. congruence.
Qed.

(** The statement at the expired attachment and its file. *)
Lemma cleanupExpiredMedia_deletes_files_witness :
  ~ In Sample.photo [Sample2.drawing].
Proof.
  change Sample.photo
    with (basename "/api/media/0b5c2a52-7c1e-4a57-9f43-1d2e8f6a9c10.jpg").
  apply (@cleanupExpiredMedia_deletes_files Sample2.attic Sample2.attic_files 5000
           1%nat _ _ eq_refl (Sample.attachment 3000));
    [now left | exists 3000%Z; split; [reflexivity | lia] | reflexivity | discriminate].
Defined.

(** ** Media that has been consumed *)

(** X10. Once a fetch of a file has taken the view-once branch or the
    expiry branch of [getMedia], on the first message that refers to the
    file name, the file is gone: every later fetch of it, by anyone and on
    any store, is answered 404 "Media not found". The name is that of a
    file, not of a directory. *)
Theorem getMedia_consumed_is_gone (st : Store) (fs : FileSystem) (now : Date)
    (userId file : string) (r : Response unit) (st' : Store) (fs' : FileSystem)
    (m : Message) :
  is_directory_name file = false ->
  getMedia st fs now userId file = (r, st', fs') ->
  findFirst (media_where file) (messages st) = Some m ->
  hasAccess st m userId = true ->
  is_expired now m = true \/ is_view_once m = true ->
  forall st2 now2 userId2,
    getMedia st2 fs' now2 userId2 file = (Fail 404 "Media not found", st2, fs').
Proof.
  unfold getMedia at 1. intros _ H Hf Ha Hcase. rewrite Hf, Ha in H.
  destruct (existsSync fs file) eqn:Hex; cbn [negb] in H.
  - pose proof (existsSync_unlinkSync fs file) as Hu. rewrite Hex in Hu.
    destruct Hu as (fs1 & Hu & Hgone). rewrite Hu in H.
    assert (fs' = fs1).
    { destruct (is_expired now m); [congruence|].
      destruct Hcase as [Hc|Hc]; [discriminate|]. rewrite Hc in H. congruence. }
    subst fs'. intros st2 now2 userId2. unfold getMedia. now rewrite Hgone.
  - injection H as <- <- <-. intros st2 now2 userId2. unfold getMedia. now rewrite Hex.
Qed.

(** The statement at [dave] fetching the view-once attachment, and
    [carol] fetching it afterwards. *)
Lemma getMedia_consumed_is_gone_witness :
  exists st' fs',
    getMedia (Sample.media_store 9000) [Sample.photo] 5000 Sample.dave Sample.photo
      = (SendFile Sample.photo, st', fs')
    /\ getMedia st' fs' 6000 Sample.carol Sample.photo
       = (Fail 404 "Media not found", st', fs').
Proof.
  eexists. eexists. split; [reflexivity|].
  apply (@getMedia_consumed_is_gone (Sample.media_store 9000) [Sample.photo] 5000
           Sample.dave Sample.photo _ _ _ (Sample.attachment 9000) eq_refl eq_refl
           eq_refl eq_refl (or_intror eq_refl)).
Defined.

(** ** Groups, members and nicknames *)

Lemma findUnique_group_spec (k : string) (gs : list Group) (g : Group) :
  findUnique_group k gs = Some g -> g_id g = k /\ In g gs.
Proof.
  intro H. apply find_some in H. destruct H as [Hin H].
  apply String.eqb_eq in H. auto.
Qed.

Lemma findUnique_group_In (gs : list Group) (g : Group) :
  NoDup (map g_id gs) -> In g gs -> findUnique_group (g_id g) gs = Some g.
Proof.
  intros Hnd Hin. unfold findUnique_group.
  destruct (find (fun x => String.eqb (g_id x) (g_id g)) gs) as [x|] eqn:Hx.
  - apply find_some in Hx. destruct Hx as [Hx E]. apply String.eqb_eq in E.
    f_equal. apply (NoDup_map_inj g_id gs); assumption.
  - eapply find_none in Hx; [|exact Hin]. rewrite String.eqb_refl in Hx. discriminate.
Qed.

Lemma findUnique_group_none (k : string) (gs : list Group) :
  findUnique_group k gs = None <-> ~ In k (map g_id gs).
Proof.
  unfold findUnique_group. split.
  - intros H Hin. apply in_map_iff in Hin. destruct Hin as (g & E & Hin).
    eapply find_none in H; [|exact Hin]. rewrite E, String.eqb_refl in H. discriminate.
  - intro H. destruct (find _ gs) as [g|] eqn:Hg; [|reflexivity].
    apply find_some in Hg. destruct Hg as [Hin E]. apply String.eqb_eq in E.
    exfalso. apply H. rewrite <- E. now apply in_map.
Qed.

Lemma update_group_ids (k : string) (upd : Group -> Group) (gs : list Group) :
  (forall g, g_id (upd g) = g_id g) ->
  map g_id (update_group k upd gs) = map g_id gs.
Proof.
  intro Hupd. unfold update_group. rewrite map_map. apply map_ext.
  intro g. destruct (String.eqb (g_id g) k); auto.
Qed.

Lemma findUnique_update_group (k k' : string) (upd : Group -> Group) (gs : list Group) :
  (forall g, g_id (upd g) = g_id g) ->
  findUnique_group k' (update_group k upd gs)
  = option_map (fun g => if String.eqb (g_id g) k then upd g else g)
      (findUnique_group k' gs).
Proof.
  intro Hupd. unfold findUnique_group, update_group.
  induction gs as [|g gs IH]; [reflexivity|]. cbn [map find].
  assert (E : g_id (if String.eqb (g_id g) k then upd g else g) = g_id g)
    by (destruct (String.eqb (g_id g) k); auto).
  rewrite E. destruct (String.eqb (g_id g) k'); [reflexivity | exact IH].
Qed.

(** Updating the group [k] of a well-formed store keeps the groups well
    formed when the update of that group is well formed. *)
Lemma update_group_ok (st : Store) (k : string) (upd : Group -> Group) (group : Group) :
  groups_ok st ->
  findUnique_group k (groups st) = Some group ->
  (forall g, g_id (upd g) = g_id g) ->
  group_ok (upd group) ->
  groups_ok (set_groups st (update_group k upd (groups st))).
Proof.
  intros [Hnd Hall] Hf Hupd Hok. unfold groups_ok, set_groups. cbn [groups].
  rewrite update_group_ids by assumption. split; [assumption|].
  destruct (findUnique_group_spec _ _ Hf) as [Hid Hin].
  unfold update_group. apply Forall_forall. intros g' Hg'.
  apply in_map_iff in Hg'. destruct Hg' as (g & <- & Hg).
  destruct (String.eqb_spec (g_id g) k) as [E|N].
  - assert (g = group) by (apply (NoDup_map_inj g_id (groups st)); congruence).
    now subst g.
  - rewrite Forall_forall in Hall. auto.
Qed.

(** ... and keeps a membership that the update of that group keeps. *)
Lemma update_group_member_of (st : Store) (k : string) (upd : Group -> Group)
    (group : Group) (gid u : string) :
  findUnique_group k (groups st) = Some group ->
  (forall g, g_id (upd g) = g_id g) ->
  (gid = k -> In u (g_memberIds group) -> In u (g_memberIds (upd group))) ->
  member_of st gid u ->
  member_of (set_groups st (update_group k upd (groups st))) gid u.
Proof.
  intros Hgroup Hupd Hkeep (g & Hf & Hin). unfold member_of, set_groups. cbn [groups].
  rewrite findUnique_update_group by assumption. rewrite Hf. cbn [option_map].
  eexists. split; [reflexivity|].
  destruct (findUnique_group_spec _ _ Hf) as [Hid _].
  destruct (String.eqb_spec (g_id g) k) as [E|N]; [|assumption].
  assert (gid = k) by congruence. subst gid.
  assert (g = group) by congruence. subst g. auto.
Qed.

Lemma member_of_set_nicknames (st : Store) (ns : list MemberNickname) (gid u : string) :
  member_of (set_nicknames st ns) gid u <-> member_of st gid u.
Proof. reflexivity. Qed.

Lemma member_of_set_groupInvites (st : Store) (invites : list GroupInvite)
    (gid u : string) :
  member_of (set_groupInvites st invites) gid u <-> member_of st gid u.
Proof. reflexivity. Qed.

(** Deleting rows keeps a key column free of duplicates. *)
Lemma filter_keeps_keys_distinct {Row Key} (key : Row -> Key) (keep : Row -> bool)
    (rows : list Row) (Hrows : NoDup (map key rows)) :
  NoDup (map key (filter keep rows)).
Proof.
  induction rows as [|row rows IH]; [constructor|]. cbn [map] in Hrows.
  apply NoDup_cons_iff in Hrows. destruct Hrows as [Hrow Hrows]. cbn [filter].
  destruct (keep row); [|auto]. cbn [map]. constructor; [|auto].
  intro Hin. apply Hrow. apply in_map_iff in Hin. destruct Hin as (y & E & Hy).
  apply filter_In in Hy. rewrite <- E. apply in_map. tauto.
Qed.

Lemma In_without (u x : string) (ids : list string) :
  In x (without u ids) <-> In x ids /\ x <> u.
Proof.
  unfold without. rewrite filter_In, negb_true_iff, String.eqb_neq. tauto.
Qed.

Lemma NoDup_without (u : string) (ids : list string) :
  NoDup ids -> NoDup (without u ids).
Proof. intro H. unfold without. now apply NoDup_filter. Qed.

Lemma find_app_some {A} (p : A -> bool) (l l' : list A) (x : A) :
  find p l = Some x -> find p (l ++ l') = Some x.
Proof.
  induction l as [|y l IH]; [discriminate|]. cbn [app find].
  destruct (p y); auto.
Qed.

Lemma createGroup_ok (st : Store) (newId inviteCode : string) (expiryDate : Date)
    (adminId : string) (body : CreateGroupBody) :
  store_ok st -> store_ok (snd (createGroup st newId inviteCode expiryDate adminId body)).
Proof.
  intros Hok. unfold createGroup.
  destruct (if truthy (cg_name body) then cg_name body else None) as [name|];
    [|exact Hok].
  destruct (findUnique_group newId (groups st)) eqn:Hfresh; [exact Hok|].
  match goal with
  | |- store_ok (snd (match create_invite ?i ?l with _ => _ end)) =>
      enough (Hst1 : store_ok (set_groups st (groups st ++ [
        {| g_id := newId; g_name := name;
           g_isPrivate := match cg_isPrivate body with Some b => b | None => true end;
           g_adminId := adminId; g_memberIds := [adminId];
           g_messageExpiry :=
             if truthy_num (cg_messageExpiry body) then cg_messageExpiry body else None;
           g_allowAnonymous :=
             match cg_allowAnonymous body with Some b => b | None => false end |}]))) by
        (destruct (create_invite i l); exact Hst1)
  end.
  destruct Hok as [[Hnd Hall] [Hkeys Hmem]].
  split; split; unfold set_groups; cbn [groups nicknames].
  - rewrite map_app. cbn [map g_id]. apply NoDup_snoc; [assumption|].
    now apply findUnique_group_none.
  - apply Forall_app. split; [assumption|]. constructor; [|constructor].
    split; cbn; [now left | repeat constructor; intros []].
  - assumption.
  - eapply Forall_impl; [|exact Hmem]. intros n (g & Hf & Hin).
    exists g. split; [|assumption]. cbn [groups]. unfold findUnique_group.
    now apply find_app_some.
Qed.

Lemma joinGroup_ok (st : Store) (now : Date) (userId : string)
    (inviteCode : option string) :
  store_ok st -> store_ok (snd (joinGroup st now userId inviteCode)).
Proof.
  intros Hok. unfold joinGroup.
  destruct (if truthy inviteCode then inviteCode else None) as [code|]; [|exact Hok].
  destruct (findUnique_invite code (groupInvites st)) as [inv|]; [|exact Hok].
  destruct (findUnique_group (i_groupId inv) (groups st)) as [group|] eqn:Hf;
    [|exact Hok].
  destruct (Z.ltb (i_expiresAt inv) now); [exact Hok|].
  destruct (includes (g_memberIds group) userId) eqn:Hmem; [exact Hok|].
  cbn [snd]. destruct (findUnique_group_spec _ _ Hf) as [Hid Hin].
  rewrite Hid in *. destruct Hok as [Hg [Hkeys Hm]]. split.
  - eapply update_group_ok; [assumption | exact Hf | reflexivity|].
    pose proof Hg as [_ Hall]. rewrite Forall_forall in Hall.
    destruct (Hall group Hin) as [Ha Hnd]. split; cbn.
    + apply in_or_app. now left.
    + apply NoDup_snoc; [assumption|]. intro H. apply includes_In in H. congruence.
  - split; [exact Hkeys|]. cbn [nicknames set_groups].
    eapply Forall_impl; [|exact Hm]. intros n Hn.
    eapply update_group_member_of; [exact Hf | reflexivity | | exact Hn].
    intros _ H. cbn. apply in_or_app. now left.
Qed.

(** Removing a user other than the admin from the group, and their
    nickname in it: the common part of [leaveGroup] and [removeMember]. *)
Lemma remove_from_group_ok (st : Store) (groupId u : string) (group : Group) :
  store_ok st ->
  findUnique_group groupId (groups st) = Some group ->
  g_adminId group <> u ->
  let st1 :=
    set_groups st
      (update_group groupId (set_memberIds (without u (g_memberIds group))) (groups st)) in
  store_ok (set_nicknames st1 (delete_nicknames u groupId (nicknames st1))).
Proof.
  intros [Hg [Hkeys Hm]] Hf Hadmin st1. subst st1.
  destruct (findUnique_group_spec _ _ Hf) as [Hid Hin].
  pose proof Hg as [_ Hall]. rewrite Forall_forall in Hall.
  destruct (Hall group Hin) as [Ha Hnd]. split.
  - change (groups_ok (set_groups st
              (update_group groupId (set_memberIds (without u (g_memberIds group)))
                 (groups st)))).
    eapply update_group_ok; [assumption | exact Hf | reflexivity|]. split; cbn.
    + apply In_without. auto.
    + now apply NoDup_without.
  - split; cbn [nicknames set_nicknames set_groups].
    + unfold delete_nicknames. now apply filter_keeps_keys_distinct.
    + apply Forall_forall. intros n Hn. unfold delete_nicknames in Hn.
      apply filter_In in Hn. destruct Hn as [Hn Hkeep].
      rewrite Forall_forall in Hm. specialize (Hm n Hn).
      apply member_of_set_nicknames.
      eapply update_group_member_of; [exact Hf | reflexivity | | exact Hm].
      intros E Hmem. cbn. apply In_without. split; [assumption|].
      intro Eu. rewrite E, Eu, !String.eqb_refl in Hkeep. discriminate.
Qed.

Lemma leaveGroup_ok (st : Store) (userId groupId : string) :
  store_ok st -> store_ok (snd (leaveGroup st userId groupId)).
Proof.
  intros Hok. unfold leaveGroup.
  destruct (findUnique_group groupId (groups st)) as [group|] eqn:Hf; [|exact Hok].
  destruct (negb (includes (g_memberIds group) userId)); [exact Hok|].
  destruct (String.eqb_spec (g_adminId group) userId) as [E|N]; [exact Hok|].
  cbn [snd]. now apply remove_from_group_ok.
Qed.

Lemma removeMember_ok (st : Store) (userId groupId memberId : string) :
  store_ok st -> store_ok (snd (removeMember st userId groupId memberId)).
Proof.
  intros Hok. unfold removeMember.
  destruct (findUnique_group groupId (groups st)) as [group|] eqn:Hf; [|exact Hok].
  destruct (negb (String.eqb (g_adminId group) userId)); [exact Hok|].
  destruct (String.eqb_spec memberId (g_adminId group)) as [E|N]; [exact Hok|].
  destruct (negb (includes (g_memberIds group) memberId)); [exact Hok|].
  cbn [snd]. apply remove_from_group_ok; [assumption | assumption | congruence].
Qed.

Lemma transferOwnership_ok (st : Store) (userId groupId : string)
    (newAdminId : option string) :
  store_ok st -> store_ok (snd (transferOwnership st userId groupId newAdminId)).
Proof.
  intros Hok. unfold transferOwnership.
  destruct (if truthy newAdminId then newAdminId else None) as [new|]; [|exact Hok].
  destruct (findUnique_group groupId (groups st)) as [group|] eqn:Hf; [|exact Hok].
  destruct (negb (String.eqb (g_adminId group) userId)); [exact Hok|].
  destruct (includes (g_memberIds group) new) eqn:Hnew; [|exact Hok].
  cbn [negb snd]. destruct Hok as [Hg [Hkeys Hm]].
  destruct (findUnique_group_spec _ _ Hf) as [Hid Hin].
  pose proof Hg as [_ Hall]. rewrite Forall_forall in Hall.
  destruct (Hall group Hin) as [Ha Hnd]. split.
  - eapply update_group_ok; [assumption | exact Hf | reflexivity|]. split; cbn.
    + now apply includes_In.
    + assumption.
  - split; [exact Hkeys|]. cbn [nicknames set_groups].
    eapply Forall_impl; [|exact Hm]. intros n Hn.
    eapply update_group_member_of; [exact Hf | reflexivity | | exact Hn]. auto.
Qed.

Lemma generateGroupInvite_ok (st : Store) (now : Date) (inviteCode : string)
    (expiryDate : Date) (userId groupId : string) :
  store_ok st ->
  store_ok (snd (generateGroupInvite st now inviteCode expiryDate userId groupId)).
Proof.
  intros Hok. unfold generateGroupInvite.
  destruct (findUnique_group groupId (groups st)) as [group|]; [|exact Hok].
  destruct (negb (String.eqb (g_adminId group) userId)); [exact Hok|].
  destruct (create_invite _ _); exact Hok.
Qed.

Lemma findUnique_group_filter (k k' : string) (gs : list Group) :
  k' <> k ->
  findUnique_group k' (filter (fun g => negb (String.eqb (g_id g) k)) gs)
  = findUnique_group k' gs.
Proof.
  intro Hne. unfold findUnique_group. induction gs as [|g gs IH]; [reflexivity|].
  cbn [filter find]. destruct (String.eqb_spec (g_id g) k) as [E|N]; cbn [negb find].
  - rewrite IH. destruct (String.eqb_spec (g_id g) k'); [congruence | reflexivity].
  - destruct (String.eqb (g_id g) k'); [reflexivity | exact IH].
Qed.

Lemma deleteGroup_ok (st : Store) (userId groupId : string) :
  store_ok st -> store_ok (snd (deleteGroup st userId groupId)).
Proof.
  intros Hok. unfold deleteGroup.
  destruct (findUnique_group groupId (groups st)) as [group|]; [|exact Hok].
  destruct (negb (String.eqb (g_adminId group) userId)); [exact Hok|].
  cbn [snd]. destruct Hok as [[Hnd Hall] [Hkeys Hm]].
  unfold delete_group_cascade. split; split; cbn [groups nicknames].
  - now apply filter_keeps_keys_distinct.
  - apply Forall_forall. intros g Hg. apply filter_In in Hg.
    rewrite Forall_forall in Hall. apply Hall. tauto.
  - now apply filter_keeps_keys_distinct.
  - apply Forall_forall. intros n Hn. apply filter_In in Hn. destruct Hn as [Hn Hne].
    rewrite Forall_forall in Hm. destruct (Hm n Hn) as (g & Hf & Hin).
    exists g. split; [|assumption]. cbn [groups].
    rewrite findUnique_group_filter; [assumption|].
    apply negb_true_iff, String.eqb_neq in Hne. exact Hne.
Qed.

Lemma find_nickname_spec (ns : list MemberNickname) (u gid : string)
    (n : MemberNickname) :
  find_nickname ns u gid = Some n -> In n ns /\ nickname_key n = (u, gid).
Proof.
  intro H. apply find_some in H. destruct H as [Hin H].
  apply andb_true_iff in H. destruct H as [H1 H2].
  apply String.eqb_eq in H1, H2. unfold nickname_key. split; congruence.
Qed.

Lemma find_nickname_none (ns : list MemberNickname) (u gid : string) :
  find_nickname ns u gid = None -> ~ In (u, gid) (map nickname_key ns).
Proof.
  intros H Hin. apply in_map_iff in Hin. destruct Hin as (n & E & Hin).
  eapply find_none in H; [|exact Hin]. unfold nickname_key in E.
  injection E as E1 E2. rewrite E1, E2, !String.eqb_refl in H. discriminate.
Qed.

Lemma update_nickname_in (u gid : string) (result : MemberNickname)
    (ns : list MemberNickname) (x : MemberNickname) :
  In x (update_nickname u gid (fun _ => result) ns) ->
  In x ns \/ (x = result /\ find_nickname ns u gid <> None).
Proof.
  unfold find_nickname. induction ns as [|n ns IH]; [contradiction|].
  cbn [update_nickname find].
  destruct (String.eqb (n_userId n) u && String.eqb (n_groupId n) gid).
  - intros [<-|H]; [right; split; [reflexivity | discriminate] | left; now right].
  - intros [<-|H]; [left; now left|].
    destruct (IH H) as [H'|H']; [left; now right | now right].
Qed.

Lemma update_nickname_keys (u gid : string) (result : MemberNickname)
    (ns : list MemberNickname) :
  nickname_key result = (u, gid) ->
  map nickname_key (update_nickname u gid (fun _ => result) ns) = map nickname_key ns.
Proof.
  intro Hk. induction ns as [|n ns IH]; [reflexivity|]. cbn [update_nickname].
  destruct (String.eqb (n_userId n) u && String.eqb (n_groupId n) gid) eqn:E.
  - cbn [map]. f_equal. rewrite Hk. apply andb_true_iff in E. destruct E as [E1 E2].
    apply String.eqb_eq in E1, E2. unfold nickname_key. congruence.
  - cbn [map]. now rewrite IH.
Qed.

Lemma setMemberNickname_ok (st : Store) (currentUserId groupId : string)
    (body : NicknameBody) :
  store_ok st -> store_ok (snd (setMemberNickname st currentUserId groupId body)).
Proof.
  intros Hok. unfold setMemberNickname.
  set (target := match (if truthy (nb_userId body) then nb_userId body else None) with
                 | Some userId => userId
                 | None => currentUserId
                 end).
  destruct (findUnique_group groupId (groups st)) as [group|] eqn:Hf; [|exact Hok].
  destruct (includes (g_memberIds group) currentUserId); cbn [negb orb]; [|exact Hok].
  destruct (includes (g_memberIds group) target) eqn:Ht; cbn [negb]; [|exact Hok].
  destruct (negb (String.eqb target currentUserId)
            && negb (String.eqb (g_adminId group) currentUserId)); [exact Hok|].
  destruct ((match nb_isVisible body with Some _ => true | None => false end)
            && negb (String.eqb (g_adminId group) currentUserId)); [exact Hok|].
  destruct Hok as [Hg [Hkeys Hm]].
  assert (Htarget : member_of st groupId target).
  { exists group. split; [assumption | now apply includes_In]. }
  destruct (find_nickname (nicknames st) target groupId) as [existing|] eqn:Hx.
  - cbn [snd]. destruct (find_nickname_spec _ _ _ Hx) as [Hin Hkey].
    match goal with
    | |- store_ok (set_nicknames st (update_nickname _ _ (fun _ => ?res) _)) =>
        set (result := res)
    end.
    assert (Hrk : nickname_key result = (target, groupId)) by exact Hkey.
    split; [exact Hg|]. split; cbn [nicknames set_nicknames].
    + now rewrite update_nickname_keys.
    + apply Forall_forall. intros x Hx'. apply member_of_set_nicknames.
      apply update_nickname_in in Hx'. destruct Hx' as [Hx'|[-> _]].
      * rewrite Forall_forall in Hm. auto.
      * injection Hrk as E1 E2. cbn [n_userId n_groupId result] in *.
        change (member_of st (n_groupId existing) (n_userId existing)).
        rewrite Forall_forall in Hm. auto.
  - destruct (nb_nickname body) as [nickname|]; [|split; [exact Hg | split; assumption]].
    cbn [snd]. split; [exact Hg|]. split; cbn [nicknames set_nicknames].
    + rewrite map_app. cbn [map]. apply NoDup_snoc; [assumption|].
      now apply find_nickname_none.
    + apply Forall_app. split.
      * eapply Forall_impl; [|exact Hm]. intros n Hn. exact Hn.
      * constructor; [|constructor]. exact Htarget.
Qed.

(** X11. The group controller keeps the store well formed: whatever
    sequence of create, join, leave, remove-member, transfer-ownership,
    new-invite, delete-group and nickname requests is served, with whatever
    arguments and by whichever users, the group ids stay distinct, the admin
    of every group stays one of its members, no member is listed twice, no
    user has two nicknames in one group, and every nickname belongs to a
    member of its group. *)
Theorem group_requests_keep_store_ok (calls : list (string * GroupRequest))
    (st : Store) :
  store_ok st -> store_ok (handle_all calls st).
Proof.
  unfold handle_all. revert st. induction calls as [|[userId req] calls IH]; intros st Hok.
  - exact Hok.
  - cbn [fold_left]. apply IH. unfold handle. cbn [fst snd].
    destruct req.
    + now apply createGroup_ok.
    + now apply joinGroup_ok.
    + now apply leaveGroup_ok.
    + now apply removeMember_ok.
    + now apply transferOwnership_ok.
    + now apply generateGroupInvite_ok.
    + now apply deleteGroup_ok.
    + now apply setMemberNickname_ok.
Qed.

Lemma sample_store_ok : store_ok Sample.store.
Proof.
  split; split; cbn.
  - repeat constructor. intros [].
  - repeat constructor; cbn; intuition discriminate.
  - repeat constructor; cbn; intuition discriminate.
  - repeat constructor; eexists; (split; [reflexivity|]); cbn; auto.
Qed.

(** The statement at five requests on the sample group. *)
Lemma group_requests_keep_store_ok_witness :
  store_ok (handle_all Sample2.calls Sample.store).
Proof.
  apply (group_requests_keep_store_ok Sample2.calls sample_store_ok).
Defined.

(** X12. The admin of a group cannot leave it: the request is answered 400
    and nothing changes. After a transfer of ownership to another member,
    the members are the same, the new admin cannot leave and the former
    admin can. *)
Theorem admin_cannot_leave (st : Store) (userId groupId : string) (group : Group) :
  findUnique_group groupId (groups st) = Some group ->
  g_adminId group = userId ->
  (exists msg, leaveGroup st userId groupId = (Fail 400 msg, st))
  /\ (forall newAdminId status st',
        In userId (g_memberIds group) ->
        newAdminId <> userId ->
        transferOwnership st userId groupId (Some newAdminId) = (Json status tt, st') ->
        findUnique_group groupId (groups st') = Some (set_adminId newAdminId group)
        /\ (exists msg, leaveGroup st' newAdminId groupId = (Fail 400 msg, st'))
        /\ (exists st2, leaveGroup st' userId groupId = (Json 200 tt, st2)
                        /\ ~ member_of st2 groupId userId)).
Proof.
  intros Hf Hadmin. split.
  - unfold leaveGroup. rewrite Hf.
    destruct (negb (includes (g_memberIds group) userId)); [eauto|].
    rewrite Hadmin, String.eqb_refl. eauto.
  - intros new status st' Hmem Hne. unfold transferOwnership.
    destruct (truthy (Some new)); [|discriminate]. rewrite Hf.
    rewrite Hadmin, String.eqb_refl. cbn [negb].
    destruct (includes (g_memberIds group) new) eqn:Hnew; [|discriminate].
    cbn [negb]. intros [= _ <-].
    assert (Hf' : findUnique_group groupId
                    (groups (set_groups st
                               (update_group groupId (set_adminId new) (groups st))))
                  = Some (set_adminId new group)).
    { cbn [groups set_groups]. rewrite findUnique_update_group by reflexivity.
      rewrite Hf. cbn [option_map].
      destruct (findUnique_group_spec _ _ Hf) as [-> _]. now rewrite String.eqb_refl. }
    split; [exact Hf'|]. split.
    + unfold leaveGroup. rewrite Hf'. cbn [g_memberIds set_adminId g_adminId].
      rewrite Hnew, String.eqb_refl. cbn [negb]. eauto.
    + unfold leaveGroup. rewrite Hf'. cbn [g_memberIds set_adminId g_adminId].
      assert (Hu : includes (g_memberIds group) userId = true) by now apply includes_In.
      rewrite Hu. cbn [negb].
      assert (Hn : String.eqb new userId = false) by now apply String.eqb_neq.
      rewrite Hn. eexists. split; [reflexivity|].
      intros (g & Hg & Hin). cbn [groups set_nicknames set_groups] in Hg.
      rewrite findUnique_update_group in Hg by reflexivity.
      rewrite findUnique_update_group in Hg by reflexivity.
      rewrite Hf in Hg. cbn [option_map] in Hg.
      destruct (findUnique_group_spec _ _ Hf) as [Hid _].
      rewrite Hid, String.eqb_refl in Hg. cbn [set_adminId g_id] in Hg.
      rewrite Hid, String.eqb_refl in Hg. injection Hg as <-.
      cbn in Hin. apply In_without in Hin. tauto.
Qed.

(** The statement at [alice], the admin of the sample group, handing it
    over to [bob]. *)
Lemma admin_cannot_leave_witness :
  (exists msg, leaveGroup Sample.store Sample.alice Sample.team
               = (Fail 400 msg, Sample.store))
  /\ exists st',
       transferOwnership Sample.store Sample.alice Sample.team (Some Sample.bob)
         = (Json 200 tt, st')
       /\ (exists msg, leaveGroup st' Sample.bob Sample.team = (Fail 400 msg, st'))
       /\ (exists st2, leaveGroup st' Sample.alice Sample.team = (Json 200 tt, st2)
                       /\ ~ member_of st2 Sample.team Sample.alice).
Proof.
  destruct (@admin_cannot_leave Sample.store Sample.alice Sample.team Sample.the_team
              eq_refl eq_refl) as [H1 H2].
  split; [exact H1|]. eexists. split; [reflexivity|].
  eapply (H2 Sample.bob 200); [cbn; auto | discriminate | reflexivity].
Defined.

(** ** Invites *)

Lemma findUnique_invite_spec (code : string) (invites : list GroupInvite)
    (inv : GroupInvite) :
  findUnique_invite code invites = Some inv -> i_inviteCode inv = code /\ In inv invites.
Proof.
  intro H. apply find_some in H. destruct H as [Hin H].
  apply String.eqb_eq in H. auto.
Qed.

(** The outcomes of [joinGroup]. *)
Lemma joinGroup_cases (st : Store) (now : Date) (userId : string)
    (inviteCode : option string) (r : Response (string * string)) (st' : Store) :
  joinGroup st now userId inviteCode = (r, st') ->
  ((exists status msg, r = Fail status msg) /\ st' = st)
  \/ (exists code inv group,
        inviteCode = Some code /\
        findUnique_invite code (groupInvites st) = Some inv /\
        findUnique_group (i_groupId inv) (groups st) = Some group /\
        (now <= i_expiresAt inv)%Z /\
        ~ In userId (g_memberIds group) /\
        r = Json 200 (g_id group, g_name group) /\
        st' = set_groups st
                (update_group (g_id group)
                   (fun g => set_memberIds (g_memberIds g ++ [userId]) g) (groups st))).
Proof.
  unfold joinGroup. destruct inviteCode as [code|]; cbn [truthy];
    [|intros [= <- <-]; left; eauto].
  destruct (negb (String.eqb code "")); [|intros [= <- <-]; left; eauto].
  destruct (findUnique_invite code (groupInvites st)) as [inv|] eqn:Hi;
    [|intros [= <- <-]; left; eauto].
  destruct (findUnique_group (i_groupId inv) (groups st)) as [group|] eqn:Hf;
    [|intros [= <- <-]; left; eauto].
  destruct (Z.ltb_spec (i_expiresAt inv) now); [intros [= <- <-]; left; eauto|].
  destruct (includes (g_memberIds group) userId) eqn:Hm;
    intros [= <- <-]; [left; eauto|].
  right. exists code, inv, group. repeat split; auto.
  intro Hin. apply includes_In in Hin. congruence.
Qed.

(** X13. Joining by invite: [joinGroup] answers 200 only for a known
    code whose deadline does not lie before the request and a user who is
    not yet a member; the user is then appended to the members of the
    invite's group, whose other members and admin are unchanged. Every other
    answer leaves the store as it is. *)
Theorem joinGroup_adds_member (st : Store) (now : Date) (userId : string)
    (inviteCode : option string) (r : Response (string * string)) (st' : Store) :
  joinGroup st now userId inviteCode = (r, st') ->
  ((exists status msg, r = Fail status msg) /\ st' = st)
  \/ (exists code inv group,
        inviteCode = Some code /\
        findUnique_invite code (groupInvites st) = Some inv /\
        (now <= i_expiresAt inv)%Z /\
        findUnique_group (i_groupId inv) (groups st) = Some group /\
        ~ In userId (g_memberIds group) /\
        r = Json 200 (i_groupId inv, g_name group) /\
        findUnique_group (i_groupId inv) (groups st')
          = Some (set_memberIds (g_memberIds group ++ [userId]) group) /\
        member_of st' (i_groupId inv) userId).
Proof.
  intro H. apply joinGroup_cases in H.
  destruct H as [H|(code & inv & group & -> & Hi & Hf & Ht & Hm & -> & ->)];
    [now left|].
  right. exists code, inv, group.
  destruct (findUnique_group_spec _ _ Hf) as [Hid _].
  assert (Hf' : findUnique_group (i_groupId inv)
                  (groups (set_groups st
                     (update_group (g_id group)
                        (fun g => set_memberIds (g_memberIds g ++ [userId]) g)
                        (groups st))))
                = Some (set_memberIds (g_memberIds group ++ [userId]) group)).
  { cbn [groups set_groups]. rewrite findUnique_update_group by reflexivity.
    rewrite Hf. cbn [option_map]. now rewrite String.eqb_refl. }
  repeat split; auto.
  - now rewrite Hid.
  - eexists. split; [exact Hf'|]. cbn. apply in_or_app. right. now left.
Qed.

(** The statement at [dave] joining the sample group with its invite. *)
Lemma joinGroup_adds_member_witness :
  exists st',
    joinGroup Sample2.invited 5000 Sample.dave (Some "a1b2c3d4e5f6")
      = (Json 200 (Sample.team, "team"), st')
    /\ member_of st' Sample.team Sample.dave.
Proof.
  eexists. split; [reflexivity|].
  destruct (@joinGroup_adds_member Sample2.invited 5000 Sample.dave
              (Some "a1b2c3d4e5f6") _ _ eq_refl)
    as [[(s & msg & E) _]|(code & inv & group & [= <-] & [= <-] & _ & _ & _ & _ & _ & H)];
    [discriminate | exact H].
Defined.

Lemma findUnique_invite_expire (code groupId : string) (now : Date)
    (invites : list GroupInvite) :
  findUnique_invite code (expire_invites groupId now invites)
  = option_map (fun i => if String.eqb (i_groupId i) groupId
                         then mkInvite (i_groupId i) (i_inviteCode i) now else i)
      (findUnique_invite code invites).
Proof.
  unfold findUnique_invite, expire_invites.
  induction invites as [|i invites IH]; [reflexivity|]. cbn [map find].
  assert (E : i_inviteCode (if String.eqb (i_groupId i) groupId
                            then mkInvite (i_groupId i) (i_inviteCode i) now else i)
              = i_inviteCode i) by (destruct (String.eqb (i_groupId i) groupId); reflexivity).
  rewrite E. destruct (String.eqb (i_inviteCode i) code); [reflexivity | exact IH].
Qed.

(** X14. A new invite invalidates the old ones: once the admin has asked
    for a new invite at time [now], a join request with an earlier code of the
    group at any later time is answered 400, whether or not the new invite
    could be stored. When the new invite is stored, its code admits every
    non-member until its expiry date. *)
Theorem generateGroupInvite_expires_old (st : Store) (now : Date) (inviteCode : string)
    (expiryDate : Date) (userId groupId : string) (group : Group) :
  findUnique_group groupId (groups st) = Some group ->
  g_adminId group = userId ->
  let r := fst (generateGroupInvite st now inviteCode expiryDate userId groupId) in
  let st' := snd (generateGroupInvite st now inviteCode expiryDate userId groupId) in
  (forall old inv later joiner,
      findUnique_invite old (groupInvites st) = Some inv ->
      i_groupId inv = groupId ->
      (now < later)%Z ->
      exists msg, joinGroup st' later joiner (Some old) = (Fail 400 msg, st'))
  /\ (forall status data later joiner,
        r = Json status data ->
        inviteCode <> "" ->
        (later <= expiryDate)%Z ->
        ~ In joiner (g_memberIds group) ->
        exists st2, joinGroup st' later joiner (Some inviteCode)
                    = (Json 200 (groupId, g_name group), st2)
                    /\ member_of st2 groupId joiner).
Proof.
  intros Hf Hadmin r st'. subst r st'. unfold generateGroupInvite.
  rewrite Hf, Hadmin, String.eqb_refl. cbn [negb].
  destruct (findUnique_group_spec _ _ Hf) as [Hid _].
  unfold create_invite. cbn [groupInvites set_groupInvites i_inviteCode].
  rewrite findUnique_invite_expire.
  split.
  - intros old inv later joiner Hold Hg Hlater. unfold joinGroup. cbn [truthy].
    destruct (negb (String.eqb old "")); [|eauto].
    assert (Hfind : forall extra,
               findUnique_invite old (expire_invites groupId now (groupInvites st) ++ extra)
               = Some (mkInvite (i_groupId inv) (i_inviteCode inv) now)).
    { intro extra. apply find_app_some. fold (findUnique_invite old
        (expire_invites groupId now (groupInvites st))).
      rewrite findUnique_invite_expire, Hold. cbn [option_map].
      now rewrite Hg, String.eqb_refl. }
    assert (Hlt : Z.ltb now later = true) by now apply Z.ltb_lt.
    destruct (option_map _ (findUnique_invite inviteCode (groupInvites st)));
      cbn [snd groupInvites set_groupInvites groups].
    + specialize (Hfind []). rewrite app_nil_r in Hfind. rewrite Hfind.
      cbn [i_groupId i_expiresAt]. rewrite Hg, Hf, Hlt. eauto.
    + rewrite Hfind. cbn [i_groupId i_expiresAt]. rewrite Hg, Hf, Hlt. eauto.
  - intros status data later joiner.
    destruct (option_map _ (findUnique_invite inviteCode (groupInvites st))) eqn:Hnew;
      cbn [fst snd]; [discriminate|].
    intros _ Hne Hlater Hjoiner. unfold joinGroup. cbn [truthy].
    apply String.eqb_neq in Hne. rewrite Hne. cbn [negb].
    cbn [groupInvites set_groupInvites groups].
    assert (Hfind : findUnique_invite inviteCode
                      (expire_invites groupId now (groupInvites st)
                       ++ [mkInvite groupId inviteCode expiryDate])
                    = Some (mkInvite groupId inviteCode expiryDate)).
    { unfold findUnique_invite.
      assert (Hnone : find (fun i => String.eqb (i_inviteCode i) inviteCode)
                        (expire_invites groupId now (groupInvites st)) = None).
      { fold (findUnique_invite inviteCode (expire_invites groupId now (groupInvites st))).
        rewrite findUnique_invite_expire.
        destruct (findUnique_invite inviteCode (groupInvites st)); [discriminate|].
        reflexivity. }
      revert Hnone. generalize (expire_invites groupId now (groupInvites st)).
      induction l as [|i l IH]; cbn [app find i_inviteCode].
      - now rewrite String.eqb_refl.
      - destruct (String.eqb (i_inviteCode i) inviteCode); [discriminate | exact IH]. }
    rewrite Hfind. cbn [i_groupId i_expiresAt]. rewrite Hf.
    assert (Hlt : Z.ltb expiryDate later = false) by (apply Z.ltb_ge; lia).
    rewrite Hlt.
    assert (Hm : includes (g_memberIds group) joiner = false).
    { destruct (includes (g_memberIds group) joiner) eqn:E; [|reflexivity].
      apply includes_In in E. contradiction. }
    rewrite Hm, Hid. eexists. split; [reflexivity|].
    eexists. cbn [groups set_groups]. rewrite findUnique_update_group by reflexivity.
    rewrite Hf. cbn [option_map]. rewrite Hid, String.eqb_refl.
    split; [reflexivity|]. cbn. apply in_or_app. right. now left.
Qed.

(** The statement at the admin renewing the invite of the sample group at
    time 6000, and [dave] trying the old code at time 6001. *)
Lemma generateGroupInvite_expires_old_witness :
  let st' := snd (generateGroupInvite Sample2.invited 6000 "0f9e8d7c6b5a" 610000
                    Sample.alice Sample.team) in
  exists msg,
    joinGroup st' 6001 Sample.dave (Some "a1b2c3d4e5f6") = (Fail 400 msg, st').
Proof.
  apply (proj1 (@generateGroupInvite_expires_old Sample2.invited 6000%Z "0f9e8d7c6b5a"
                  610000%Z Sample.alice Sample.team Sample.the_team eq_refl eq_refl)
           "a1b2c3d4e5f6" (mkInvite Sample.team "a1b2c3d4e5f6" 700000) 6001%Z
           Sample.dave);
    [reflexivity | reflexivity | lia].
Defined.

(** ** Removing members and groups *)

Lemma find_filter_keep {A} (p q : A -> bool) (l : list A) :
  (forall x, p x = true -> q x = true) ->
  find p (filter q l) = find p l.
Proof.
  intro H. induction l as [|x l IH]; [reflexivity|]. cbn [filter find].
  destruct (q x) eqn:Hq; cbn [find].
  - destruct (p x); [reflexivity | exact IH].
  - destruct (p x) eqn:Hp; [|exact IH]. apply H in Hp. congruence.
Qed.

(** X15. Only the admin removes members, and never themself: when
    [removeMember] answers 200 the caller is the admin, the target was a
    member other than the admin, is no member afterwards and has no nickname
    in the group any more, while the nicknames of everyone else are as
    before. Every other answer leaves the store as it is. *)
Theorem removeMember_removes (st : Store) (userId groupId memberId : string)
    (r : Response unit) (st' : Store) :
  removeMember st userId groupId memberId = (r, st') ->
  ((exists status msg, r = Fail status msg) /\ st' = st)
  \/ (exists group,
        r = Json 200 tt /\
        findUnique_group groupId (groups st) = Some group /\
        g_adminId group = userId /\ memberId <> userId /\
        In memberId (g_memberIds group) /\
        findUnique_group groupId (groups st')
          = Some (set_memberIds (without memberId (g_memberIds group)) group) /\
        ~ member_of st' groupId memberId /\
        find_nickname (nicknames st') memberId groupId = None /\
        forall u g, u <> memberId \/ g <> groupId ->
                    find_nickname (nicknames st') u g = find_nickname (nicknames st) u g).
Proof.
  unfold removeMember.
  destruct (findUnique_group groupId (groups st)) as [group|] eqn:Hf;
    [|intros [= <- <-]; left; eauto].
  destruct (String.eqb_spec (g_adminId group) userId) as [Hadmin|_]; cbn [negb];
    [|intros [= <- <-]; left; eauto].
  destruct (String.eqb_spec memberId (g_adminId group)) as [_|Hne];
    [intros [= <- <-]; left; eauto|].
  destruct (includes (g_memberIds group) memberId) eqn:Hm; cbn [negb];
    [|intros [= <- <-]; left; eauto].
  intros [= <- <-]. right. exists group.
  destruct (findUnique_group_spec _ _ Hf) as [Hid _].
  assert (Hf' : findUnique_group groupId
                  (update_group groupId
                     (set_memberIds (without memberId (g_memberIds group))) (groups st))
                = Some (set_memberIds (without memberId (g_memberIds group)) group)).
  { rewrite findUnique_update_group by reflexivity. rewrite Hf. cbn [option_map].
    now rewrite Hid, String.eqb_refl. }
  cbn [groups nicknames set_nicknames set_groups].
  repeat split; auto.
  - congruence.
  - now apply includes_In.
  - intros (g & Hg & Hin). cbn [groups set_nicknames set_groups] in Hg.
    rewrite Hf' in Hg. injection Hg as <-. cbn in Hin. apply In_without in Hin. tauto.
  - unfold find_nickname, delete_nicknames.
    apply (find_filter_negb (fun n => String.eqb (n_userId n) memberId
                                      && String.eqb (n_groupId n) groupId)).
  - intros u g Hug. unfold find_nickname, delete_nicknames.
    apply find_filter_keep. intros n Hn.
    apply andb_true_iff in Hn. destruct Hn as [H1 H2].
    apply String.eqb_eq in H1, H2. apply negb_true_iff, andb_false_iff.
    destruct Hug as [Hu|Hg]; [left | right]; apply String.eqb_neq; congruence.
Qed.

(** The statement at the admin of the sample group removing [bob]. *)
Lemma removeMember_removes_witness :
  exists st',
    removeMember Sample.store Sample.alice Sample.team Sample.bob = (Json 200 tt, st')
    /\ ~ member_of st' Sample.team Sample.bob
    /\ find_nickname (nicknames st') Sample.bob Sample.team = None.
Proof.
  eexists. split; [reflexivity|].
  destruct (@removeMember_removes Sample.store Sample.alice Sample.team Sample.bob
              _ _ eq_refl)
    as [[(s & msg & E) _]|(g & _ & _ & _ & _ & _ & _ & H1 & H2 & _)];
    [discriminate | auto].
Defined.

(** X16. Only the admin deletes a group, and the deletion cascades: when
    [deleteGroup] answers 200 the caller is the admin, and afterwards the
    group is gone together with its messages, the reactions to them, its
    invites and its nicknames; the other groups, the direct messages and the
    messages of other groups are as before. Every other answer leaves the
    store as it is. *)
Theorem deleteGroup_cascades (st : Store) (userId groupId : string)
    (r : Response unit) (st' : Store) :
  deleteGroup st userId groupId = (r, st') ->
  ((exists status msg, r = Fail status msg) /\ st' = st)
  \/ (exists group,
        r = Json 200 tt /\
        findUnique_group groupId (groups st) = Some group /\
        g_adminId group = userId /\
        findUnique_group groupId (groups st') = None /\
        (forall k, k <> groupId ->
                   findUnique_group k (groups st') = findUnique_group k (groups st)) /\
        (forall m, In m (messages st') <->
                   In m (messages st) /\ m_groupId m <> Some groupId) /\
        (forall x, In x (reactions st') ->
                   forall m, In m (messages st) -> m_id m = r_messageId x ->
                             m_groupId m <> Some groupId) /\
        (forall i, In i (groupInvites st') <->
                   In i (groupInvites st) /\ i_groupId i <> groupId) /\
        (forall n, In n (nicknames st') <->
                   In n (nicknames st) /\ n_groupId n <> groupId)).
Proof.
  unfold deleteGroup.
  destruct (findUnique_group groupId (groups st)) as [group|] eqn:Hf;
    [|intros [= <- <-]; left; eauto].
  destruct (String.eqb_spec (g_adminId group) userId) as [Hadmin|_]; cbn [negb];
    [|intros [= <- <-]; left; eauto].
  intros [= <- <-]. right. exists group. unfold delete_group_cascade.
  cbn [groups messages reactions groupInvites nicknames].
  split; [reflexivity|]. split; [reflexivity|]. split; [assumption|].
  split; [apply (find_filter_negb (fun g => String.eqb (g_id g) groupId))|].
  split; [intros k Hk; now apply findUnique_group_filter|].
  assert (Hin_group : forall m, in_group groupId m = true <-> m_groupId m = Some groupId).
  { intro m. unfold in_group. apply eq_id_true. }
  split; [|split; [|split]].
  - intro m. rewrite filter_In, negb_true_iff. rewrite <- Hin_group.
    destruct (in_group groupId m); intuition congruence.
  - intros x Hx m Hm Hid Hg. apply filter_In in Hx. destruct Hx as [_ Hx].
    apply negb_true_iff in Hx.
    assert (existsb (fun m0 => String.eqb (m_id m0) (r_messageId x))
              (filter (in_group groupId) (messages st)) = true); [|congruence].
    apply existsb_exists. exists m. split.
    + apply filter_In. split; [assumption | now apply Hin_group].
    + now apply String.eqb_eq.
  - intro i. rewrite filter_In, negb_true_iff, String.eqb_neq. tauto.
  - intro n. rewrite filter_In, negb_true_iff, String.eqb_neq. tauto.
Qed.

(** The statement at the admin deleting the sample group: the direct
    message of [carol] to [dave] is what is left of the messages. *)
Lemma deleteGroup_cascades_witness :
  exists st',
    deleteGroup Sample.store Sample.alice Sample.team = (Json 200 tt, st')
    /\ findUnique_group Sample.team (groups st') = None
    /\ forall m, In m (messages st') <->
                 In m (messages Sample.store) /\ m_groupId m <> Some Sample.team.
Proof.
  eexists. split; [reflexivity|].
  destruct (@deleteGroup_cascades Sample.store Sample.alice Sample.team _ _ eq_refl)
    as [[(s & msg & E) _]|(g & _ & _ & _ & H1 & _ & H2 & _)];
    [discriminate | auto].
Defined.

(** ** Setting nicknames *)

Lemma find_nickname_update_other (u gid u' gid' : string) (result : MemberNickname)
    (ns : list MemberNickname) :
  nickname_key result = (u, gid) ->
  u' <> u \/ gid' <> gid ->
  find_nickname (update_nickname u gid (fun _ => result) ns) u' gid'
  = find_nickname ns u' gid'.
Proof.
  intros Hk Hne. unfold find_nickname. induction ns as [|n ns IH]; [reflexivity|].
  cbn [update_nickname find].
  destruct (String.eqb (n_userId n) u && String.eqb (n_groupId n) gid) eqn:E.
  - cbn [find]. apply andb_true_iff in E. destruct E as [E1 E2].
    apply String.eqb_eq in E1, E2. unfold nickname_key in Hk. injection Hk as K1 K2.
    assert (Hr : String.eqb (n_userId result) u' && String.eqb (n_groupId result) gid'
                 = false).
    { apply andb_false_iff. destruct Hne; [left | right]; apply String.eqb_neq; congruence. }
    assert (Hn : String.eqb (n_userId n) u' && String.eqb (n_groupId n) gid' = false).
    { apply andb_false_iff. destruct Hne; [left | right]; apply String.eqb_neq; congruence. }
    now rewrite Hr, Hn.
  - cbn [find]. destruct (String.eqb (n_userId n) u' && String.eqb (n_groupId n) gid');
      [reflexivity | exact IH].
Qed.

Lemma find_nickname_update_same (u gid : string) (result : MemberNickname)
    (ns : list MemberNickname) :
  nickname_key result = (u, gid) ->
  find_nickname ns u gid <> None ->
  find_nickname (update_nickname u gid (fun _ => result) ns) u gid = Some result.
Proof.
  intros Hk. unfold find_nickname. induction ns as [|n ns IH]; [intro H; now contradiction H|].
  cbn [update_nickname find].
  destruct (String.eqb (n_userId n) u && String.eqb (n_groupId n) gid) eqn:E.
  - intros _. cbn [find]. unfold nickname_key in Hk. injection Hk as -> ->.
    now rewrite !String.eqb_refl.
  - intro H. cbn [find]. rewrite E. now apply IH.
Qed.

Lemma find_nickname_app (ns : list MemberNickname) (n : MemberNickname) (u gid : string) :
  find_nickname (ns ++ [n]) u gid =
  match find_nickname ns u gid with
  | Some x => Some x
  | None => if String.eqb (n_userId n) u && String.eqb (n_groupId n) gid
            then Some n else None
  end.
Proof.
  unfold find_nickname. induction ns as [|x ns IH]; [reflexivity|]. cbn [app find].
  destruct (String.eqb (n_userId x) u && String.eqb (n_groupId x) gid);
    [reflexivity | exact IH].
Qed.

(** X17. What a member who is not the admin can do with nicknames: only
    the own nickname in that group can change; a nickname the member already
    has keeps its visibility flag, and a new one is visible. The nicknames of
    all other users, and all nicknames in other groups, are as before. *)
Theorem setMemberNickname_by_member (st : Store) (currentUserId groupId : string)
    (body : NicknameBody) (group : Group) :
  findUnique_group groupId (groups st) = Some group ->
  g_adminId group <> currentUserId ->
  let st' := snd (setMemberNickname st currentUserId groupId body) in
  (forall u g, u <> currentUserId \/ g <> groupId ->
               find_nickname (nicknames st') u g = find_nickname (nicknames st) u g)
  /\ (forall n',
        find_nickname (nicknames st') currentUserId groupId = Some n' ->
        match find_nickname (nicknames st) currentUserId groupId with
        | Some n => n_isVisible n' = n_isVisible n
        | None => n_isVisible n' = true
        end).
Proof.
  intros Hf Hadmin st'. subst st'. unfold setMemberNickname.
  set (target := match (if truthy (nb_userId body) then nb_userId body else None) with
                 | Some userId => userId
                 | None => currentUserId
                 end).
  rewrite Hf.
  assert (Hunchanged :
    (forall u g, u <> currentUserId \/ g <> groupId ->
                 find_nickname (nicknames st) u g = find_nickname (nicknames st) u g)
    /\ (forall n',
          find_nickname (nicknames st) currentUserId groupId = Some n' ->
          match find_nickname (nicknames st) currentUserId groupId with
          | Some n => n_isVisible n' = n_isVisible n
          | None => n_isVisible n' = true
          end)).
  { split; [reflexivity|]. intros n' ->. reflexivity. }
  destruct (negb (includes (g_memberIds group) currentUserId)
            || negb (includes (g_memberIds group) target)); [exact Hunchanged|].
  apply String.eqb_neq in Hadmin. rewrite Hadmin. cbn [negb]. rewrite !andb_true_r.
  destruct (String.eqb_spec target currentUserId) as [Ht|_]; cbn [negb];
    [|exact Hunchanged].
  destruct (nb_isVisible body) as [v|]; [exact Hunchanged|]. rewrite Ht.
  destruct (find_nickname (nicknames st) currentUserId groupId) as [existing|] eqn:Hx.
  - cbn [snd nicknames set_nicknames].
    destruct (find_nickname_spec _ _ _ Hx) as [_ Hkey].
    match goal with
    | |- context [update_nickname _ _ (fun _ => ?res) _] => set (result := res)
    end.
    assert (Hrk : nickname_key result = (currentUserId, groupId)) by exact Hkey.
    split.
    + intros u g Hug. now apply find_nickname_update_other.
    + intros n'. rewrite find_nickname_update_same; [|assumption|congruence].
      intros [= <-]. reflexivity.
  - destruct (nb_nickname body) as [nickname|].
    + cbn [snd nicknames set_nicknames]. split.
      * intros u g Hug. rewrite find_nickname_app. cbn [n_userId n_groupId].
        destruct (find_nickname (nicknames st) u g); [reflexivity|].
        assert (E : String.eqb currentUserId u && String.eqb groupId g = false).
        { apply andb_false_iff.
          destruct Hug; [left | right]; apply String.eqb_neq; congruence. }
        now rewrite E.
      * intros n'. rewrite find_nickname_app, Hx. cbn [n_userId n_groupId].
        rewrite !String.eqb_refl. cbn [andb]. intros [= <-]. reflexivity.
    + cbn [snd]. split; [reflexivity|]. intros n'. rewrite Hx. discriminate.
Qed.

(** The statement at [bob], a member with a hidden alias, taking a new
    nickname: the alias changes and stays hidden. *)
Lemma setMemberNickname_by_member_witness :
  let st' := snd (setMemberNickname Sample.store Sample.bob Sample.team
                    (mkNicknameBody None (Some "ghost") None)) in
  find_nickname (nicknames st') Sample.bob Sample.team
    = Some (mkNickname Sample.bob Sample.team "ghost" false)
  /\ find_nickname (nicknames st') Sample.alice Sample.team
     = find_nickname (nicknames Sample.store) Sample.alice Sample.team.
Proof.
  intro st'. split; [reflexivity|].
  apply (proj1 (@setMemberNickname_by_member Sample.store Sample.bob Sample.team
                  (mkNicknameBody None (Some "ghost") None) Sample.the_team eq_refl
                  ltac:(discriminate))).
  left. discriminate.
Defined.

(** ** One-time codes, continued *)

Lemma findUnique_otp_filter_other (u u' : string) (os : list OtpData) :
  u' <> u ->
  findUnique_otp u' (filter (fun o => negb (String.eqb (o_userId o) u)) os)
  = findUnique_otp u' os.
Proof.
  intro Hne. unfold findUnique_otp. apply find_filter_keep. intros o Ho.
  apply String.eqb_eq in Ho. apply negb_true_iff, String.eqb_neq. congruence.
Qed.

(** X18. A one-time code is good for one use: once [verifyOTP] has
    accepted a code of a user, every further verification for that user, with
    the same or any other code, fails until a new code is saved; the codes of
    other users are not touched. *)
Theorem verifyOTP_single_use (st : Store) (userId providedOtp : string) :
  fst (verifyOTP st userId providedOtp) = true ->
  let st' := snd (verifyOTP st userId providedOtp) in
  (forall again, verifyOTP st' userId again = (false, st'))
  /\ (forall u, u <> userId -> findUnique_otp u (otps st') = findUnique_otp u (otps st)).
Proof.
  unfold verifyOTP.
  destruct (findUnique_otp userId (otps st)) as [otpData|]; [|discriminate].
  destruct (negb (String.eqb (o_otp otpData) providedOtp)); [discriminate|].
  intros _. cbn [snd]. split.
  - intro again. cbn [otps set_otps].
    assert (E : findUnique_otp userId
                  (filter (fun o => negb (String.eqb (o_userId o) userId)) (otps st))
                = None)
      by apply (find_filter_negb (fun o => String.eqb (o_userId o) userId)).
    now rewrite E.
  - intros u Hu. cbn [otps set_otps]. now apply findUnique_otp_filter_other.
Qed.

(** The statement at a code saved for [alice] and used twice. *)
Lemma verifyOTP_single_use_witness :
  let st := saveOTP 300 Sample.store 0 Sample.alice "492817" in
  let st' := snd (verifyOTP st Sample.alice "492817") in
  fst (verifyOTP st Sample.alice "492817") = true
  /\ verifyOTP st' Sample.alice "492817" = (false, st').
Proof.
  intros st st'. split; [reflexivity|].
  apply (proj1 (@verifyOTP_single_use st Sample.alice "492817" eq_refl)).
Defined.




(** ** Wrapping the message key *)

Section KeyWrap.

Context {R : NodeRsa} (publicKey privateKey : string)
        {L : NodeRsaLaws R publicKey privateKey}.

(** X20. Wrapping and unwrapping the message key is a round trip: for a
    key pair and every 256-bit key, [encryptKey] returns a base64 text, and
    [decryptKey] of that text under the private key returns the key. *)
Theorem decryptKey_encryptKey (aesKey : Buffer) :
  is_aes_key aesKey ->
  exists wrapped,
    encryptKey aesKey publicKey = Returns wrapped
    /\ plain wrapped = true
    /\ decryptKey wrapped privateKey = Returns aesKey.
Proof.
  intro Hk. destruct (rsa_correct aesKey Hk) as (c & Henc & Hdec).
  unfold encryptKey, decryptKey. rewrite Henc. eexists. split; [reflexivity|].
  split; [apply base64_encode_plain|].
  now rewrite base64_decode_encode, Hdec.
Qed.

End KeyWrap.

Lemma firstn_skipn_string (key : string) (data : Buffer) :
  string_of_list_ascii (firstn (String.length key) (list_ascii_of_string key ++ data))
    = key
  /\ skipn (String.length key) (list_ascii_of_string key ++ data) = data.
Proof.
  induction key as [|c key [IH1 IH2]]; [split; reflexivity|].
  cbn [String.length list_ascii_of_string app firstn skipn string_of_list_ascii].
  rewrite IH1. split; [reflexivity | exact IH2].
Qed.

Lemma toy_rsa_laws (key : string) : NodeRsaLaws toy_rsa key key.
Proof.
  split. intros data _. eexists. split; [reflexivity|]. cbn.
  destruct (firstn_skipn_string key data) as [E1 E2].
  now rewrite E1, E2, String.eqb_refl.
Qed.

(** The statement at the toy primitives and the sample key. *)
Lemma decryptKey_encryptKey_witness :
  exists wrapped,
    @encryptKey toy_rsa Sample.key "PEM" = Returns wrapped
    /\ @decryptKey toy_rsa wrapped "PEM" = Returns Sample.key.
Proof.
  destruct (@decryptKey_encryptKey toy_rsa "PEM" "PEM" (toy_rsa_laws "PEM") Sample.key
              eq_refl) as (w & H1 & _ & H2).
  exists w. split; assumption.
Defined.

(** ** Sending into a group *)

(** X21. What [sendMessage] stores. A stored message carries the
    authenticated caller as sender and starts unread, undelivered and not
    deleted. Its expiry deadline is the number of the request when that is
    not zero, and is then a date; zero and an absent number store no
    deadline. A message stored with a group id went to an existing group of
    which the sender is a member; it is anonymous only if that group allows
    anonymous messages, and it carries an explicit expiry deadline whenever
    the group has a default expiry. The default expiry itself is never
    applied: a request of a member that relies on it, by an absent or zero
    number, is answered 500 and stores nothing; and a request whose number
    is out of the range of dates is answered with an error and stores
    nothing. *)
Theorem sendMessage_group_rules (st : Store) (now : Date) (newId senderId : string)
    (body : SendMessageBody) :
  (forall status m st',
      sendMessage st now newId senderId body = (Json status m, st') ->
      m_senderId m = senderId /\ m_isRead m = false /\ m_isDelivered m = false
      /\ m_deleted m = false
      /\ m_expiresAt m = (if truthy_num (b_expiresAt body) then b_expiresAt body
                          else None)
      /\ (forall t, m_expiresAt m = Some t -> t <> 0%Z /\ valid_time t = true)
      /\ forall gid,
           m_groupId m = Some gid ->
           exists group,
             findUnique_group gid (groups st) = Some group
             /\ In senderId (g_memberIds group)
             /\ (m_isAnonymous m = true -> g_allowAnonymous group = true)
             /\ (truthy_num (g_messageExpiry group) = true -> m_expiresAt m <> None))
  /\ (forall gid group,
        b_groupId body = Some gid -> gid <> "" ->
        findUnique_group gid (groups st) = Some group ->
        In senderId (g_memberIds group) ->
        (b_isAnonymous body = true -> g_allowAnonymous group = true) ->
        truthy_num (g_messageExpiry group) = true ->
        truthy_num (b_expiresAt body) = false ->
        sendMessage st now newId senderId body
          = (Fail 500 "Server error sending message", st))
  /\ (forall t,
        b_expiresAt body = Some t -> valid_time t = false ->
        exists status msg,
          sendMessage st now newId senderId body = (Fail status msg, st)).
Proof.
  split; [|split].
  - intros status m st'. unfold sendMessage.
    destruct (negb (truthy (b_receiverId body)) && negb (truthy (b_groupId body)));
      [discriminate|].
    destruct (sendMessage_group_checks st senderId body) as [early|] eqn:Hchecks.
    { intros [= -> _]. exfalso. unfold sendMessage_group_checks in Hchecks.
      destruct (if truthy (b_groupId body) then b_groupId body else None);
        [|discriminate].
      destruct (findUnique_group s (groups st)); [|discriminate].
      destruct (negb (includes (g_memberIds g) senderId)); [discriminate|].
      destruct (b_isAnonymous body && negb (g_allowAnonymous g)); [discriminate|].
      destruct (negb (truthy_num (b_expiresAt body)) && truthy_num (g_messageExpiry g));
        discriminate. }
    destruct (b_content body) as [content|]; [|discriminate].
    destruct (b_encryptedKey body) as [encryptedKey|]; [|discriminate].
    destruct (expiresAt_data (b_expiresAt body)) as [e|] eqn:He; [|discriminate].
    apply expiresAt_data_Returns in He. destruct He as [He Hvalid].
    intros [= _ <- _]. cbn [m_senderId m_isRead m_isDelivered m_deleted m_expiresAt
                             m_groupId m_isAnonymous].
    do 4 (split; [reflexivity|]). split; [exact He|]. split; [exact Hvalid|].
    intros gid Hgid. unfold or_null in Hgid.
    destruct (truthy (b_groupId body)) eqn:Ht; [|discriminate].
    unfold sendMessage_group_checks in Hchecks. rewrite Ht, Hgid in Hchecks.
    destruct (findUnique_group gid (groups st)) as [group|]; [|discriminate].
    exists group. split; [reflexivity|].
    destruct (includes (g_memberIds group) senderId) eqn:Hm; cbn [negb] in Hchecks;
      [|discriminate].
    split; [now apply includes_In|].
    destruct (b_isAnonymous body && negb (g_allowAnonymous group)) eqn:Hanon;
      [discriminate|].
    split.
    + intro Ha. rewrite Ha in Hanon. cbn [andb] in Hanon.
      now apply negb_false_iff in Hanon.
    + intros Hexp Hnone. rewrite Hexp, andb_true_r in Hchecks.
      destruct (truthy_num (b_expiresAt body)) eqn:Hb; cbn [negb] in Hchecks;
        [|discriminate].
      subst e. destruct (b_expiresAt body); discriminate.
  - intros gid group Hgid Hne Hf Hm Hanon Hexp Hnone. unfold sendMessage.
    assert (Ht : truthy (b_groupId body) = true).
    { rewrite Hgid. cbn. apply negb_true_iff, String.eqb_neq. exact Hne. }
    rewrite Ht, andb_false_r. unfold sendMessage_group_checks.
    rewrite Ht, Hgid, Hf. apply includes_In in Hm. rewrite Hm. cbn [negb].
    destruct (b_isAnonymous body).
    + rewrite (Hanon eq_refl). cbn [negb andb]. now rewrite Hnone, Hexp.
    + cbn [andb]. now rewrite Hnone, Hexp.
  - intros t Ht Hv.
    assert (He : expiresAt_data (b_expiresAt body) = Throws)
      by (apply expiresAt_data_Throws; eauto).
    unfold sendMessage. rewrite He.
    destruct (negb (truthy (b_receiverId body)) && negb (truthy (b_groupId body)));
      [eauto|].
    destruct (sendMessage_group_checks st senderId body) as [early|] eqn:Hchecks.
    + apply sendMessage_group_checks_Fail in Hchecks.
      destruct Hchecks as (status & msg & ->). eauto.
    + destruct (b_content body); [destruct (b_encryptedKey body)|]; eauto.
Qed.

(** The statement at [bob] sending into a group with a default expiry of
    a minute, with the number zero as deadline. *)
Lemma sendMessage_group_rules_witness :
  sendMessage Sample2.timed 5000 "64f1c0000000000000000009" Sample.bob Sample2.to_group
  = (Fail 500 "Server error sending message", Sample2.timed).
Proof.
  eapply (proj1 (proj2 (sendMessage_group_rules Sample2.timed 5000
                          "64f1c0000000000000000009" Sample.bob Sample2.to_group)));
    try reflexivity; [discriminate | cbn; auto].
Defined.

(** ** The order of a conversation *)

Lemma insert_by_createdAt_sorted (m : Message) (ms : list Message) :
  StronglySorted created_before ms ->
  StronglySorted created_before (insert_by_createdAt m ms).
Proof.
  induction ms as [|x ms IH]; intro H; cbn [insert_by_createdAt].
  - repeat constructor.
  - apply StronglySorted_inv in H. destruct H as [Hs Hx].
    destruct (Z.ltb_spec (m_createdAt m) (m_createdAt x)) as [Hlt|Hge].
    + constructor; [constructor; assumption|]. constructor.
      * unfold created_before. lia.
      * eapply Forall_impl; [|exact Hx]. unfold created_before. intros a Ha. lia.
    + constructor; [auto|]. apply Forall_forall. intros a Ha.
      apply in_insert_by_createdAt in Ha. destruct Ha as [->|Ha].
      * exact Hge.
      * rewrite Forall_forall in Hx. auto.
Qed.

Lemma insert_by_createdAt_perm (m : Message) (ms : list Message) :
  Permutation (insert_by_createdAt m ms) (m :: ms).
Proof.
  induction ms as [|x ms IH]; cbn [insert_by_createdAt]; [reflexivity|].
  destruct (Z.ltb (m_createdAt m) (m_createdAt x)); [reflexivity|].
  rewrite IH. apply perm_swap.
Qed.

Lemma orderBy_createdAt_sorted (ms : list Message) :
  StronglySorted created_before (orderBy_createdAt ms)
  /\ Permutation (orderBy_createdAt ms) ms.
Proof.
  unfold orderBy_createdAt.
  enough (H : forall acc, StronglySorted created_before acc ->
                StronglySorted created_before
                  (fold_left (fun a m => insert_by_createdAt m a) ms acc)
                /\ Permutation (fold_left (fun a m => insert_by_createdAt m a) ms acc)
                     (acc ++ ms)).
  { apply (H []). constructor. }
  induction ms as [|m ms IH]; intros acc Hacc; cbn [fold_left].
  - split; [assumption|]. now rewrite app_nil_r.
  - destruct (IH _ (insert_by_createdAt_sorted m Hacc)) as [H1 H2].
    split; [assumption|]. rewrite H2, insert_by_createdAt_perm.
    apply Permutation_middle.
Qed.

(** X22. The direct-conversation fetch answers in ascending order of
    creation, and returns each message that passes its filter exactly once:
    the messages of the response are a sorted rearrangement of the matching
    messages of the store. *)
Theorem getMessagesByUser_is_ordered (st : Store) (now : Date)
    (currentUserId otherUserId : string) :
  StronglySorted created_before
    (fetched (fst (getMessagesByUser st now currentUserId otherUserId)))
  /\ Permutation (fetched (fst (getMessagesByUser st now currentUserId otherUserId)))
       (findMany (getMessagesByUser_where currentUserId otherUserId now)
          (messages st)).
Proof.
  unfold getMessagesByUser. cbn [fst fetched].
  rewrite map_map. cbn [include_reactions mwr_message]. rewrite map_id.
  apply orderBy_createdAt_sorted.
Qed.

(** ** Who reads a group conversation *)





(** ** Who acknowledges a message *)

(** X24. A read acknowledgment is for the audience of a message: when
    [markMessageRead] answers 200 the caller is the direct receiver of the
    message or a member of its group, and only the messages with that id
    change, by having both flags set. Anyone else, the sender of a direct
    message included, gets an error answer and changes nothing. *)
Theorem markMessageRead_audience_only (st : Store) (userId messageId : string)
    (r : Response unit) (st' : Store) :
  markMessageRead st userId messageId = (r, st') ->
  ((exists status msg, r = Fail status msg) /\ st' = st)
  \/ (exists message,
        r = Json 200 tt /\
        findUnique_message messageId (messages st) = Some message /\
        (m_receiverId message = Some userId \/
         exists gid, m_groupId message = Some gid /\ member_of st gid userId) /\
        Forall2 (fun m m' => (m_id m <> messageId /\ m' = m) \/
                             (m_id m = messageId /\ m' = set_isRead_isDelivered m))
          (messages st) (messages st')).
Proof.
  unfold markMessageRead.
  destruct (findUnique_message messageId (messages st)) as [message|] eqn:Hf;
    [|intros [= <- <-]; left; eauto].
  destruct (canMarkAsRead st message userId) eqn:Hc; cbn [negb];
    [|intros [= <- <-]; left; eauto].
  intros [= <- <-]. right. exists message. split; [reflexivity|]. split; [reflexivity|].
  split.
  - unfold canMarkAsRead in Hc.
    destruct (eq_id (m_receiverId message) userId) eqn:Hr.
    + left. now apply eq_id_true.
    + destruct (truthy (m_groupId message)); [|discriminate].
      destruct (m_groupId message) as [gid|]; [|discriminate].
      destruct (findUnique_group gid (groups st)) as [g|] eqn:Hg; [|discriminate].
      right. exists gid. split; [reflexivity|]. exists g. split; [assumption|].
      now apply includes_In.
  - unfold set_messages, update_by_id. cbn [messages].
    clear Hf Hc. generalize (messages st). intro ms.
    induction ms as [|m ms IH]; cbn [map]; constructor; [|exact IH].
    destruct (String.eqb_spec (m_id m) messageId); auto.
Qed.

(** The statement at [carol], the sender of the direct message to
    [dave]. *)
Lemma markMessageRead_audience_only_witness :
  markMessageRead Sample.store Sample.carol (m_id Sample.direct)
  = (Fail 403 "Not authorized to mark this message as read", Sample.store).
Proof.
  destruct (@markMessageRead_audience_only Sample.store Sample.carol (m_id Sample.direct)
              _ _ eq_refl) as [_|(m & E & _)]; [reflexivity | discriminate].
Defined.

(** ** From creating a group to joining it *)

Lemma find_app_none {A} (p : A -> bool) (l l' : list A) :
  find p l = None -> find p (l ++ l') = find p l'.
Proof.
  induction l as [|y l IH]; [reflexivity|]. cbn [app find].
  destruct (p y); [discriminate | exact IH].
Qed.

(** X25. A created group can be joined with the code it was created with.
    When [createGroup] answers with a group, the caller is its admin and its
    only member, and the answer carries the invite code; until the deadline
    of that invite, any other user who presents the code is admitted, and
    the group then has these two members. *)
Theorem createGroup_then_joinGroup (st : Store) (newId inviteCode : string)
    (expiryDate : Date) (adminId : string) (body : CreateGroupBody)
    (status : nat) (group : Group) (code : string) (st' : Store) :
  createGroup st newId inviteCode expiryDate adminId body
    = (Json status (group, code), st') ->
  code = inviteCode
  /\ g_id group = newId /\ g_adminId group = adminId /\ g_memberIds group = [adminId]
  /\ findUnique_group newId (groups st') = Some group
  /\ forall now userId,
       inviteCode <> "" -> (now <= expiryDate)%Z -> userId <> adminId ->
       exists st'',
         joinGroup st' now userId (Some inviteCode)
           = (Json 200 (newId, g_name group), st'')
         /\ findUnique_group newId (groups st'')
            = Some (set_memberIds [adminId; userId] group).
Proof.
  unfold createGroup.
  destruct (if truthy (cg_name body) then cg_name body else None) as [name|];
    [|discriminate].
  destruct (findUnique_group newId (groups st)) eqn:Hg; [discriminate|].
  unfold create_invite. cbn [i_inviteCode groupInvites set_groups].
  destruct (findUnique_invite inviteCode (groupInvites st)) eqn:Hi; [discriminate|].
  intros [= _ <- <- <-]. cbn [g_id g_adminId g_memberIds g_name].
  set (g := mkGroup newId name _ adminId [adminId] _ _).
  assert (Hf : findUnique_group newId (groups st ++ [g]) = Some g).
  { unfold findUnique_group in *. rewrite find_app_none by exact Hg.
    cbn. now rewrite String.eqb_refl. }
  repeat split; [exact Hf|].
  intros now userId Hcode Hnow Hne. eexists. unfold joinGroup.
  cbn [truthy groupInvites set_groupInvites groups set_groups].
  apply String.eqb_neq in Hcode. rewrite Hcode. cbn [negb].
  assert (Hinv : findUnique_invite inviteCode
                   (groupInvites st ++ [mkInvite newId inviteCode expiryDate])
                 = Some (mkInvite newId inviteCode expiryDate)).
  { unfold findUnique_invite in *. rewrite find_app_none by exact Hi.
    cbn. now rewrite String.eqb_refl. }
  rewrite Hinv. cbn [i_groupId i_expiresAt]. rewrite Hf.
  destruct (Z.ltb_spec expiryDate now) as [Hlt|_]; [lia|].
  assert (Hm : includes (g_memberIds g) userId = false).
  { cbn. apply String.eqb_neq in Hne. now rewrite Hne. }
  rewrite Hm. split; [reflexivity|].
  cbn [groups set_groups]. rewrite findUnique_update_group by reflexivity.
  rewrite Hf. cbn [option_map g_id]. subst g. cbn [g_id]. now rewrite String.eqb_refl.
Qed.

(** The statement at [dave] creating a group that [bob] joins. *)
Lemma createGroup_then_joinGroup_witness :
  exists g st' st'',
    createGroup Sample.store "64f1c00000000000000000aa" "c0ffee123456" 700000
      Sample.dave (mkCreateGroupBody (Some "chess") None None None)
      = (Json 201 (g, "c0ffee123456"), st')
    /\ joinGroup st' 5000 Sample.bob (Some "c0ffee123456")
       = (Json 200 ("64f1c00000000000000000aa", "chess"), st'')
    /\ findUnique_group "64f1c00000000000000000aa" (groups st'')
       = Some (set_memberIds [Sample.dave; Sample.bob] g).
Proof.
  eexists. eexists.
  destruct (@createGroup_then_joinGroup Sample.store "64f1c00000000000000000aa"
              "c0ffee123456" 700000 Sample.dave
              (mkCreateGroupBody (Some "chess") None None None) 201 _ _ _ eq_refl)
    as (_ & _ & _ & _ & _ & H).
  destruct (H 5000%Z Sample.bob) as (st'' & H1 & H2);
    [discriminate | lia | intro E; vm_compute in E; discriminate E |].
  exists st''. split; [reflexivity|]. split; [exact H1 | exact H2].
Defined.

(** ** Signing in *)


Lemma verifyOTP_cases (st : Store) (userId providedOtp : string) (b : bool)
    (st' : Store) :
  verifyOTP st userId providedOtp = (b, st') ->
  users st' = users st
  /\ ((b = false /\ st' = st)
      \/ (b = true
          /\ (exists o, findUnique_otp userId (otps st) = Some o
                        /\ o_otp o = providedOtp)
          /\ findUnique_otp userId (otps st') = None)).
Proof.
  unfold verifyOTP.
  destruct (findUnique_otp userId (otps st)) as [o|] eqn:Ho;
    [|intros [= <- <-]; auto].
  destruct (String.eqb_spec (o_otp o) providedOtp) as [Heq|Hne]; cbn [negb];
    intros [= <- <-]; [|auto].
  split; [reflexivity|]. right. split; [reflexivity|]. split; [eauto|].
  cbn [otps set_otps].
  apply (find_filter_negb (fun o => String.eqb (o_userId o) userId)).
Qed.

(** X26. A token is issued only against the stored code. When
    [verifyPhone] answers 200, the request named a user and a code, the code
    is the one stored for that user, the token is the one generated for that
    stored user, and the code is gone afterwards. *)
Theorem verifyPhone_sound (generateToken : User -> Outcome string) (st : Store)
    (userId otp : option string) (status : nat) (token : string) (user : User)
    (st' : Store) :
  verifyPhone generateToken st userId otp = (Json status (token, user), st') ->
  exists uid code o,
    userId = Some uid /\ otp = Some code
    /\ findUnique_otp uid (otps st) = Some o /\ o_otp o = code
    /\ findUnique_user uid (users st) = Some user
    /\ generateToken user = Returns token
    /\ findUnique_otp uid (otps st') = None
    /\ users st' = users st.
Proof.
  unfold verifyPhone.
  destruct (negb (truthy userId) || negb (truthy otp)); [discriminate|].
  destruct userId as [uid|]; [|discriminate]. destruct otp as [code|]; [|discriminate].
  destruct (verifyOTP st uid code) as [b st1] eqn:Hv.
  apply verifyOTP_cases in Hv. destruct Hv as [Hu Hv].
  destruct b; cbn [negb]; [|discriminate].
  destruct Hv as [[Hb _]|(_ & (o & Ho & Hc) & Hgone)]; [discriminate|].
  destruct (findUnique_user uid (users st1)) as [u|] eqn:Hfu; [|discriminate].
  destruct (generateToken u) as [t|] eqn:Ht; [|discriminate].
  intros [= _ <- <- <-]. exists uid, code, o. rewrite <- Hu. auto 10.
Qed.

(** The statement at [alice], with the code saved at sign-in. *)
Lemma verifyPhone_sound_witness :
  exists o,
    findUnique_otp Sample.alice
      (otps (saveOTP 300 Sample.store 0 Sample.alice "492817")) = Some o
    /\ o_otp o = "492817".
Proof.
  destruct (@verifyPhone_sound sample_token
              (saveOTP 300 Sample.store 0 Sample.alice "492817")
              (Some Sample.alice) (Some "492817") _ _ _ _ eq_refl)
    as (uid & code & o & [= <-] & [= <-] & Ho & Hc & _).
  exists o. split; assumption.
Defined.




